(** * Pixel Battle client: viewport, session and store

    A shallow embedding of the browser client of Fazzyt/pixel-battle:
    the observable store ([modules/StateManager.js]), the session manager
    ([modules/WebSocketManager.js]), the input controller
    ([modules/InputController.js]), the cooldown flow of [app.js], and the
    first-generation scripts [canvas.js], [websocket.js], [config.js]; then
    the renderer ([modules/RenderEngine.js]), the frame sampler of
    [utils/PerformanceMonitor.js], the placement of [app.js] with the
    helpers of [components/NotificationSystem.js], and [controls.js].

    Numbers.  JavaScript numbers are modelled by exact rationals [Q] where the
    code computes with fractions (scale, offsets, delays) and by [Z] where it
    only ever holds integers (grid coordinates, seconds, counters).  Rounding
    of IEEE doubles and the infinities are outside the model, except for the
    mapping from a click to a cell, where rounding decides the cell: that one
    is given on binary64 values in [Double].  Division: in
    [Q] a quotient by zero is zero, in JavaScript it is [NaN] or an infinity;
    [InputController.screenToCanvas] treats the zero divisor on its own and
    returns what the JavaScript returns, and everywhere else the divisor is a
    scale, which the statements that depend on it take to be non-zero (it
    stays within 0.1 and 20 from the initial 1, see [run_scale_hard_bounds]). *)

From Stdlib Require Import ZArith QArith Qround Qminmax Qpower Lia Lqa Ascii String.
From Stdlib Require SpecFloat.
From stdpp Require Import base option list strings gmap pretty.

Local Open Scope Q_scope.

(** ** config.js *)

Record Config := {
  CANVAS_WIDTH : Z;
  CANVAS_HEIGHT : Z;
  PIXEL_SIZE : Z;
  MIN_SCALE : Q;
  MAX_SCALE : Q;
  COOLDOWN_TIME : Z;
  DEFAULT_COLOR : string
}.

Definition CONFIG : Config := {|
  CANVAS_WIDTH := 1600;
  CANVAS_HEIGHT := 400;
  PIXEL_SIZE := 5;
  MIN_SCALE := 1 # 2;
  MAX_SCALE := 10;
  COOLDOWN_TIME := 60;
  DEFAULT_COLOR := "#000000"
|}.

(** The [canvas] sub-tree of the store, as the record its numeric fields form. *)
Record CanvasState := {
  scale : Q;
  offsetX : Q;
  offsetY : Q;
  selectedPixel : option (Z * Z)
}.

(** [StateManager.initializeCanvasState] followed by the defaults of the
    constructor: scale 1, offset (0, headerHeight). *)
Definition initialCanvas (headerHeight : Q) : CanvasState :=
  {| scale := 1; offsetX := 0; offsetY := headerHeight; selectedPixel := None |}.

(** JavaScript comparison [a > b] on numbers. *)
Definition Qgtb (a b : Q) : bool := if Qlt_le_dec b a then true else false.
Definition Qltb (a b : Q) : bool := if Qlt_le_dec a b then true else false.
Definition Qgeb (a b : Q) : bool := Qle_bool b a.

(** ** modules/InputController.js *)
Module InputController.

(** What the controller measures from the page on every call: the canvas
    element's bounding rectangle, the two CSS variables as [parseInt] reads
    them ([None] is [NaN]), the window size and the bounding rectangle of
    [.canvas-container] ([None] when the element is absent). *)
Record Page := {
  rect_left : Q;
  rect_top : Q;
  rect_width : Q;
  rect_height : Q;
  css_header_height : option Z;
  css_sidebar_width : option Z;
  innerWidth : Q;
  innerHeight : Q;
  containerRect : option (Q * Q)
}.

(** [parseInt(...) || dflt]: [NaN] and [0] are falsy. *)
Definition parseIntOr (v : option Z) (dflt : Z) : Q :=
  match v with
  | Some z => if (z =? 0)%Z then inject_Z dflt else inject_Z z
  | None => inject_Z dflt
  end.

Definition headerHeight (pg : Page) : Q := parseIntOr (css_header_height pg) 60.
Definition sidebarWidth (pg : Page) : Q := parseIntOr (css_sidebar_width pg) 300.

Definition availableWidth (pg : Page) : Q :=
  if Qgtb (innerWidth pg) 768 then innerWidth pg - sidebarWidth pg else innerWidth pg.
Definition availableHeight (pg : Page) : Q := innerHeight pg - headerHeight pg.

Definition finalWidth (pg : Page) : Q :=
  let w := match containerRect pg with Some (w, _) => w | None => 0 end in
  if Qgtb w 0 then w else availableWidth pg.
Definition finalHeight (pg : Page) : Q :=
  let h := match containerRect pg with Some (_, h) => h | None => 0 end in
  if Qgtb h 0 then h else availableHeight pg.

Definition logicalCanvasWidth (cfg : Config) : Q :=
  inject_Z (CANVAS_WIDTH cfg) * inject_Z (PIXEL_SIZE cfg).
Definition logicalCanvasHeight (cfg : Config) : Q :=
  inject_Z (CANVAS_HEIGHT cfg) * inject_Z (PIXEL_SIZE cfg).

(** The offset clamp.  The source repeats this block verbatim in
    [updateDragPosition], [handleTouchDrag], [zoomAtPoint] and [moveCanvas];
    [logical] is the logical canvas extent, [final] the visible extent. *)
Definition clampOffsetX (logical scale final newOffsetX : Q) : Q :=
  if Qgtb (logical * scale) final
  then Qmin 0 (Qmax newOffsetX (final - logical * scale))
  else
    let maxOffset := Qmax 0 (final - logical * scale) in
    Qmax (- maxOffset) (Qmin newOffsetX maxOffset).

Definition clampOffsetY (logical scale final header newOffsetY : Q) : Q :=
  if Qgtb (logical * scale) final
  then Qmin header (Qmax newOffsetY (final - logical * scale))
  else
    let maxOffset := Qmax 0 (final - logical * scale) in
    Qmax (header - maxOffset) (Qmin newOffsetY (header + maxOffset)).

Definition clampX (cfg : Config) (pg : Page) (scale o : Q) : Q :=
  clampOffsetX (logicalCanvasWidth cfg) scale (finalWidth pg) o.
Definition clampY (cfg : Config) (pg : Page) (scale o : Q) : Q :=
  clampOffsetY (logicalCanvasHeight cfg) scale (finalHeight pg) (headerHeight pg) o.

Definition isValidCanvasPosition (cfg : Config) (pos : Z * Z) : bool :=
  (0 <=? fst pos)%Z && (fst pos <? CANVAS_WIDTH cfg)%Z &&
  (0 <=? snd pos)%Z && (snd pos <? CANVAS_HEIGHT cfg)%Z.

(** [screenToCanvas], on exact rationals.  When [PIXEL_SIZE * scale] is zero
    the JavaScript divisions give [NaN] or an infinity, which fail every
    comparison of [isValidCanvasPosition]: the result is [null].  The floor is
    that of the exact quotient; the floor of the rounded quotient, which is
    what the code selects, is [Double.screenToCanvas] below.  The two can
    differ by one cell ([Double_rounding_moves_cell]); the statements over
    this definition are about the bounds check and the offsets, which the
    difference does not touch. *)
Definition screenToCanvas (cfg : Config) (pg : Page) (st : CanvasState)
    (screenX screenY : Q) : option (Z * Z) :=
  let cell := inject_Z (PIXEL_SIZE cfg) * scale st in
  if Qeq_bool cell 0 then None
  else
    let x := Qfloor ((screenX - rect_left pg - offsetX st) / cell) in
    let y := Qfloor ((screenY - rect_top pg - offsetY st) / cell) in
    if isValidCanvasPosition cfg (x, y) then Some (x, y) else None.

Definition handlePixelSelection (cfg : Config) (st : CanvasState)
    (canvasPos : Z * Z) : CanvasState :=
  if isValidCanvasPosition cfg canvasPos
  then {| scale := scale st; offsetX := offsetX st; offsetY := offsetY st;
          selectedPixel := Some canvasPos |}
  else st.

Definition zoomAtPoint (cfg : Config) (pg : Page) (st : CanvasState)
    (screenPoint : Q * Q) (zoomFactor : Q) : CanvasState :=
  let newScale := Qmax (1 # 10) (Qmin 20 (scale st * zoomFactor)) in
  if Qeq_bool newScale (scale st) then st
  else
    let mouseCanvasX := (fst screenPoint - offsetX st) / scale st in
    let mouseCanvasY := (snd screenPoint - offsetY st) / scale st in
    let newOffsetX := fst screenPoint - mouseCanvasX * newScale in
    let newOffsetY := snd screenPoint - mouseCanvasY * newScale in
    {| scale := newScale;
       offsetX := clampX cfg pg newScale newOffsetX;
       offsetY := clampY cfg pg newScale newOffsetY;
       selectedPixel := selectedPixel st |}.

Definition zoomSensitivity : Q := 1 # 10.
Definition keyboardMoveStep : Q := 50.

(** [handleWheel]: [delta = -Math.sign(deltaY)]. *)
Definition handleWheel (cfg : Config) (pg : Page) (st : CanvasState)
    (clientX clientY : Q) (deltaY : Q) : CanvasState :=
  let delta := - inject_Z (Z.sgn (Qnum deltaY)) in
  zoomAtPoint cfg pg st (clientX, clientY) (1 + zoomSensitivity * delta).

Definition zoomAtCenter (cfg : Config) (pg : Page) (st : CanvasState)
    (factor : Q) : CanvasState :=
  zoomAtPoint cfg pg st (rect_width pg / 2, rect_height pg / 2) factor.

Definition moveCanvas (cfg : Config) (pg : Page) (st : CanvasState)
    (deltaX deltaY : Q) : CanvasState :=
  {| scale := scale st;
     offsetX := clampX cfg pg (scale st) (offsetX st + deltaX);
     offsetY := clampY cfg pg (scale st) (offsetY st + deltaY);
     selectedPixel := selectedPixel st |}.

(** [updateDragPosition] while a drag is active; [dragStart] holds the
    pointer position and the offsets at [startDragging]. *)
Record DragStart := { ds_x : Q; ds_y : Q; ds_offsetX : Q; ds_offsetY : Q }.
Definition dragSensitivity : Q := 1.

Definition updateDragPosition (cfg : Config) (pg : Page) (st : CanvasState)
    (dragStart : DragStart) (clientX clientY : Q) : CanvasState :=
  let deltaX := (clientX - ds_x dragStart) * dragSensitivity in
  let deltaY := (clientY - ds_y dragStart) * dragSensitivity in
  {| scale := scale st;
     offsetX := clampX cfg pg (scale st) (ds_offsetX dragStart + deltaX);
     offsetY := clampY cfg pg (scale st) (ds_offsetY dragStart + deltaY);
     selectedPixel := selectedPixel st |}.

(** [centerCanvas]. *)
Definition centerCanvas (cfg : Config) (pg : Page) (st : CanvasState) : CanvasState :=
  let lw := logicalCanvasWidth cfg * scale st in
  let lh := logicalCanvasHeight cfg * scale st in
  let cx := (finalWidth pg - lw) / 2 in
  let cy := (finalHeight pg - lh) / 2 in
  let newOffsetX :=
    if Qgtb lw (finalWidth pg) then 0
    else let maxOffset := Qmax 0 (finalWidth pg - lw) in
         Qmax (- maxOffset) (Qmin cx maxOffset) in
  let newOffsetY :=
    if Qgtb lh (finalHeight pg) then headerHeight pg
    else let maxOffset := Qmax 0 (finalHeight pg - lh) in
         Qmax (headerHeight pg - maxOffset) (Qmin cy (headerHeight pg + maxOffset)) in
  {| scale := scale st; offsetX := newOffsetX; offsetY := newOffsetY;
     selectedPixel := selectedPixel st |}.

(** [handleMouseDown] with the primary button.  [doubleClick] tells whether
    the double-click timeout armed by an earlier click is still pending, in
    which case [handleDoubleClick] centres the canvas. *)
Definition handleMouseDown (cfg : Config) (pg : Page) (st : CanvasState)
    (doubleClick : bool) (clientX clientY : Q) : CanvasState :=
  match screenToCanvas cfg pg st clientX clientY with
  | Some canvasPos =>
      let st' := handlePixelSelection cfg st canvasPos in
      if doubleClick then centerCanvas cfg pg st' else st'
  | None => st
  end.

(** [handleTouchStart] with a single touch (the long-press timeout it arms
    writes nothing to the canvas state). *)
Definition handleTouchStart (cfg : Config) (pg : Page) (st : CanvasState)
    (clientX clientY : Q) : CanvasState :=
  match screenToCanvas cfg pg st clientX clientY with
  | Some canvasPos => handlePixelSelection cfg st canvasPos
  | None => st
  end.

Definition resetZoom (cfg : Config) (pg : Page) (st : CanvasState) : CanvasState :=
  centerCanvas cfg pg
    {| scale := 1; offsetX := offsetX st; offsetY := offsetY st;
       selectedPixel := selectedPixel st |}.

(** The gestures and keys that reach the viewport primitives.  A pinch stands
    for one [handleTouchZoom] step of an active two-finger gesture whose centre
    is over the grid. *)
Inductive Input :=
| Wheel (clientX clientY deltaY : Q)
| Pinch (centerX centerY zoomFactor : Q)
| KeyEqual | KeyMinus | KeyDigit0 | KeySpace
| KeyArrowLeft | KeyArrowRight | KeyArrowUp | KeyArrowDown
| Drag (dragStart : DragStart) (clientX clientY : Q)
| Click (doubleClick : bool) (clientX clientY : Q)
| Tap (clientX clientY : Q).

Definition handle (cfg : Config) (pg : Page) (st : CanvasState) (i : Input) : CanvasState :=
  match i with
  | Wheel x y d => handleWheel cfg pg st x y d
  | Pinch x y f => zoomAtPoint cfg pg st (x, y) f
  | KeyEqual => zoomAtCenter cfg pg st (12 # 10)
  | KeyMinus => zoomAtCenter cfg pg st (8 # 10)
  | KeyDigit0 => resetZoom cfg pg st
  | KeySpace => centerCanvas cfg pg st
  | KeyArrowLeft => moveCanvas cfg pg st keyboardMoveStep 0
  | KeyArrowRight => moveCanvas cfg pg st (- keyboardMoveStep) 0
  | KeyArrowUp => moveCanvas cfg pg st 0 keyboardMoveStep
  | KeyArrowDown => moveCanvas cfg pg st 0 (- keyboardMoveStep)
  | Drag ds x y => updateDragPosition cfg pg st ds x y
  | Click d x y => handleMouseDown cfg pg st d x y
  | Tap x y => handleTouchStart cfg pg st x y
  end.

Definition run (cfg : Config) (pg : Page) (st : CanvasState) (l : list Input) : CanvasState :=
  fold_left (handle cfg pg) l st.

End InputController.

(** ** canvas.js, the first-generation canvas *)
Module PixelCanvas.

(** [screenToCanvas], on exact rationals and for a non-zero cell size: with
    [PIXEL_SIZE * scale] zero the JavaScript gives [NaN] or an infinity, the
    rational quotient 0. *)
Definition screenToCanvas (cfg : Config) (st : CanvasState)
    (screenX screenY : Q) : Z * Z :=
  (Qfloor ((screenX - offsetX st) / (inject_Z (PIXEL_SIZE cfg) * scale st)),
   Qfloor ((screenY - offsetY st) / (inject_Z (PIXEL_SIZE cfg) * scale st))).

Definition isValidPosition (cfg : Config) (x y : Z) : bool :=
  Qgeb (inject_Z x) 0 &&
  Qltb (inject_Z x) (inject_Z (CANVAS_WIDTH cfg) / inject_Z (PIXEL_SIZE cfg)) &&
  Qgeb (inject_Z y) 0 &&
  Qltb (inject_Z y) (inject_Z (CANVAS_HEIGHT cfg) / inject_Z (PIXEL_SIZE cfg)).

Definition selectPixel (st : CanvasState) (x y : Z) : CanvasState :=
  {| scale := scale st; offsetX := offsetX st; offsetY := offsetY st;
     selectedPixel := Some (x, y) |}.

(** [handleMouseDown] with a button other than the secondary one. *)
Definition handleMouseDown (cfg : Config) (st : CanvasState)
    (clientX clientY : Q) : CanvasState :=
  let pos := screenToCanvas cfg st clientX clientY in
  if isValidPosition cfg (fst pos) (snd pos)
  then selectPixel st (fst pos) (snd pos)
  else st.

Definition zoom : Q := 11 # 10.

(** The body shared by [handleWheel] and the two-finger branch of
    [handleTouchMove], from the requested [newScale] on. *)
Definition zoomTo (cfg : Config) (st : CanvasState)
    (mouseX mouseY newScale : Q) : CanvasState :=
  if Qgeb newScale (MIN_SCALE cfg) && Qle_bool newScale (MAX_SCALE cfg) then
    let oldWorldX := (mouseX - offsetX st) / scale st in
    let oldWorldY := (mouseY - offsetY st) / scale st in
    let newWorldX := (mouseX - offsetX st) / newScale in
    let newWorldY := (mouseY - offsetY st) / newScale in
    {| scale := newScale;
       offsetX := offsetX st + (newWorldX - oldWorldX) * newScale;
       offsetY := offsetY st + (newWorldY - oldWorldY) * newScale;
       selectedPixel := selectedPixel st |}
  else st.

Definition handleWheel (cfg : Config) (st : CanvasState)
    (clientX clientY deltaY : Q) : CanvasState :=
  let delta := - inject_Z (Z.sgn (Qnum deltaY)) in
  let newScale := if Qgtb delta 0 then scale st * zoom else scale st / zoom in
  zoomTo cfg st clientX clientY newScale.

End PixelCanvas.

(** ** JavaScript values

    Parsed JSON and the values the store holds.  [JNum] carries the integers
    the store paths and wire messages modelled here hold; [JNaN] is the number
    [NaN]; [JMap] is a [Map] with string keys.  Objects keep their fields in
    insertion order. *)
#[local] Set Warnings "-register-all".
Inductive JsVal :=
| JUndefined
| JNull
| JNaN
| JBool (b : bool)
| JNum (n : Z)
| JStr (s : string)
| JArr (items : list JsVal)
| JObj (fields : list (string * JsVal))
| JMap (entries : gmap string JsVal).

Module Js.

Fixpoint getField (key : string) (fields : list (string * JsVal)) : option JsVal :=
  match fields with
  | [] => None
  | (k, v) :: rest => if String.eqb key k then Some v else getField key rest
  end.

(** [obj[key] = v] on the own fields: an existing field keeps its place, a
    new one goes last. *)
Fixpoint setField (key : string) (v : JsVal) (fields : list (string * JsVal))
    : list (string * JsVal) :=
  match fields with
  | [] => [(key, v)]
  | (k, v') :: rest =>
      if String.eqb key k then (k, v) :: rest else (k, v') :: setField key v rest
  end.

(** [cur?.[key]] and [cur.key].  Only the own fields of plain objects are
    modelled; inherited properties and the properties of primitives, arrays
    and maps read as [undefined]. *)
Definition prop (cur : JsVal) (key : string) : JsVal :=
  match cur with
  | JObj fields => default JUndefined (getField key fields)
  | _ => JUndefined
  end.

(** [String(v)], the conversion a template literal applies. *)
Fixpoint toString (v : JsVal) : string :=
  match v with
  | JUndefined => "undefined"
  | JNull => "null"
  | JNaN => "NaN"
  | JBool b => if b then "true" else "false"
  | JNum n => pretty n
  | JStr s => s
  | JArr items =>
      String.concat ","
        (map (fun i => match i with
                       | JUndefined | JNull => ""
                       | _ => toString i
                       end) items)
  | JObj _ => "[object Object]"
  | JMap _ => "[object Map]"
  end.

(** [v - 1] after [ToNumber], exact on numbers, [null], booleans and
    [undefined]; strings and objects, which the cooldown path never holds, are
    taken to [NaN]. *)
Definition sub1 (v : JsVal) : JsVal :=
  match v with
  | JNum n => JNum (n - 1)
  | JNull => JNum (-1)
  | JBool b => JNum ((if b then 1 else 0) - 1)
  | _ => JNaN
  end.

(** [v <= 0] for the result of [sub1]. *)
Definition le0 (v : JsVal) : bool :=
  match v with
  | JNum n => (n <=? 0)%Z
  | _ => false
  end.

(** [path.split('.')]. *)
Fixpoint split_dot (path : string) : list string :=
  match path with
  | EmptyString => [EmptyString]
  | String c rest =>
      if Ascii.eqb c "."%char then EmptyString :: split_dot rest
      else match split_dot rest with
           | h :: t => String c h :: t
           | [] => [String c EmptyString]
           end
  end.

Definition join_dot (parts : list string) : string := String.concat "." parts.

End Js.

(** ** modules/StateManager.js

    Subscribers are observers: a callback receives its three arguments, may
    read the store through [get] (it is handed the state tree as it stands
    when it is called) and either returns or throws.  Callbacks that write the
    store during a notification are not modelled.  Every invocation is
    recorded as a [Call]. *)
Module StateManager.

Inductive Outcome := Returns | Throws.
Inductive Completion := Normal | Abrupt.

Record Callback := {
  cb_id : nat;
  cb_run : JsVal -> JsVal -> string -> JsVal -> Outcome
}.

Record Call := {
  call_cb : nat;
  call_value : JsVal;
  call_oldValue : JsVal;
  call_path : string;
  call_state : JsVal;
  call_outcome : Outcome
}.

Record Store := {
  state : JsVal;
  subscribers : gmap string (list Callback);
  middleware : list (string -> JsVal -> JsVal -> JsVal -> Outcome)
}.

Definition with_state (s : Store) (st : JsVal) : Store :=
  {| state := st; subscribers := subscribers s; middleware := middleware s |}.

(** The state object the constructor builds. *)
Definition initialState : JsVal :=
  JObj [
    ("canvas", JObj [("scale", JNum 1); ("offsetX", JNum 0); ("offsetY", JNum 0);
                     ("selectedPixel", JNull); ("pixels", JMap ∅);
                     ("isDragging", JBool false)]);
    ("user", JObj [("selectedColor", JStr "#000000"); ("cooldownTime", JNum 0);
                   ("isCooldown", JBool false); ("clientId", JNull)]);
    ("connection", JObj [("isConnected", JBool false); ("reconnectAttempts", JNum 0);
                         ("lastPing", JNull); ("onlineUsers", JNum 0)]);
    ("ui", JObj [("cursorPosition", JNull); ("selectedTool", JStr "pixel");
                 ("notifications", JArr [])]);
    ("performance", JObj [("fps", JNum 0); ("renderTime", JNum 0);
                          ("pixelsRendered", JNum 0); ("memoryUsage", JNum 0)])
  ].

Definition new : Store :=
  {| state := initialState; subscribers := ∅; middleware := [] |}.

Definition subscribersAt (s : Store) (path : string) : list Callback :=
  default [] (subscribers s !! path).

Definition has_cb (id : nat) (cbs : list Callback) : bool :=
  existsb (fun cb => Nat.eqb (cb_id cb) id) cbs.

(** [subscribe]: the callbacks of a path form a [Set], so adding one that is
    already there changes nothing. *)
Definition subscribe (s : Store) (path : string) (callback : Callback) : Store :=
  let cbs := subscribersAt s path in
  {| state := state s;
     subscribers :=
       <[path := if has_cb (cb_id callback) cbs then cbs else cbs ++ [callback]]>
         (subscribers s);
     middleware := middleware s |}.

(** The function [subscribe] returns. *)
Definition unsubscribe (s : Store) (path : string) (callback : Callback) : Store :=
  match subscribers s !! path with
  | Some cbs =>
      {| state := state s;
         subscribers :=
           <[path := filter (fun cb => cb_id cb ≠ cb_id callback) cbs]> (subscribers s);
         middleware := middleware s |}
  | None => s
  end.

Definition addMiddleware (s : Store)
    (mw : string -> JsVal -> JsVal -> JsVal -> Outcome) : Store :=
  {| state := state s; subscribers := subscribers s;
     middleware := middleware s ++ [mw] |}.

Definition _getNestedValue (obj : JsVal) (path : string) : JsVal :=
  fold_left Js.prop (Js.split_dot path) obj.

Definition get (s : Store) (path : string) : JsVal :=
  _getNestedValue (state s) path.

(** The [reduce] of [_setNestedValue] over the keys before the last one,
    followed by the assignment.  [None] is the [TypeError] that [key in
    current] or the assignment raises on a primitive, [null] or [undefined]
    (and stands for arrays and maps on the way, which are not traversed
    here).  A missing key gets a fresh [{}]; since nothing below a fresh
    object can fail, a failure leaves the tree as it was. *)
Fixpoint setNested (obj : JsVal) (keys : list string) (lastKey : string)
    (value : JsVal) : option JsVal :=
  match obj with
  | JObj fields =>
      match keys with
      | [] => Some (JObj (Js.setField lastKey value fields))
      | key :: keys' =>
          let child := default (JObj []) (Js.getField key fields) in
          match setNested child keys' lastKey value with
          | Some child' => Some (JObj (Js.setField key child' fields))
          | None => None
          end
      end
  | _ => None
  end.

Definition _setNestedValue (obj : JsVal) (path : string) (value : JsVal)
    : option JsVal :=
  let keys := Js.split_dot path in
  setNested obj (removelast keys) (List.last keys EmptyString) value.

(** [xs.forEach(f)]: what the calls logged and how the loop ended.  A call
    that throws ends the loop, and the exception leaves it. *)
Fixpoint forEach {A B : Type} (f : A -> list B * Outcome) (xs : list A)
    : list B * Outcome :=
  match xs with
  | [] => ([], Returns)
  | x :: rest =>
      match f x with
      | (log, Throws) => (log, Throws)
      | (log, Returns) =>
          let '(logs, o) := forEach f rest in (log ++ logs, o)
      end
  end.

(** [try { body } catch (error) { console.error(...) }]. *)
Definition tryCatch {B : Type} (body : list B * Outcome) : list B * Outcome :=
  (fst body, Returns).

(** One call of a subscriber. *)
Definition invoke (st value oldValue : JsVal) (path : string) (cb : Callback)
    : list Call * Outcome :=
  let o := cb_run cb value oldValue path st in
  ([{| call_cb := cb_id cb; call_value := value; call_oldValue := oldValue;
       call_path := path; call_state := st; call_outcome := o |}], o).

(** [subscribers.forEach(callback => { try { callback(...) } catch ... })]. *)
Definition callAll (st : JsVal) (cbs : list Callback)
    (value oldValue : JsVal) (path : string) : list Call * Outcome :=
  forEach (fun cb => tryCatch (invoke st value oldValue path cb)) cbs.

(** [pathParts.slice(0, i).join('.')] for [i] from [length - 1] down to 1. *)
Definition parentPaths (path : string) : list string :=
  let pathParts := Js.split_dot path in
  map (fun i => Js.join_dot (take i pathParts))
      (rev (seq 1 (length pathParts - 1))).

Definition _notifySubscribers (s : Store) (path : string)
    (value oldValue : JsVal) : list Call * Outcome :=
  match callAll (state s) (subscribersAt s path) value oldValue path with
  | (log, Throws) => (log, Throws)
  | (log, Returns) =>
      let '(logs, o) :=
        forEach (fun parentPath =>
                   callAll (state s) (subscribersAt s parentPath)
                           (get s parentPath) JNull parentPath)
                (parentPaths path) in
      (log ++ logs, o)
  end.

(** [this.middleware.forEach(middleware => middleware(path, value,
    oldValue))]: no [try] here. *)
Definition runMiddleware (s : Store) (path : string)
    (value oldValue : JsVal) : Outcome :=
  snd (forEach (fun mw => ([] : list Call, mw path value oldValue (state s)))
               (middleware s)).

Definition completion (o : Outcome) : Completion :=
  match o with Returns => Normal | Throws => Abrupt end.

Definition set (s : Store) (path : string) (value : JsVal)
    : Completion * Store * list Call :=
  let oldValue := get s path in
  match _setNestedValue (state s) path value with
  | None => (Abrupt, s, [])
  | Some st' =>
      let s' := with_state s st' in
      match runMiddleware s' path value oldValue with
      | Throws => (Abrupt, s', [])
      | Returns =>
          let '(calls, o) := _notifySubscribers s' path value oldValue in
          (completion o, s', calls)
      end
  end.

(** The callbacks [_notifySubscribers] is written to walk for a path, in
    order: those of the path itself, then those of each parent path from the
    nearest up. *)
Definition notified (s : Store) (path : string) : list nat :=
  map cb_id (subscribersAt s path) ++
  flat_map (fun parentPath => map cb_id (subscribersAt s parentPath))
           (parentPaths path).

Record Change := { ch_path : string; ch_value : JsVal; ch_oldValue : JsVal }.

(** First loop of [batchUpdate]: every write, in the order of
    [Object.entries]. *)
Fixpoint writeAll (s : Store) (updates : list (string * JsVal))
    : Completion * Store * list Change :=
  match updates with
  | [] => (Normal, s, [])
  | (path, value) :: rest =>
      let oldValue := get s path in
      match _setNestedValue (state s) path value with
      | None => (Abrupt, s, [])
      | Some st' =>
          let '(c, s', changes) := writeAll (with_state s st') rest in
          (c, s', {| ch_path := path; ch_value := value; ch_oldValue := oldValue |}
                    :: changes)
      end
  end.

(** Second loop of [batchUpdate]: every middleware on every change. *)
Definition middlewareOnChanges (s : Store) (changes : list Change) : Outcome :=
  snd (forEach (fun ch => ([] : list Call,
                           runMiddleware s (ch_path ch) (ch_value ch) (ch_oldValue ch)))
               changes).

Definition batchUpdate (s : Store) (updates : list (string * JsVal))
    : Completion * Store * list Call :=
  match writeAll s updates with
  | (Abrupt, s', _) => (Abrupt, s', [])
  | (Normal, s', changes) =>
      match middlewareOnChanges s' changes with
      | Throws => (Abrupt, s', [])
      | Returns =>
          let '(calls, o) :=
            forEach (fun ch => _notifySubscribers s' (ch_path ch) (ch_value ch)
                                                  (ch_oldValue ch)) changes in
          (completion o, s', calls)
      end
  end.

End StateManager.

(** ** app.js: the cooldown flow of [PixelBattleApp] *)
Module PixelBattleApp.
Import StateManager.

(** The store, whether the [setInterval] of [startCooldown] is armed, and
    every subscriber call made so far, oldest first. *)
Record App := {
  appState : Store;
  interval : bool;
  calls : list Call
}.

Definition seq_store (a : App) (r : Completion * Store * list Call) (armed : bool)
    : Completion * App :=
  let '(c, s, cs) := r in
  (c, {| appState := s;
         interval := match c with Normal => armed | Abrupt => interval a end;
         calls := calls a ++ cs |}).

(** [startCooldown] and [endCooldown]: their writes to [user.isCooldown] and
    [user.cooldownTime] and the interval.  The updates of the two buttons,
    which read the store and write the page only, are left out, and so is the
    notification [endCooldown] shows last, a write to [ui.notifications]. *)
Definition startCooldown (cfg : Config) (a : App) : Completion * App :=
  seq_store a
    (batchUpdate (appState a)
       [("user.isCooldown", JBool true);
        ("user.cooldownTime", JNum (COOLDOWN_TIME cfg))]) true.

Definition endCooldown (a : App) : Completion * App :=
  seq_store a
    (batchUpdate (appState a)
       [("user.isCooldown", JBool false);
        ("user.cooldownTime", JNum 0)]) (interval a).

(** The callback of the [setInterval]: one run per second while armed. *)
Definition tick (a : App) : Completion * App :=
  if interval a then
    let currentTime := Js.sub1 (get (appState a) "user.cooldownTime") in
    match seq_store a (set (appState a) "user.cooldownTime" currentTime) (interval a) with
    | (Abrupt, a') => (Abrupt, a')
    | (Normal, a') =>
        if Js.le0 currentTime
        then endCooldown {| appState := appState a'; interval := false;
                            calls := calls a' |}
        else (Normal, a')
    end
  else (Normal, a).

Fixpoint ticks (n : nat) (a : App) : App :=
  match n with
  | O => a
  | S n' => ticks n' (snd (tick a))
  end.

(** The two cooldown subscriptions of [setupStateEvents]: the display
    update on [user.cooldownTime] and the button update on
    [user.isCooldown].  Both only touch the page. *)
Definition cooldownDisplaySubscriber : Callback :=
  {| cb_id := 1; cb_run := fun _ _ _ _ => Returns |}.
Definition confirmButtonSubscriber : Callback :=
  {| cb_id := 2; cb_run := fun _ _ _ _ => Returns |}.

Definition setupStateEvents (s : Store) : Store :=
  subscribe (subscribe s "user.cooldownTime" cooldownDisplaySubscriber)
            "user.isCooldown" confirmButtonSubscriber.

Definition start : App :=
  {| appState := setupStateEvents StateManager.new; interval := false; calls := [] |}.

(** What a reader of the store sees of the cooldown pair. *)
Definition cooldownPair (st : JsVal) : JsVal * JsVal :=
  (_getNestedValue st "user.isCooldown", _getNestedValue st "user.cooldownTime").

End PixelBattleApp.

(** ** modules/WebSocketManager.js

    The manager reads and writes six store paths, all fixed:
    [connection.isConnected], [connection.reconnectAttempts],
    [connection.lastPing], [connection.onlineUsers], [ui.notifications] and
    [canvas.pixels].  They are modelled as the fields of a record.  What the
    manager does to the outside is kept in the state as well: the messages
    [ws.send] accepted, the pending reconnect timeouts and the emitted
    events. *)
Module WebSocketManager.

Inductive ReadyState := CONNECTING | OPEN | CLOSING | CLOSED.

Record Settings := {
  maxReconnectAttempts : Z;
  reconnectInterval : Q;
  maxReconnectInterval : Q;
  heartbeatInterval : Q;
  connectionTimeout : Q
}.

(** [this.config] of the constructor. *)
Definition config : Settings := {|
  maxReconnectAttempts := 10;
  reconnectInterval := 1000;
  maxReconnectInterval := 30000;
  heartbeatInterval := 30000;
  connectionTimeout := 10000
|}.

Record Notification := {
  n_id : Z;
  n_type : string;
  n_message : JsVal;
  n_persistent : bool;
  n_duration : option Z
}.

Record AppState := {
  connection_isConnected : bool;
  connection_reconnectAttempts : Z;
  connection_lastPing : option Z;
  connection_onlineUsers : JsVal;
  ui_notifications : list Notification;
  canvas_pixels : gmap string JsVal
}.

Record Manager := {
  ws : option ReadyState;
  isConnecting : bool;
  reconnectAttempts : Z;
  heartbeatTimer : bool;
  connectionTimer : bool;
  messageQueue : list JsVal;
  appState : AppState;
  wire : list JsVal;
  reconnectTimers : list Q;
  emitted : list string
}.

(** The environment of one handler run: whether [ws.send] throws on a
    message, what [Date.now()] and [Math.random()] return, and whether
    [new WebSocket(url)] throws. *)
Record Env := {
  sendThrows : JsVal -> bool;
  now : Z;
  random : Q;
  constructorThrows : bool
}.

Definition initialAppState : AppState := {|
  connection_isConnected := false;
  connection_reconnectAttempts := 0;
  connection_lastPing := None;
  connection_onlineUsers := JNum 0;
  ui_notifications := [];
  canvas_pixels := ∅
|}.

Definition new : Manager := {|
  ws := None; isConnecting := false; reconnectAttempts := 0;
  heartbeatTimer := false; connectionTimer := false; messageQueue := [];
  appState := initialAppState; wire := []; reconnectTimers := []; emitted := []
|}.

(** Field updates. *)
Definition with_ws (v : option ReadyState) (m : Manager) : Manager :=
  {| ws := v; isConnecting := isConnecting m; reconnectAttempts := reconnectAttempts m;
     heartbeatTimer := heartbeatTimer m; connectionTimer := connectionTimer m;
     messageQueue := messageQueue m; appState := appState m; wire := wire m;
     reconnectTimers := reconnectTimers m; emitted := emitted m |}.
Definition with_isConnecting (v : bool) (m : Manager) : Manager :=
  {| ws := ws m; isConnecting := v; reconnectAttempts := reconnectAttempts m;
     heartbeatTimer := heartbeatTimer m; connectionTimer := connectionTimer m;
     messageQueue := messageQueue m; appState := appState m; wire := wire m;
     reconnectTimers := reconnectTimers m; emitted := emitted m |}.
Definition with_reconnectAttempts (v : Z) (m : Manager) : Manager :=
  {| ws := ws m; isConnecting := isConnecting m; reconnectAttempts := v;
     heartbeatTimer := heartbeatTimer m; connectionTimer := connectionTimer m;
     messageQueue := messageQueue m; appState := appState m; wire := wire m;
     reconnectTimers := reconnectTimers m; emitted := emitted m |}.
Definition with_timers (h c : bool) (m : Manager) : Manager :=
  {| ws := ws m; isConnecting := isConnecting m; reconnectAttempts := reconnectAttempts m;
     heartbeatTimer := h; connectionTimer := c;
     messageQueue := messageQueue m; appState := appState m; wire := wire m;
     reconnectTimers := reconnectTimers m; emitted := emitted m |}.
Definition with_messageQueue (v : list JsVal) (m : Manager) : Manager :=
  {| ws := ws m; isConnecting := isConnecting m; reconnectAttempts := reconnectAttempts m;
     heartbeatTimer := heartbeatTimer m; connectionTimer := connectionTimer m;
     messageQueue := v; appState := appState m; wire := wire m;
     reconnectTimers := reconnectTimers m; emitted := emitted m |}.
Definition with_appState (v : AppState) (m : Manager) : Manager :=
  {| ws := ws m; isConnecting := isConnecting m; reconnectAttempts := reconnectAttempts m;
     heartbeatTimer := heartbeatTimer m; connectionTimer := connectionTimer m;
     messageQueue := messageQueue m; appState := v; wire := wire m;
     reconnectTimers := reconnectTimers m; emitted := emitted m |}.
Definition with_wire (v : list JsVal) (m : Manager) : Manager :=
  {| ws := ws m; isConnecting := isConnecting m; reconnectAttempts := reconnectAttempts m;
     heartbeatTimer := heartbeatTimer m; connectionTimer := connectionTimer m;
     messageQueue := messageQueue m; appState := appState m; wire := v;
     reconnectTimers := reconnectTimers m; emitted := emitted m |}.
Definition with_reconnectTimers (v : list Q) (m : Manager) : Manager :=
  {| ws := ws m; isConnecting := isConnecting m; reconnectAttempts := reconnectAttempts m;
     heartbeatTimer := heartbeatTimer m; connectionTimer := connectionTimer m;
     messageQueue := messageQueue m; appState := appState m; wire := wire m;
     reconnectTimers := v; emitted := emitted m |}.
Definition emit (event : string) (m : Manager) : Manager :=
  {| ws := ws m; isConnecting := isConnecting m; reconnectAttempts := reconnectAttempts m;
     heartbeatTimer := heartbeatTimer m; connectionTimer := connectionTimer m;
     messageQueue := messageQueue m; appState := appState m; wire := wire m;
     reconnectTimers := reconnectTimers m; emitted := emitted m ++ [event] |}.

Definition set_isConnected (v : bool) (a : AppState) : AppState :=
  {| connection_isConnected := v;
     connection_reconnectAttempts := connection_reconnectAttempts a;
     connection_lastPing := connection_lastPing a;
     connection_onlineUsers := connection_onlineUsers a;
     ui_notifications := ui_notifications a; canvas_pixels := canvas_pixels a |}.
Definition set_reconnectAttempts (v : Z) (a : AppState) : AppState :=
  {| connection_isConnected := connection_isConnected a;
     connection_reconnectAttempts := v;
     connection_lastPing := connection_lastPing a;
     connection_onlineUsers := connection_onlineUsers a;
     ui_notifications := ui_notifications a; canvas_pixels := canvas_pixels a |}.
Definition set_lastPing (v : option Z) (a : AppState) : AppState :=
  {| connection_isConnected := connection_isConnected a;
     connection_reconnectAttempts := connection_reconnectAttempts a;
     connection_lastPing := v;
     connection_onlineUsers := connection_onlineUsers a;
     ui_notifications := ui_notifications a; canvas_pixels := canvas_pixels a |}.
Definition set_onlineUsers (v : JsVal) (a : AppState) : AppState :=
  {| connection_isConnected := connection_isConnected a;
     connection_reconnectAttempts := connection_reconnectAttempts a;
     connection_lastPing := connection_lastPing a;
     connection_onlineUsers := v;
     ui_notifications := ui_notifications a; canvas_pixels := canvas_pixels a |}.
Definition set_notifications (v : list Notification) (a : AppState) : AppState :=
  {| connection_isConnected := connection_isConnected a;
     connection_reconnectAttempts := connection_reconnectAttempts a;
     connection_lastPing := connection_lastPing a;
     connection_onlineUsers := connection_onlineUsers a;
     ui_notifications := v; canvas_pixels := canvas_pixels a |}.
Definition set_pixels (v : gmap string JsVal) (a : AppState) : AppState :=
  {| connection_isConnected := connection_isConnected a;
     connection_reconnectAttempts := connection_reconnectAttempts a;
     connection_lastPing := connection_lastPing a;
     connection_onlineUsers := connection_onlineUsers a;
     ui_notifications := ui_notifications a; canvas_pixels := v |}.

Definition isOpen (m : Manager) : bool :=
  match ws m with Some OPEN => true | _ => false end.

Definition enqueue (queueIfDisconnected : bool) (message : JsVal) (m : Manager) : Manager :=
  if queueIfDisconnected then with_messageQueue (messageQueue m ++ [message]) m else m.

(** [send(message, queueIfDisconnected)]: the returned boolean and the new
    state. *)
Definition send (e : Env) (m : Manager) (message : JsVal)
    (queueIfDisconnected : bool) : bool * Manager :=
  if isOpen m then
    if sendThrows e message
    then (false, enqueue queueIfDisconnected message m)
    else (true, with_wire (wire m ++ [message]) m)
  else (false, enqueue queueIfDisconnected message m).

Definition flushMessageQueue (e : Env) (m : Manager) : Manager :=
  match messageQueue m with
  | [] => m
  | _ =>
      let messages := messageQueue m in
      fold_left (fun m' message => snd (send e m' message false))
                messages (with_messageQueue [] m)
  end.

Definition clearTimers (m : Manager) : Manager := with_timers false false m.

Definition startHeartbeat (m : Manager) : Manager :=
  with_timers true (connectionTimer m) m.

Definition handleOpen (e : Env) (m : Manager) : Manager :=
  let m := with_isConnecting false m in
  let m := with_reconnectAttempts 0 m in
  let m := clearTimers m in
  let m := with_appState
             (set_lastPing (Some (now e))
                (set_reconnectAttempts 0 (set_isConnected true (appState m)))) m in
  let m := flushMessageQueue e m in
  let m := startHeartbeat m in
  emit "connected" m.

(** The base delay of [scheduleReconnect] for the attempt counter after its
    increment. *)
Definition baseDelay (cfg : Settings) (attempts : Z) : Q :=
  Qmin (reconnectInterval cfg * Qpower 2 (attempts - 1)) (maxReconnectInterval cfg).

Definition gaveUpNotification (e : Env) : Notification :=
  {| n_id := now e; n_type := "error";
     n_message := JStr "Не удалось подключиться к серверу. Попробуйте обновить страницу.";
     n_persistent := true; n_duration := None |}.

Definition scheduleReconnect (cfg : Settings) (e : Env) (m : Manager) : Manager :=
  if (maxReconnectAttempts cfg <=? reconnectAttempts m)%Z then
    with_appState
      (set_notifications (ui_notifications (appState m) ++ [gaveUpNotification e])
                         (appState m)) m
  else
    let m := with_reconnectAttempts (reconnectAttempts m + 1) m in
    let m := with_appState (set_reconnectAttempts (reconnectAttempts m) (appState m)) m in
    let base := baseDelay cfg (reconnectAttempts m) in
    let jitter := base * (1 # 10) * random e in
    let delay := base + jitter in
    with_reconnectTimers (reconnectTimers m ++ [delay]) m.

Definition handleClose (cfg : Settings) (e : Env) (m : Manager) (code : Z) : Manager :=
  let m := with_isConnecting false m in
  let m := clearTimers m in
  let m := with_appState (set_isConnected false (appState m)) m in
  let m := if (code =? 1000)%Z then m else scheduleReconnect cfg e m in
  emit "disconnected" m.

Definition handleError (m : Manager) : Manager := emit "error" m.

Definition connect (cfg : Settings) (e : Env) (m : Manager) : Manager :=
  if isConnecting m || isOpen m then m
  else
    let m := with_isConnecting true m in
    let m := with_appState (set_isConnected false (appState m)) m in
    if constructorThrows e then
      scheduleReconnect cfg e (with_isConnecting false m)
    else
      with_timers (heartbeatTimer m) true (with_ws (Some CONNECTING) m).

Definition disconnect (m : Manager) : Manager :=
  let m := clearTimers m in
  let m := with_ws None m in
  let m := with_appState
             (set_reconnectAttempts 0 (set_isConnected false (appState m))) m in
  let m := with_reconnectAttempts 0 m in
  with_isConnecting false m.

(** The callback of the timeout armed by [scheduleReconnect]. *)
Definition reconnectTimerFires (cfg : Settings) (e : Env) (m : Manager) : Manager :=
  if connection_isConnected (appState m) then m else connect cfg e m.

(** The callback of the heartbeat interval. *)
Definition heartbeat (e : Env) (m : Manager) : Manager :=
  if isOpen m
  then snd (send e m (JObj [("type", JStr "ping"); ("timestamp", JNum (now e))]) false)
  else m.

Definition pixelKey (x y : JsVal) : string :=
  Js.toString x +:+ "," +:+ Js.toString y.

(** [handlePixelUpdate]: one key, built from [message.x] and [message.y]. *)
Definition handlePixelUpdate (m : Manager) (message : JsVal) : Manager :=
  let pixels := canvas_pixels (appState m) in
  let key := pixelKey (Js.prop message "x") (Js.prop message "y") in
  let newPixels := <[key := Js.prop message "color"]> pixels in
  with_appState (set_pixels newPixels (appState m)) m.

(** [pixel.x] on an element of [message.pixels]: a [TypeError] on [null]
    and [undefined]. *)
Definition initPixels (items : list JsVal) : option (gmap string JsVal) :=
  foldl (fun acc pixel =>
           match acc, pixel with
           | None, _ | _, JNull | _, JUndefined => None
           | Some newPixels, _ =>
               Some (<[pixelKey (Js.prop pixel "x") (Js.prop pixel "y")
                       := Js.prop pixel "color"]> newPixels)
           end) (Some ∅) items.

(** [handleInitMessage]; [None] is the exception that [handleMessage]
    catches. *)
Definition handleInitMessage (m : Manager) (message : JsVal) : option Manager :=
  match Js.prop message "pixels" with
  | JArr items =>
      match initPixels items with
      | Some newPixels =>
          Some (with_appState
                  (set_onlineUsers (Js.prop message "online_users")
                     (set_pixels newPixels (appState m))) m)
      | None => None
      end
  | _ => None
  end.

Definition handlePong (e : Env) (m : Manager) : Manager :=
  with_appState (set_lastPing (Some (now e)) (appState m)) m.

Definition handleServerError (e : Env) (m : Manager) (message : JsVal) : Manager :=
  with_appState
    (set_notifications
       (ui_notifications (appState m) ++
        [{| n_id := now e; n_type := "error"; n_message := Js.prop message "message";
            n_persistent := false; n_duration := Some 5000%Z |}])
       (appState m)) m.

(** The [switch] of [handleMessage] on [message.type]; [None] is an exception
    raised by the handler of the case. *)
Definition dispatch (e : Env) (m : Manager) (message : JsVal) : option Manager :=
  match Js.prop message "type" with
  | JStr type =>
      if String.eqb type "init" then handleInitMessage m message
      else if String.eqb type "pixel_update" then Some (handlePixelUpdate m message)
      else if String.eqb type "user_count" then
        Some (with_appState (set_onlineUsers (Js.prop message "count") (appState m)) m)
      else if String.eqb type "pong" then Some (handlePong e m)
      else if String.eqb type "error" then Some (handleServerError e m message)
      else Some m
  | _ => Some m
  end.

(** [handleMessage] on the parsed frame; [None] is a frame [JSON.parse]
    rejects.  Whatever is thrown inside is caught and logged. *)
Definition handleMessage (e : Env) (m : Manager) (data : option JsVal) : Manager :=
  match data with
  | None | Some JNull => m
  | Some message =>
      match dispatch e m message with
      | Some m' =>
          emit ("message:" +:+ Js.toString (Js.prop message "type")) (emit "message" m')
      | None => m
      end
  end.

(** What can happen to a manager. *)
Inductive Event :=
| Connect
| Disconnect
| Send (message : JsVal) (queueIfDisconnected : bool)
| SocketOpen
| SocketClose (code : Z)
| SocketError
| SocketMessage (data : option JsVal)
| ReconnectTimer (i : nat)
| Heartbeat.

Definition step (cfg : Settings) (m : Manager) (ev : Env * Event) : Manager :=
  let '(e, event) := ev in
  match event with
  | Connect => connect cfg e m
  | Disconnect => disconnect m
  | Send message q => snd (send e m message q)
  | SocketOpen =>
      match ws m with
      | Some CONNECTING => handleOpen e (with_ws (Some OPEN) m)
      | _ => m
      end
  | SocketClose code =>
      match ws m with
      | Some _ => handleClose cfg e (with_ws (Some CLOSED) m) code
      | None => m
      end
  | SocketError => handleError m
  | SocketMessage data => if isOpen m then handleMessage e m data else m
  | ReconnectTimer i =>
      match reconnectTimers m !! i with
      | Some _ =>
          reconnectTimerFires cfg e
            (with_reconnectTimers (delete i (reconnectTimers m)) m)
      | None => m
      end
  | Heartbeat => if heartbeatTimer m then heartbeat e m else m
  end.

Definition run (cfg : Settings) (m : Manager) (evs : list (Env * Event)) : Manager :=
  fold_left (step cfg) evs m.

(** The part of a manager the reconnect logic depends on. *)
Definition core (m : Manager) : Z * Z * list Q * option ReadyState :=
  (reconnectAttempts m, connection_reconnectAttempts (appState m),
   reconnectTimers m, ws m).




End WebSocketManager.

(** ** websocket.js with [PixelCanvas.setPixel], the first-generation receiver *)
Module LegacyWebSocket.

(** [PixelCanvas.setPixel] on [this.pixels]. *)
Definition setPixel (pixels : gmap string JsVal) (x y color : JsVal)
    : gmap string JsVal :=
  <[Js.toString x +:+ "," +:+ Js.toString y := color]> pixels.

(** [message.updates.forEach(update => setPixel(update.x, ...))]: reading a
    property of [null] or [undefined] throws and ends the loop with the
    entries before it applied. *)
Fixpoint forEachUpdate (pixels : gmap string JsVal) (updates : list JsVal)
    : StateManager.Completion * gmap string JsVal :=
  match updates with
  | [] => (StateManager.Normal, pixels)
  | JNull :: _ | JUndefined :: _ => (StateManager.Abrupt, pixels)
  | update :: rest =>
      forEachUpdate
        (setPixel pixels (Js.prop update "x") (Js.prop update "y")
                  (Js.prop update "color")) rest
  end.

(** The ['pixel_update'] case of [ws.onmessage]. *)
Definition onPixelUpdate (pixels : gmap string JsVal) (message : JsVal)
    : StateManager.Completion * gmap string JsVal :=
  match Js.prop message "updates" with
  | JArr updates => forEachUpdate pixels updates
  | _ =>
      (StateManager.Normal,
       setPixel pixels (Js.prop message "x") (Js.prop message "y")
                (Js.prop message "color"))
  end.

End LegacyWebSocket.

(** ** Pages used in the scenarios *)

(** A desktop page: a 1920 by 1080 window, a 60 pixel header, a 300 pixel
    sidebar, the canvas filling the container below the header. *)
Definition desktopPage : InputController.Page :=
  {| InputController.rect_left := 0;
     InputController.rect_top := 60;
     InputController.rect_width := 1620;
     InputController.rect_height := 1020;
     InputController.css_header_height := Some 60%Z;
     InputController.css_sidebar_width := Some 300%Z;
     InputController.innerWidth := 1920;
     InputController.innerHeight := 1080;
     InputController.containerRect := Some (1620, 1020) |}.

(** The same window with the canvas element at the window origin. *)
Definition originPage : InputController.Page :=
  {| InputController.rect_left := 0;
     InputController.rect_top := 0;
     InputController.rect_width := 1620;
     InputController.rect_height := 1020;
     InputController.css_header_height := Some 60%Z;
     InputController.css_sidebar_width := Some 300%Z;
     InputController.innerWidth := 1920;
     InputController.innerHeight := 1080;
     InputController.containerRect := Some (1620, 1020) |}.

(** ** Stores and messages used in the scenarios *)

(** A subscriber that throws on every call, and one that returns. *)
Definition throwingSubscriber : StateManager.Callback :=
  {| StateManager.cb_id := 7;
     StateManager.cb_run := fun _ _ _ _ => StateManager.Throws |}.
Definition quietSubscriber (n : nat) : StateManager.Callback :=
  {| StateManager.cb_id := n;
     StateManager.cb_run := fun _ _ _ _ => StateManager.Returns |}.

(** The fresh store with the throwing subscriber first on
    [user.cooldownTime], a quiet one after it, and a quiet one on [user]. *)
Definition guardedStore : StateManager.Store :=
  StateManager.subscribe
    (StateManager.subscribe
       (StateManager.subscribe StateManager.new "user.cooldownTime" throwingSubscriber)
       "user.cooldownTime" (quietSubscriber 8))
    "user" (quietSubscriber 9).

(** [{type: "pixel_update", x, y, color}]. *)
Definition singleUpdate (x y : Z) (color : string) : JsVal :=
  JObj [("type", JStr "pixel_update"); ("x", JNum x); ("y", JNum y);
        ("color", JStr color)].

(** [{type: "pixel_update", updates: [...]}]. *)
Definition batchedUpdate (updates : list JsVal) : JsVal :=
  JObj [("type", JStr "pixel_update"); ("updates", JArr updates)].

Definition update (x y : Z) (color : string) : JsVal :=
  JObj [("x", JNum x); ("y", JNum y); ("color", JStr color)].

Definition twoUpdates : list JsVal :=
  [update 1 2 "#FF0000"; update 3 4 "#00FF00"].

(** An environment in which [ws.send] never throws. *)
Definition calmEnv (t : Z) (r : Q) : WebSocketManager.Env :=
  {| WebSocketManager.sendThrows := fun _ => false;
     WebSocketManager.now := t;
     WebSocketManager.random := r;
     WebSocketManager.constructorThrows := false |}.

(** An environment in which [ws.send] throws on the first placement only. *)
Definition flakyEnv : WebSocketManager.Env :=
  {| WebSocketManager.sendThrows :=
       fun message => match Js.prop message "x" with JNum 1 => true | _ => false end;
     WebSocketManager.now := 2;
     WebSocketManager.random := 0;
     WebSocketManager.constructorThrows := false |}.



(** Two placements made while the socket is still connecting. *)
Definition placements : list (WebSocketManager.Env * JsVal) :=
  [(calmEnv 0 0, singleUpdate 1 2 "#FF0000");
   (calmEnv 1 0, singleUpdate 3 4 "#00FF00")].


(** ** modules/RenderEngine.js *)
Module RenderEngine.

(** [this.canvas.width] and [this.canvas.height], the size of the bitmap in
    device pixels. *)
Record Surface := { width : Q; height : Q }.

(** The arguments of one [fillRect(x, y, w, h)]. *)
Record Rect := { r_x : Q; r_y : Q; r_w : Q; r_h : Q }.

Definition pixelSize (cfg : Config) (scale : Q) : Q :=
  inject_Z (PIXEL_SIZE cfg) * scale.

Definition isPixelInViewport (cv : Surface) (x y size : Q) : bool :=
  negb (Qltb (x + size) 0 || Qltb (y + size) 0 ||
        Qgtb x (width cv) || Qgtb y (height cv)).

(** [coord.split(',')]. *)
Fixpoint split_comma (coord : string) : list string :=
  match coord with
  | EmptyString => [EmptyString]
  | String c rest =>
      if Ascii.eqb c ","%char then EmptyString :: split_comma rest
      else match split_comma rest with
           | h :: t => String c h :: t
           | [] => [String c EmptyString]
           end
  end.

Definition digit (c : ascii) : option Z :=
  let n := (Z.of_N (N_of_ascii c) - 48)%Z in
  if (0 <=? n)%Z && (n <=? 9)%Z then Some n else None.

Fixpoint digits (acc : Z) (s : string) : option Z :=
  match s with
  | EmptyString => Some acc
  | String c rest =>
      match digit c with
      | Some d => digits (acc * 10 + d) rest
      | None => None
      end
  end.

(** [Number(s)] on the strings a pixel key is made of: the empty string is 0,
    and a run of decimal digits, with or without a leading minus sign, is the
    integer it writes.  [None] stands for every other string (white space,
    fractions, exponents, other radices, ["Infinity"] and the strings that
    convert to [NaN]), which the model does not tell apart. *)
Definition Number (s : string) : option Z :=
  match s with
  | EmptyString => Some 0%Z
  | String c rest =>
      if Ascii.eqb c "-"%char then
        match rest with
        | EmptyString => None
        | _ => option_map Z.opp (digits 0 rest)
        end
      else digits 0 s
  end.

(** [const [x, y] = coord.split(',').map(Number)], for keys whose first two
    parts are integers. *)
Definition coords (coord : string) : option (Z * Z) :=
  match map Number (split_comma coord) with
  | Some x :: Some y :: _ => Some (x, y)
  | _ => None
  end.

(** The rectangle [renderPixels] fills for a cell, and [renderSelectedPixel]
    highlights. *)
Definition pixelRect (cfg : Config) (st : CanvasState) (cell : Z * Z) : Rect :=
  let size := pixelSize cfg (scale st) in
  {| r_x := offsetX st + inject_Z (fst cell) * size;
     r_y := offsetY st + inject_Z (snd cell) * size;
     r_w := size; r_h := size |}.

(** [renderPixels] over the entries of the pixel map in iteration order: the
    [fillRect] calls with their fill styles, [renderedCount] and
    [culledCount].  [None] when a key is outside the domain of [coords]. *)
Fixpoint renderPixels (cfg : Config) (cv : Surface) (st : CanvasState)
    (pixels : list (string * JsVal)) : option (list (JsVal * Rect) * nat * nat) :=
  match pixels with
  | [] => Some ([], O, O)
  | (coord, color) :: rest =>
      match coords coord, renderPixels cfg cv st rest with
      | Some cell, Some (drawn, renderedCount, culledCount) =>
          let r := pixelRect cfg st cell in
          if isPixelInViewport cv (r_x r) (r_y r) (r_w r)
          then Some ((color, r) :: drawn, S renderedCount, culledCount)
          else Some (drawn, renderedCount, S culledCount)
      | _, _ => None
      end
  end.

(** [renderBackground]: the [fillRect] calls after the [clearRect], in order,
    with their fill styles. *)
Definition renderBackground (cfg : Config) (cv : Surface) (st : CanvasState)
    : list (string * Rect) :=
  let logicalCanvasWidth :=
    inject_Z (CANVAS_WIDTH cfg) * inject_Z (PIXEL_SIZE cfg) * scale st in
  let logicalCanvasHeight :=
    inject_Z (CANVAS_HEIGHT cfg) * inject_Z (PIXEL_SIZE cfg) * scale st in
  [("#808080", {| r_x := 0; r_y := 0; r_w := width cv; r_h := height cv |});
   ("#FFFFFF", {| r_x := offsetX st; r_y := offsetY st;
                  r_w := logicalCanvasWidth; r_h := logicalCanvasHeight |})]
  ++ (if Qltb (offsetX st + logicalCanvasWidth) (width cv)
      then [("#808080", {| r_x := offsetX st + logicalCanvasWidth; r_y := 0;
                           r_w := width cv - (offsetX st + logicalCanvasWidth);
                           r_h := height cv |})]
      else [])
  ++ (if Qgtb (offsetX st) 0
      then [("#808080", {| r_x := 0; r_y := 0; r_w := offsetX st; r_h := height cv |})]
      else [])
  ++ (if Qgtb (offsetY st) 0
      then [("#808080", {| r_x := 0; r_y := 0; r_w := width cv; r_h := offsetY st |})]
      else [])
  ++ (if Qltb (offsetY st + logicalCanvasHeight) (height cv)
      then [("#808080", {| r_x := 0; r_y := offsetY st + logicalCanvasHeight;
                           r_w := width cv;
                           r_h := height cv - (offsetY st + logicalCanvasHeight) |})]
      else []).

(** The point (u, v) lies in the area a [fillRect] with non-negative extents
    paints. *)
Definition covers (r : Rect) (u v : Q) : bool :=
  Qle_bool (r_x r) u && Qltb u (r_x r + r_w r) &&
  Qle_bool (r_y r) v && Qltb v (r_y r + r_h r).

(** The fill style of the last [fillRect] that painted the point. *)
Definition colorAt (ops : list (string * Rect)) (u v : Q) : option string :=
  fold_left (fun acc op => if covers (snd op) u v then Some (fst op) else acc)
            ops None.

End RenderEngine.

(** ** app.js: [PixelBattleApp.centerCanvas] *)
Module PixelBattleAppCanvas.
Import InputController.

(** [centerCanvas].  [canvasScale] is [canvas.scale] as the store holds it,
    [containerRect] the size of the bounding rectangle of the canvas container
    read on entry and [newRect] the one read again after
    [forceContainerResize].  The result is the pair written to
    [canvas.offsetX] and [canvas.offsetY]; [None] when the function returns
    without writing. *)
Definition centerCanvas (cfg : Config) (pg : Page) (containerRect newRect : Q * Q)
    (canvasScale : Q) : option (Q * Q) :=
  let scale := if Qeq_bool canvasScale 0 then 1 else canvasScale in
  let logicalCanvasWidth := inject_Z (CANVAS_WIDTH cfg) * inject_Z (PIXEL_SIZE cfg) in
  let logicalCanvasHeight := inject_Z (CANVAS_HEIGHT cfg) * inject_Z (PIXEL_SIZE cfg) in
  let headerHeight := headerHeight pg in
  if (Qle_bool (fst containerRect) 0 || Qle_bool (snd containerRect) 0) &&
     negb (Qgtb (fst newRect) 0 && Qgtb (snd newRect) 0)
  then None
  else
    let availableWidth := innerWidth pg in
    let availableHeight := innerHeight pg - headerHeight in
    let finalWidth :=
      if Qgtb (fst containerRect) 0 then fst containerRect else availableWidth in
    let finalHeight :=
      if Qgtb (snd containerRect) 0 then snd containerRect else availableHeight in
    let centerX := (finalWidth - logicalCanvasWidth * scale) / 2 in
    let centerY := (finalHeight - logicalCanvasHeight * scale) / 2 in
    let centerX :=
      if Qgtb (logicalCanvasWidth * scale) finalWidth then 0
      else Qmax 0 (Qmin centerX (finalWidth - logicalCanvasWidth * scale)) in
    let centerY :=
      if Qgtb (logicalCanvasHeight * scale) finalHeight then headerHeight
      else Qmax headerHeight (Qmin centerY (finalHeight - logicalCanvasHeight * scale)) in
    let centerX := if Qltb centerX 0 then 0 else centerX in
    let centerY := if Qltb centerY headerHeight then headerHeight else centerY in
    Some (centerX, centerY).

End PixelBattleAppCanvas.

(** The interval the offset clamp of [InputController] maps into, per axis. *)
Definition inRangeX (logical s final o : Q) : Prop :=
  if Qgtb (logical * s) final
  then final - logical * s <= o <= 0
  else - (final - logical * s) <= o <= final - logical * s.

Definition inRangeY (logical s final header o : Q) : Prop :=
  if Qgtb (logical * s) final
  then final - logical * s <= o <= header
  else header - (final - logical * s) <= o <= header + (final - logical * s).

Definition offsetsInRange (cfg : Config) (pg : InputController.Page)
    (st : CanvasState) : Prop :=
  inRangeX (InputController.logicalCanvasWidth cfg) (scale st)
           (InputController.finalWidth pg) (offsetX st) /\
  inRangeY (InputController.logicalCanvasHeight cfg) (scale st)
           (InputController.finalHeight pg) (InputController.headerHeight pg)
           (offsetY st).

Definition validSelection (cfg : Config) (st : CanvasState) : Prop :=
  match selectedPixel st with
  | Some pos => InputController.isValidCanvasPosition cfg pos = true
  | None => True
  end.


(** The rectangle [renderBackground] fills with white. *)
Definition whiteRect (cfg : Config) (st : CanvasState) : RenderEngine.Rect :=
  {| RenderEngine.r_x := offsetX st; RenderEngine.r_y := offsetY st;
     RenderEngine.r_w := inject_Z (CANVAS_WIDTH cfg) * inject_Z (PIXEL_SIZE cfg) * scale st;
     RenderEngine.r_h := inject_Z (CANVAS_HEIGHT cfg) * inject_Z (PIXEL_SIZE cfg) * scale st |}.


(** A string with no comma is one part for [RenderEngine.split_comma]. *)
Definition one_part (s : string) : Prop :=
  (forall t, RenderEngine.split_comma (s +:+ "," +:+ t) = s :: RenderEngine.split_comma t) /\
  RenderEngine.split_comma s = [s].


(** The cells [renderPixels] is given when the map holds [cells], each under
    the key [handlePixelUpdate] builds for it. *)
Definition entries (cells : list (Z * Z * JsVal)) : list (string * JsVal) :=
  map (fun c => (WebSocketManager.pixelKey (JNum (fst (fst c))) (JNum (snd (fst c))),
                 snd c)) cells.

Definition visible (cfg : Config) (cv : RenderEngine.Surface) (st : CanvasState)
    (c : Z * Z * JsVal) : bool :=
  let r := RenderEngine.pixelRect cfg st (fst c) in
  RenderEngine.isPixelInViewport cv (RenderEngine.r_x r) (RenderEngine.r_y r)
    (RenderEngine.r_w r).


(** ** Paths and subscriber lists, for the statements about the store *)

(** Two key lists part ways before either ends: neither path is the other,
    an ancestor of it or a descendant of it. *)
Fixpoint diverge (p q : list string) : Prop :=
  match p, q with
  | a :: p', b :: q' => a <> b \/ (a = b /\ diverge p' q')
  | _, _ => False
  end.

(** The record [invoke] logs for a callback. *)
Definition callOf (st value oldValue : JsVal) (path : string)
    (cb : StateManager.Callback) : StateManager.Call :=
  {| StateManager.call_cb := StateManager.cb_id cb;
     StateManager.call_value := value;
     StateManager.call_oldValue := oldValue;
     StateManager.call_path := path;
     StateManager.call_state := st;
     StateManager.call_outcome := StateManager.cb_run cb value oldValue path st |}.


(** ** Messages and runs, for the statements about the session *)

(** The frame the heartbeat sends. *)
Definition ping (e : WebSocketManager.Env) : JsVal :=
  JObj [("type", JStr "ping"); ("timestamp", JNum (WebSocketManager.now e))].

(** The messages one event passes to [send] with a chance of delivery: the
    argument of a [send] call, and the ping of a heartbeat that finds the
    socket open. *)
Definition handed (m : WebSocketManager.Manager)
    (ev : WebSocketManager.Env * WebSocketManager.Event) : list JsVal :=
  match snd ev with
  | WebSocketManager.Send message _ => [message]
  | WebSocketManager.Heartbeat =>
      if WebSocketManager.heartbeatTimer m && WebSocketManager.isOpen m
      then [ping (fst ev)] else []
  | _ => []
  end.

Fixpoint handedAll (cfg : WebSocketManager.Settings) (m : WebSocketManager.Manager)
    (evs : list (WebSocketManager.Env * WebSocketManager.Event)) : list JsVal :=
  match evs with
  | [] => []
  | ev :: rest => handed m ev ++ handedAll cfg (WebSocketManager.step cfg m ev) rest
  end.

(** An event under which the transport accepts every message and every
    [send] call queues when it cannot deliver (the default). *)
Definition calm (ev : WebSocketManager.Env * WebSocketManager.Event) : Prop :=
  (forall x, WebSocketManager.sendThrows (fst ev) x = false) /\
  match snd ev with
  | WebSocketManager.Send _ q => q = true
  | _ => True
  end.

(** Nothing waits in the queue while the socket is open. *)
Definition settled (m : WebSocketManager.Manager) : Prop :=
  WebSocketManager.isOpen m = true -> WebSocketManager.messageQueue m = [].

(** What the manager holds for the transport. *)
Definition transport (m : WebSocketManager.Manager)
    : list JsVal * list JsVal * option WebSocketManager.ReadyState :=
  (WebSocketManager.wire m, WebSocketManager.messageQueue m, WebSocketManager.ws m).

(** [{type: "init", pixels: [...], online_users: n}] with one entry per listed
    cell. *)
Definition initFrame (cells : list (Z * Z * string)) (online_users : Z) : JsVal :=
  JObj [("type", JStr "init");
        ("pixels", JArr (map (fun c => update (fst (fst c)) (snd (fst c)) (snd c)) cells));
        ("online_users", JNum online_users)].

(** The colour the last entry for a cell gives it, if the cell is listed. *)
Fixpoint lastColor (cells : list (Z * Z * string)) (x y : Z) : option JsVal :=
  match cells with
  | [] => None
  | c :: rest =>
      match lastColor rest x y with
      | Some color => Some color
      | None =>
          if (fst (fst c) =? x)%Z && (snd (fst c) =? y)%Z
          then Some (JStr (snd c)) else None
      end
  end.

(** The map after one listed cell is written under its key. *)
Definition paintCell (acc : gmap string JsVal) (c : Z * Z * string) : gmap string JsVal :=
  <[WebSocketManager.pixelKey (JNum (fst (fst c))) (JNum (snd (fst c))) := JStr (snd c)]> acc.


(** ** Stores the cooldown flow runs on *)

(** The state is an object whose [user] field is an object, and no middleware
    is installed (as on every host but localhost). *)
Definition userStore (s : StateManager.Store) : Prop :=
  (exists fields ufields,
     StateManager.state s = JObj fields /\
     Js.getField "user" fields = Some (JObj ufields)) /\
  StateManager.middleware s = [].

(** The states of a running cooldown and of an idle one. *)
Definition cooling (a : PixelBattleApp.App) (t : Z) : Prop :=
  userStore (PixelBattleApp.appState a) /\ PixelBattleApp.interval a = true /\
  PixelBattleApp.cooldownPair (StateManager.state (PixelBattleApp.appState a)) = (JBool true, JNum t).

Definition idle (a : PixelBattleApp.App) : Prop :=
  userStore (PixelBattleApp.appState a) /\ PixelBattleApp.interval a = false /\
  PixelBattleApp.cooldownPair (StateManager.state (PixelBattleApp.appState a)) = (JBool false, JNum 0).


(** ** canvas.js: the pointer handlers of the first-generation canvas *)
Module PixelCanvasEvents.

(** The drag and pinch bookkeeping of [PixelCanvas].  [None] is [null] (and
    the [undefined] of a [lastTouchDistance] never set). *)
Record Pointer := {
  isDragging : bool;
  lastX : option Q;
  lastY : option Q;
  lastTouchDistance : option Q
}.

(** As the constructor leaves it. *)
Definition initialPointer : Pointer :=
  {| isDragging := false; lastX := Some 0; lastY := Some 0; lastTouchDistance := None |}.

(** Truthiness of a number or [null]: zero and [null] are falsy. *)
Definition truthy (v : option Q) : bool :=
  match v with
  | Some q => negb (Qeq_bool q 0)
  | None => false
  end.

(** [ToNumber]: [null] is 0. *)
Definition num (v : option Q) : Q := default 0 v.

Definition with_offsets (st : CanvasState) (x y : Q) : CanvasState :=
  {| scale := scale st; offsetX := x; offsetY := y; selectedPixel := selectedPixel st |}.

(** Events, with what the handlers read from them; a touch event carries the
    number of touches in its constructor, and the distance and centre of two
    touches as [getTouchDistance] and the handler compute them. *)
Inductive Event :=
| MouseDown (button : Z) (clientX clientY : Q)
| MouseMove (clientX clientY : Q)
| MouseUp
| Wheel (clientX clientY deltaY : Q)
| TouchStart1 (clientX clientY : Q)
| TouchStart2 (distance : Q)
| TouchMove1 (clientX clientY : Q)
| TouchMove2 (centerX centerY currentDistance : Q)
| TouchEnd (touches : nat)
| Resize (innerWidth innerHeight : Q).

(** [centerCanvas] for a canvas element of the given size. *)
Definition centerCanvas (cfg : Config) (st : CanvasState) (width height : Q) : CanvasState :=
  with_offsets st ((width - inject_Z (CANVAS_WIDTH cfg) * scale st) / 2)
                  ((height - inject_Z (CANVAS_HEIGHT cfg) * scale st) / 2).

Definition handle (cfg : Config) (s : CanvasState * Pointer) (ev : Event)
    : CanvasState * Pointer :=
  let '(st, p) := s in
  match ev with
  | MouseDown button x y =>
      if (button =? 2)%Z then
        (st, {| isDragging := true; lastX := Some x; lastY := Some y;
                lastTouchDistance := lastTouchDistance p |})
      else (PixelCanvas.handleMouseDown cfg st x y, p)
  | MouseMove x y =>
      if isDragging p then
        (with_offsets st (offsetX st + (x - num (lastX p))) (offsetY st + (y - num (lastY p))),
         {| isDragging := true; lastX := Some x; lastY := Some y;
            lastTouchDistance := lastTouchDistance p |})
      else (st, p)
  | MouseUp =>
      (st, {| isDragging := false; lastX := lastX p; lastY := lastY p;
              lastTouchDistance := lastTouchDistance p |})
  | Wheel x y deltaY => (PixelCanvas.handleWheel cfg st x y deltaY, p)
  | TouchStart1 x y =>
      (PixelCanvas.handleMouseDown cfg st x y,
       {| isDragging := isDragging p; lastX := Some x; lastY := Some y;
          lastTouchDistance := lastTouchDistance p |})
  | TouchStart2 distance =>
      (st, {| isDragging := isDragging p; lastX := lastX p; lastY := lastY p;
              lastTouchDistance := Some distance |})
  | TouchMove1 x y =>
      let st' :=
        if truthy (lastX p) && truthy (lastY p)
        then with_offsets st (offsetX st + (x - num (lastX p)))
                             (offsetY st + (y - num (lastY p)))
        else st in
      (st', {| isDragging := isDragging p; lastX := Some x; lastY := Some y;
               lastTouchDistance := lastTouchDistance p |})
  | TouchMove2 cx cy currentDistance =>
      match lastTouchDistance p with
      | Some d =>
          if Qeq_bool d 0 then (st, p)
          else
            let newScale := scale st * (currentDistance / d) in
            if Qgeb newScale (MIN_SCALE cfg) && Qle_bool newScale (MAX_SCALE cfg)
            then (PixelCanvas.zoomTo cfg st cx cy newScale,
                  {| isDragging := isDragging p; lastX := lastX p; lastY := lastY p;
                     lastTouchDistance := Some currentDistance |})
            else (st, p)
      | None => (st, p)
      end
  | TouchEnd touches =>
      match touches with
      | O => (st, {| isDragging := isDragging p; lastX := None; lastY := None;
                     lastTouchDistance := None |})
      | _ => (st, p)
      end
  | Resize w h => (centerCanvas cfg st w h, p)
  end.

Definition run (cfg : Config) (s : CanvasState * Pointer) (evs : list Event)
    : CanvasState * Pointer :=
  fold_left (handle cfg) evs s.

End PixelCanvasEvents.

(** ** controls.js with [sendPixelUpdate] of websocket.js: the first-generation
    placement and cooldown *)
Module LegacyControls.

(** [pixelCanvas.selectedPixel], [pixelCanvas.pixels] and
    [pixelCanvas.selectedColor]; the globals [cooldown] and [isCooldown];
    how many intervals of [startCooldown] are armed; whether the socket is
    open; the frames handed to [ws.send]; and the [setPixel] calls the confirm
    handler made, oldest first. *)
Record Client := {
  selected : option (Z * Z);
  pixels : gmap string JsVal;
  selectedColor : JsVal;
  cooldown : Z;
  isCooldown : bool;
  intervals : nat;
  socketOpen : bool;
  sent : list JsVal;
  placed : list (Z * Z * JsVal)
}.

Definition initial : Client :=
  {| selected := None; pixels := ∅; selectedColor := JStr "#000000";
     cooldown := 0; isCooldown := false; intervals := O;
     socketOpen := false; sent := []; placed := [] |}.

(** [sendPixelUpdate]: nothing is sent, and nothing kept, unless the socket
    is open. *)
Definition sendPixelUpdate (c : Client) (x y : Z) (color : JsVal) : list JsVal :=
  if socketOpen c
  then sent c ++ [JObj [("type", JStr "pixel_update"); ("x", JNum x); ("y", JNum y);
                        ("color", color)]]
  else sent c.

(** The click handler of [#confirm-pixel], with [startCooldown] inlined at
    its end. *)
Definition confirm (cfg : Config) (c : Client) : Client :=
  match isCooldown c, selected c with
  | false, Some (x, y) =>
      {| selected := None;
         pixels := LegacyWebSocket.setPixel (pixels c) (JNum x) (JNum y) (selectedColor c);
         selectedColor := selectedColor c;
         cooldown := COOLDOWN_TIME cfg;
         isCooldown := true;
         intervals := S (intervals c);
         socketOpen := socketOpen c;
         sent := sendPixelUpdate c x y (selectedColor c);
         placed := placed c ++ [(x, y, selectedColor c)] |}
  | _, _ => c
  end.

(** The callback of an armed interval; the one that reaches zero clears
    itself. *)
Definition tick (c : Client) : Client :=
  match intervals c with
  | O => c
  | S others =>
      let cooldown' := (cooldown c - 1)%Z in
      if (cooldown' <=? 0)%Z then
        {| selected := selected c; pixels := pixels c; selectedColor := selectedColor c;
           cooldown := cooldown'; isCooldown := false; intervals := others;
           socketOpen := socketOpen c; sent := sent c; placed := placed c |}
      else
        {| selected := selected c; pixels := pixels c; selectedColor := selectedColor c;
           cooldown := cooldown'; isCooldown := isCooldown c; intervals := intervals c;
           socketOpen := socketOpen c; sent := sent c; placed := placed c |}
  end.

(** What happens to the client between two renders. *)
Inductive Event :=
| Confirm
| Tick
| Select (cell : option (Z * Z))
| PickColor (color : JsVal)
| Socket (open : bool).

Definition step (cfg : Config) (c : Client) (ev : Event) : Client :=
  match ev with
  | Confirm => confirm cfg c
  | Tick => tick c
  | Select cell =>
      {| selected := cell; pixels := pixels c; selectedColor := selectedColor c;
         cooldown := cooldown c; isCooldown := isCooldown c; intervals := intervals c;
         socketOpen := socketOpen c; sent := sent c; placed := placed c |}
  | PickColor color =>
      {| selected := selected c; pixels := pixels c; selectedColor := color;
         cooldown := cooldown c; isCooldown := isCooldown c; intervals := intervals c;
         socketOpen := socketOpen c; sent := sent c; placed := placed c |}
  | Socket open =>
      {| selected := selected c; pixels := pixels c; selectedColor := selectedColor c;
         cooldown := cooldown c; isCooldown := isCooldown c; intervals := intervals c;
         socketOpen := open; sent := sent c; placed := placed c |}
  end.

Definition run (cfg : Config) (c : Client) (evs : list Event) : Client :=
  fold_left (step cfg) evs c.

Definition isTick (ev : Event) : bool :=
  match ev with Tick => true | _ => false end.

End LegacyControls.

(** The bookkeeping of the first-generation cooldown is consistent between
    handlers. *)
Definition consistent (cfg : Config) (c : LegacyControls.Client) : Prop :=
  LegacyControls.intervals c = (if LegacyControls.isCooldown c then 1 else 0)%nat /\
  (if LegacyControls.isCooldown c then (1 <= LegacyControls.cooldown c <= COOLDOWN_TIME cfg)%Z
   else LegacyControls.cooldown c = 0%Z).

(** The budget: every placement so far is paid for by [COOLDOWN_TIME] ticks,
    the one in progress up to the seconds still to wait. *)
Definition paid (cfg : Config) (c : LegacyControls.Client) (ticks : Z) : Prop :=
  (COOLDOWN_TIME cfg * Z.of_nat (length (LegacyControls.placed c))
   <= ticks + (if LegacyControls.isCooldown c then LegacyControls.cooldown c else 0))%Z.


(** ** utils/PerformanceMonitor.js: the frame sampler *)
Module PerformanceMonitor.

(** The fields the frame callback touches.  [published] logs the pairs
    written to [performance.fps] and [performance.frameTime] by
    [batchUpdate], oldest first; the write is taken to succeed. *)
Record Monitor := {
  isRunning : bool;
  frameCount : Z;
  lastFrameTime : Q;
  frameTimeSamples : list Q;
  fps : Z;
  frameTime : Q;
  published : list (Z * Q)
}.

Definition maxSamples : nat := 60.
Definition fpsUpdateInterval : Q := 1000.

(** [Math.round]: the nearest integer, halves upwards. *)
Definition round (x : Q) : Z := Qfloor (x + (1 # 2)).

(** [this.frameTimeSamples.reduce((a, b) => a + b, 0)]. *)
Definition sum (samples : list Q) : Q := fold_left Qplus samples 0.

Definition updateFPS (m : Monitor) : Monitor :=
  let fps' := frameCount m in
  let frameTime' :=
    match frameTimeSamples m with
    | [] => frameTime m
    | samples =>
        let avgFrameTime := sum samples / inject_Z (Z.of_nat (length samples)) in
        inject_Z (round (avgFrameTime * 100)) / 100
    end in
  {| isRunning := isRunning m; frameCount := frameCount m;
     lastFrameTime := lastFrameTime m; frameTimeSamples := frameTimeSamples m;
     fps := fps'; frameTime := frameTime';
     published := published m ++ [(fps', frameTime')] |}.

(** [samples.push(frameTime)], then [samples.shift()] when the array has
    outgrown [maxSamples]. *)
Definition pushSample (samples : list Q) (frameTime : Q) : list Q :=
  let samples := samples ++ [frameTime] in
  if (maxSamples <? length samples)%nat then tl samples else samples.

(** [trackFrame], the callback of [requestAnimationFrame]. *)
Definition trackFrame (m : Monitor) (timestamp : Q) : Monitor :=
  if isRunning m then
    let frameTime := timestamp - lastFrameTime m in
    let m1 := {| isRunning := true; frameCount := frameCount m + 1;
                 lastFrameTime := lastFrameTime m;
                 frameTimeSamples := pushSample (frameTimeSamples m) frameTime;
                 fps := fps m; frameTime := PerformanceMonitor.frameTime m;
                 published := published m |} in
    if Qle_bool fpsUpdateInterval (timestamp - lastFrameTime m) then
      let m2 := updateFPS m1 in
      {| isRunning := isRunning m2; frameCount := 0; lastFrameTime := timestamp;
         frameTimeSamples := frameTimeSamples m2; fps := fps m2;
         frameTime := PerformanceMonitor.frameTime m2; published := published m2 |}
    else m1
  else m.

Definition run (m : Monitor) (timestamps : list Q) : Monitor :=
  fold_left trackFrame timestamps m.

(** The frame times the callback computes along a run. *)
Fixpoint frameTimes (m : Monitor) (timestamps : list Q) : list Q :=
  match timestamps with
  | [] => []
  | t :: rest =>
      (if isRunning m then [t - lastFrameTime m] else [])
      ++ frameTimes (trackFrame m t) rest
  end.

(** The constructor's monitor, started at time [now]. *)
Definition started (now : Q) : Monitor :=
  {| isRunning := true; frameCount := 0; lastFrameTime := now;
     frameTimeSamples := []; fps := 0; frameTime := 0; published := [] |}.

End PerformanceMonitor.


(** ** app.js with components/NotificationSystem.js: placing a pixel

    [handlePixelConfirmation] with what it calls: the static helpers of
    [NotificationSystem], [handlePixelUpdate], [startCooldown] and the
    default [sendPixelUpdate] handler of the session manager.  Of the manager
    only [send] runs, which touches no store path.  As in [StateManager],
    subscribers are observers. *)
Module Placement.
Import StateManager.

(** JavaScript truthiness. *)
Definition truthy (v : JsVal) : bool :=
  match v with
  | JUndefined | JNull | JNaN => false
  | JBool b => b
  | JNum n => negb (n =? 0)%Z
  | JStr s => negb (String.eqb s "")
  | JArr _ | JObj _ | JMap _ => true
  end.

(** The application: the store with the cooldown interval and the call log,
    [this.appState.isConnected], and the session manager. *)
Record App := {
  core : PixelBattleApp.App;
  isConnected : bool;
  manager : WebSocketManager.Manager
}.

(** What one run of the handler draws from outside: the identifier
    [Date.now() + Math.random()] of its notification, and the environment of
    the manager. *)
Record Env := {
  freshId : JsVal;
  sendEnv : WebSocketManager.Env
}.

Definition store (a : App) : Store := PixelBattleApp.appState (core a).

Definition with_core (a : App) (c : PixelBattleApp.App) : App :=
  {| core := c; isConnected := isConnected a; manager := manager a |}.

(** A store operation run by the application: the new store and the calls
    it logged. *)
Definition run_store (a : App) (r : Completion * Store * list Call) : Completion * App :=
  let '(c, app) := PixelBattleApp.seq_store (core a) r (PixelBattleApp.interval (core a)) in
  (c, with_core a app).

(** Sequencing: an exception ends the handler where it is raised. *)
Definition andThen (r : Completion * App) (k : App -> Completion * App)
    : Completion * App :=
  match r with
  | (Normal, a) => k a
  | (Abrupt, a) => (Abrupt, a)
  end.

(** [appState.get('ui.notifications') || []] as [...current] spreads it.
    [None] is the [TypeError] of a truthy value that is not iterable; the
    spread of a non-empty string or of a [Map], which the path never holds,
    is not modelled and counted with it. *)
Definition current (v : JsVal) : option (list JsVal) :=
  match v with
  | JArr items => Some items
  | JObj _ | JMap _ => None
  | _ => if truthy v then None else Some []
  end.

Definition notification (id : JsVal) (message type : string) (duration : Z) : JsVal :=
  JObj [("id", id); ("message", JStr message); ("type", JStr type);
        ("title", JUndefined); ("duration", JNum duration);
        ("persistent", JBool false)].

(** [NotificationSystem.show(message, type, {duration})]. *)
Definition show (e : Env) (a : App) (message type : string) (duration : Z)
    : Completion * App :=
  match current (get (store a) "ui.notifications") with
  | Some items =>
      run_store a
        (set (store a) "ui.notifications"
             (JArr (items ++ [notification (freshId e) message type duration])))
  | None => (Abrupt, a)
  end.

Definition success (e : Env) (a : App) (message : string) (duration : Z) :=
  show e a message "success" duration.
Definition warning (e : Env) (a : App) (message : string) :=
  show e a message "warning" 5000.
Definition error (e : Env) (a : App) (message : string) :=
  show e a message "error" 8000.

(** [new Map(pixels)].  [None] is the [TypeError] of a value that is not
    iterable; arrays and strings, which the path never holds, are not
    modelled and counted with it. *)
Definition newMap (pixels : JsVal) : option (gmap string JsVal) :=
  match pixels with
  | JMap entries => Some entries
  | JUndefined | JNull => Some ∅
  | _ => None
  end.

(** [handlePixelUpdate] of the application. *)
Definition handlePixelUpdate (a : App) (message : JsVal) : Completion * App :=
  let pixels := get (store a) "canvas.pixels" in
  let key := WebSocketManager.pixelKey (Js.prop message "x") (Js.prop message "y") in
  match newMap pixels with
  | Some entries =>
      run_store a
        (set (store a) "canvas.pixels" (JMap (<[key := Js.prop message "color"]> entries)))
  | None => (Abrupt, a)
  end.

(** [webSocketManager.emit('sendPixelUpdate', data)]: the one handler of the
    event is the default one, which sends with queueing on. *)
Definition sendPixelUpdate (e : Env) (a : App) (data : JsVal) : App :=
  {| core := core a; isConnected := isConnected a;
     manager :=
       snd (WebSocketManager.send (sendEnv e) (manager a)
              (JObj [("type", JStr "pixel_update"); ("x", Js.prop data "x");
                     ("y", Js.prop data "y"); ("color", Js.prop data "color")])
              true) |}.

Definition startCooldown (cfg : Config) (a : App) : Completion * App :=
  let '(c, app) := PixelBattleApp.startCooldown cfg (core a) in
  (c, with_core a app).

Definition handlePixelConfirmation (cfg : Config) (e : Env) (a : App)
    : Completion * App :=
  let selectedPixel := get (store a) "canvas.selectedPixel" in
  let selectedColor := get (store a) "user.selectedColor" in
  let isCooldown := get (store a) "user.isCooldown" in
  if negb (truthy selectedPixel) then
    warning e a "Выберите пиксель для размещения"
  else if negb (truthy selectedColor) then
    warning e a "Выберите цвет"
  else if truthy isCooldown then
    let remainingTime := get (store a) "user.cooldownTime" in
    warning e a ("Подождите еще " +:+ Js.toString remainingTime +:+ " секунд")
  else if negb (isConnected a) then
    error e a "Нет соединения с сервером"
  else
    let data := JObj [("x", Js.prop selectedPixel "x"); ("y", Js.prop selectedPixel "y");
                      ("color", selectedColor)] in
    let a := sendPixelUpdate e a data in
    andThen (handlePixelUpdate a data) (fun a =>
    andThen (startCooldown cfg a) (fun a =>
    andThen (run_store a (set (store a) "canvas.selectedPixel" JNull)) (fun a =>
    success e a "Пиксель размещен!" 2000))).

End Placement.

(** A store on which the placement runs: no middleware, and the state, its
    [canvas], its [user] and its [ui] are objects. *)
Definition isObject (v : JsVal) : Prop :=
  match v with JObj _ => True | _ => False end.

Definition placementStore (s : StateManager.Store) : Prop :=
  StateManager.middleware s = [] /\
  isObject (StateManager.state s) /\
  isObject (Js.prop (StateManager.state s) "canvas") /\
  isObject (Js.prop (StateManager.state s) "user") /\
  isObject (Js.prop (StateManager.state s) "ui").


(** The application once the connection is up, a click on cell [(x, y)],
    and what a run of the handler draws from outside. *)
Definition onlineApp : Placement.App :=
  {| Placement.core := PixelBattleApp.start;
     Placement.isConnected := true;
     Placement.manager :=
       WebSocketManager.with_ws (Some WebSocketManager.OPEN) WebSocketManager.new |}.

Definition selected (a : Placement.App) (x y : Z) : Placement.App :=
  snd (Placement.run_store a
         (StateManager.set (Placement.store a) "canvas.selectedPixel"
            (JObj [("x", JNum x); ("y", JNum y)]))).

Definition placementEnv : Placement.Env :=
  {| Placement.freshId := JNum 1700000000000;
     Placement.sendEnv := calmEnv 1700000000000 0 |}.
(** ** IEEE 754 doubles for the click mapping

    [InputController.screenToCanvas] above divides exact rationals.  The
    JavaScript divides doubles, and [Math.floor] of a rounded quotient can be
    one less or one more than the floor of the exact one, which is a
    different cell.  The mapping from a click to a cell is therefore given
    here on binary64 values, with the correctly rounded operations of
    [SpecFloat]. *)
Module Double.

Definition prec : Z := 53.
Definition emax : Z := 1024.
Definition double : Type := SpecFloat.spec_float.

(** An integer literal or an integer-valued property as a double. *)
Definition ofZ (z : Z) : double := SpecFloat.binary_normalize prec emax z 0 false.

Definition sub (x y : double) : double := SpecFloat.SFsub prec emax x y.
Definition mul (x y : double) : double := SpecFloat.SFmul prec emax x y.
Definition div (x y : double) : double := SpecFloat.SFdiv prec emax x y.

(** The rational a finite double denotes; [None] for [NaN] and the
    infinities. *)
Definition value (x : double) : option Q :=
  match x with
  | SpecFloat.S754_zero _ => Some 0
  | SpecFloat.S754_finite s m e =>
      Some (inject_Z (SpecFloat.cond_Zopp s (Zpos m)) * Qpower 2 e)
  | SpecFloat.S754_infinity _ | SpecFloat.S754_nan => None
  end.

(** The integers that are doubles whatever their size. *)
Definition representable (z : Z) : Prop := (Z.abs z <= 2 ^ 53)%Z.

(** [Math.floor].  The floor of a finite double is a double again, so the
    result is exact.  [None] stands for [NaN] and the infinities, which
    [Math.floor] returns as they are and which then fail a comparison of
    [isValidCanvasPosition] ([Infinity < CANVAS_WIDTH] is false). *)
Definition floor (x : double) : option Z := option_map Qfloor (value x).

(** [canvas.getBoundingClientRect()], of which the mapping reads the origin,
    and the [canvas] entry of the store. *)
Record Rect := { left : double; top : double }.
Record Viewport := { scale : double; offsetX : double; offsetY : double }.

(** [screenToCanvas]: [(screenX - rect.left - offsetX) / (PIXEL_SIZE *
    scale)], left to right, each operation rounded. *)
Definition screenToCanvas (cfg : Config) (rect : Rect) (st : Viewport)
    (screenX screenY : double) : option (Z * Z) :=
  let x := floor (div (sub (sub screenX (left rect)) (offsetX st))
                      (mul (ofZ (PIXEL_SIZE cfg)) (scale st))) in
  let y := floor (div (sub (sub screenY (top rect)) (offsetY st))
                      (mul (ofZ (PIXEL_SIZE cfg)) (scale st))) in
  match x, y with
  | Some x, Some y =>
      if InputController.isValidCanvasPosition cfg (x, y) then Some (x, y) else None
  | _, _ => None
  end.

(** What [handleMouseDown] with the primary button and [handleTouchStart]
    with one touch leave in [canvas.selectedPixel], which held
    [selectedPixel]: [handlePixelSelection] runs when [screenToCanvas] is
    not [null], and [handleDoubleClick] does not write the selection. *)
Definition select (cfg : Config) (rect : Rect) (st : Viewport)
    (selectedPixel : option (Z * Z)) (clientX clientY : double) : option (Z * Z) :=
  match screenToCanvas cfg rect st clientX clientY with
  | Some canvasPos =>
      if InputController.isValidCanvasPosition cfg canvasPos
      then Some canvasPos else selectedPixel
  | None => selectedPixel
  end.

(** The initial viewport below a header of 60 pixels. *)
Definition initialViewport : Viewport :=
  {| scale := ofZ 1; offsetX := ofZ 0; offsetY := ofZ 60 |}.

(** The scale after [zoomAtCenter(1.2)] three times from 1: each product is
    rounded, and neither bound of [zoomAtPoint] is met. *)
Definition scaleAfterThreeSteps : double :=
  let step := div (ofZ 12) (ofZ 10) in
  mul (mul (mul (ofZ 1) step) step) step.

End Double.

(** The world coordinate [screenToCanvas] reads at a client point, before it
    divides by the cell size and takes the floor: the client point is first
    made relative to the canvas element. *)
Definition worldX (pg : InputController.Page) (st : CanvasState) (clientX : Q) : Q :=
  (clientX - InputController.rect_left pg - offsetX st) / scale st.
Definition worldY (pg : InputController.Page) (st : CanvasState) (clientY : Q) : Q :=
  (clientY - InputController.rect_top pg - offsetY st) / scale st.

(** ** The canvas surface and the device pixel ratio *)

(** [updateCanvasSize] when it resizes: [canvas.width] and [canvas.height]
    become [rect.width * dpr] and [rect.height * dpr] (the element keeps
    integers: the fraction is dropped), and the assignment resets the context,
    which [ctx.scale(dpr, dpr)] then scales.  The result is the surface and
    the factor by which the context scales drawing coordinates.  [dpr] is
    [window.devicePixelRatio || 1]; the sides of the rectangle are taken
    non-negative and the products below 2^31, beyond which the element falls
    back to its default size. *)
Definition updateCanvasSize (rect_width rect_height devicePixelRatio : Q)
    : RenderEngine.Surface * Q :=
  let dpr := if Qeq_bool devicePixelRatio 0 then 1 else devicePixelRatio in
  ({| RenderEngine.width := inject_Z (Qfloor (rect_width * dpr));
      RenderEngine.height := inject_Z (Qfloor (rect_height * dpr)) |}, dpr).

(** The square of side [size] at [(x, y)], in drawing coordinates, meets
    what the element shows of the drawing plane when the context scales by
    [ratio]: the drawing point [(u, v)] lands on the bitmap at
    [(u * ratio, v * ratio)], and the bitmap is [canvas.width] by
    [canvas.height]. *)
Definition shown (cv : RenderEngine.Surface) (ratio : Q) (x y size : Q) : Prop :=
  exists u v,
    (x <= u <= x + size) /\ (0 <= u * ratio <= RenderEngine.width cv) /\
    (y <= v <= y + size) /\ (0 <= v * ratio <= RenderEngine.height cv).

(** ** Paths on which the model of property access is exact *)

(** The property names a plain object inherits from [Object.prototype].
    Under such a key [key in current] holds and [current[key]] reads or
    writes the prototype chain, which [Js.prop] and [StateManager.setNested]
    do not model. *)
Definition inherited : list string :=
  ["constructor"; "__defineGetter__"; "__defineSetter__"; "hasOwnProperty";
   "__lookupGetter__"; "__lookupSetter__"; "isPrototypeOf";
   "propertyIsEnumerable"; "toString"; "valueOf"; "__proto__"; "toLocaleString"].

Definition ordinaryKey (key : string) : bool :=
  negb (existsb (String.eqb key) inherited).

(** No key of the path is an inherited name. *)
Definition ordinary (path : string) : bool :=
  forallb ordinaryKey (Js.split_dot path).

(** The walk of [_setNestedValue] along the keys meets no array and no
    [Map], neither on the way nor as the target of the assignment: it goes
    through plain objects, creates them, or stops at a primitive. *)
Fixpoint plainWalk (obj : JsVal) (keys : list string) {struct keys} : bool :=
  match obj with
  | JArr _ | JMap _ => false
  | JObj fields =>
      match keys with
      | [] => true
      | key :: keys' =>
          match keys' with
          | [] => true
          | _ =>
              match Js.getField key fields with
              | Some child => plainWalk child keys'
              | None => true
              end
          end
      end
  | _ => true
  end.

Definition plain (st : JsVal) (path : string) : bool :=
  plainWalk st (Js.split_dot path).

(** * Properties *)

(** ** Arithmetic helpers *)

Lemma Qmin_cases (a b : Q) : (a <= b /\ Qmin a b = a) \/ (b < a /\ Qmin a b = b).
Proof.
  unfold Qmin, GenericMinMax.gmin.
  destruct (Qcompare_spec a b) as [H|H|H]; [left|left|right];
    split; try reflexivity; lra.
Qed.

Lemma Qmax_cases (a b : Q) : (b <= a /\ Qmax a b = a) \/ (a < b /\ Qmax a b = b).
Proof.
  unfold Qmax, GenericMinMax.gmax.
  destruct (Qcompare_spec a b) as [H|H|H]; [left|right|left];
    split; try reflexivity; lra.
Qed.

(** Case analysis on every [Qmin] and [Qmax] in sight; each is replaced by the
    argument it returns. *)
Ltac minmax_cases :=
  repeat match goal with
         | |- context [Qmax ?a ?b] =>
             let H := fresh in let E := fresh in
             destruct (Qmax_cases a b) as [[H E]|[H E]]; rewrite !E in *; clear E
         | |- context [Qmin ?a ?b] =>
             let H := fresh in let E := fresh in
             destruct (Qmin_cases a b) as [[H E]|[H E]]; rewrite !E in *; clear E
         | _ : context [Qmax ?a ?b] |- _ =>
             let H := fresh in let E := fresh in
             destruct (Qmax_cases a b) as [[H E]|[H E]]; rewrite !E in *; clear E
         | _ : context [Qmin ?a ?b] |- _ =>
             let H := fresh in let E := fresh in
             destruct (Qmin_cases a b) as [[H E]|[H E]]; rewrite !E in *; clear E
         end.

Lemma Qgtb_true (a b : Q) : Qgtb a b = true <-> b < a.
Proof. unfold Qgtb. destruct (Qlt_le_dec b a); split; intros; try done; lra. Qed.

Lemma Qgtb_false (a b : Q) : Qgtb a b = false <-> a <= b.
Proof. unfold Qgtb. destruct (Qlt_le_dec b a); split; intros; try done; lra. Qed.

Lemma Qeq_bool_false (a b : Q) : ~ a == b -> Qeq_bool a b = false.
Proof.
  intros H. destruct (Qeq_bool a b) eqn:E; [|reflexivity].
  apply Qeq_bool_eq in E. contradiction.
Qed.

(** ** The viewport: InputController.js *)

Section Viewport.
Import InputController.

Lemma isValidCanvasPosition_spec cfg x y :
  isValidCanvasPosition cfg (x, y) = true <->
  (0 <= x < CANVAS_WIDTH cfg)%Z /\ (0 <= y < CANVAS_HEIGHT cfg)%Z.
Proof. unfold isValidCanvasPosition; simpl. rewrite !andb_true_iff. lia. Qed.

Lemma clampOffsetX_idem logical s final o :
  clampOffsetX logical s final (clampOffsetX logical s final o)
  = clampOffsetX logical s final o.
Proof.
  unfold clampOffsetX. destruct (Qgtb _ _); cbv zeta;
    minmax_cases; try reflexivity; lra.
Qed.

Lemma clampOffsetY_idem logical s final header o :
  clampOffsetY logical s final header (clampOffsetY logical s final header o)
  = clampOffsetY logical s final header o.
Proof.
  unfold clampOffsetY. destruct (Qgtb _ _); cbv zeta;
    minmax_cases; try reflexivity; lra.
Qed.

(** The clamp as an interval, branch by branch. *)
Lemma clampOffsetX_larger logical s final o :
  final < logical * s ->
  final - logical * s <= clampOffsetX logical s final o <= 0.
Proof.
  intros H. unfold clampOffsetX. apply Qgtb_true in H. rewrite H.
  apply Qgtb_true in H. minmax_cases; lra.
Qed.

Lemma clampOffsetX_smaller logical s final o :
  logical * s <= final ->
  - (final - logical * s) <= clampOffsetX logical s final o <= final - logical * s.
Proof.
  intros H. unfold clampOffsetX. apply Qgtb_false in H. rewrite H.
  apply Qgtb_false in H. cbv zeta. minmax_cases; lra.
Qed.

(** What [zoomAtPoint] really guarantees about the scale. *)
Lemma zoomAtPoint_scale_hard_bounds cfg pg st p f :
  1 # 10 <= scale st <= 20 ->
  1 # 10 <= scale (zoomAtPoint cfg pg st p f) <= 20.
Proof.
  intros H. unfold zoomAtPoint.
  destruct (Qeq_bool _ _); simpl; [exact H|]. minmax_cases; lra.
Qed.

Lemma handle_scale_hard_bounds cfg pg st i :
  1 # 10 <= scale st <= 20 ->
  1 # 10 <= scale (handle cfg pg st i) <= 20.
Proof.
  intros H. destruct i; simpl;
    try (apply zoomAtPoint_scale_hard_bounds; exact H);
    try exact H.
  - lra.
  - unfold handleMouseDown. destruct (screenToCanvas _ _ _ _ _); [|exact H].
    unfold handlePixelSelection.
    destruct doubleClick, (isValidCanvasPosition _ _); exact H.
  - unfold handleTouchStart. destruct (screenToCanvas _ _ _ _ _); [|exact H].
    unfold handlePixelSelection. destruct (isValidCanvasPosition _ _); exact H.
Qed.

Lemma run_scale_hard_bounds cfg pg inputs : forall st,
  1 # 10 <= scale st <= 20 ->
  1 # 10 <= scale (run cfg pg st inputs) <= 20.
Proof.
  unfold run. induction inputs as [|i inputs IH]; intros st H; simpl; [exact H|].
  apply IH, handle_scale_hard_bounds, H.
Qed.

End Viewport.

(** C9.  The offset clamp is idempotent on each axis, whichever branch the
    scale and the visible extent select (canvas larger than the visible area,
    or not); hence so is the clamp [moveCanvas], [zoomAtPoint] and the drag
    handlers apply for a given configuration, page and scale. *)
Theorem C9_clamp_idempotent :
  (forall logical s final o,
      InputController.clampOffsetX logical s final
        (InputController.clampOffsetX logical s final o)
      = InputController.clampOffsetX logical s final o) /\
  (forall logical s final header o,
      InputController.clampOffsetY logical s final header
        (InputController.clampOffsetY logical s final header o)
      = InputController.clampOffsetY logical s final header o) /\
  (forall cfg pg s o,
      InputController.clampX cfg pg s (InputController.clampX cfg pg s o)
      = InputController.clampX cfg pg s o /\
      InputController.clampY cfg pg s (InputController.clampY cfg pg s o)
      = InputController.clampY cfg pg s o).
Proof.
  split; [|split].
  - apply clampOffsetX_idem.
  - apply clampOffsetY_idem.
  - intros. split; [apply clampOffsetX_idem | apply clampOffsetY_idem].
Qed.

(** C3.  At the configured bounds the code fails: from the initial scale 1,
    four presses of [Minus] bring [canvas.scale] to 0.4096, below [MIN_SCALE]
    (0.5), and thirteen presses of [Equal] bring it above [MAX_SCALE] (10).
    [zoomAtPoint] clamps to the literals 0.1 and 20 and never reads the
    configuration. *)
Theorem C3_scale_leaves_configured_bounds :
  let low := InputController.run CONFIG desktopPage (initialCanvas 60)
               (repeat InputController.KeyMinus 4) in
  let high := InputController.run CONFIG desktopPage (initialCanvas 60)
                (repeat InputController.KeyEqual 13) in
  scale low == 4096 # 10000 /\ scale low < MIN_SCALE CONFIG /\
  MAX_SCALE CONFIG < scale high /\ scale high <= 20.
Proof. vm_compute. repeat split; discriminate. Qed.

Section ViewportClaims.
Import InputController.

(** The first-generation canvas bounds the grid by the pixel extents divided
    by the cell size: 320 by 80 cells under [CONFIG]. *)
Lemma PixelCanvas_isValidPosition_CONFIG x y :
  PixelCanvas.isValidPosition CONFIG x y = true <->
  (0 <= x < 320)%Z /\ (0 <= y < 80)%Z.
Proof.
  unfold PixelCanvas.isValidPosition, Qgeb, Qltb. simpl.
  rewrite !andb_true_iff, !Qle_bool_iff.
  destruct (Qlt_le_dec (inject_Z x) _) as [Hx|Hx];
    destruct (Qlt_le_dec (inject_Z y) _) as [Hy|Hy];
    unfold Qle, Qlt, Qdiv, Qmult, Qinv in *; simpl in *; split; intros; lia.
Qed.

(** The first-generation zoom does keep the scale within the configured
    bounds: a new scale outside them is refused. *)
Lemma PixelCanvas_zoomTo_scale_bounds cfg st mx my newScale :
  MIN_SCALE cfg <= scale st <= MAX_SCALE cfg ->
  MIN_SCALE cfg <= scale (PixelCanvas.zoomTo cfg st mx my newScale) <= MAX_SCALE cfg.
Proof.
  intros H. unfold PixelCanvas.zoomTo, Qgeb.
  destruct (Qle_bool (MIN_SCALE cfg) newScale && Qle_bool newScale (MAX_SCALE cfg))
    eqn:E; [|exact H].
  apply andb_true_iff in E as [E1 E2]. apply Qle_bool_iff in E1, E2.
  simpl. split; assumption.
Qed.

Lemma PixelCanvas_handleWheel_scale_bounds cfg st x y d :
  MIN_SCALE cfg <= scale st <= MAX_SCALE cfg ->
  MIN_SCALE cfg <= scale (PixelCanvas.handleWheel cfg st x y d) <= MAX_SCALE cfg.
Proof.
  intros H. unfold PixelCanvas.handleWheel.
  apply PixelCanvas_zoomTo_scale_bounds, H.
Qed.

(** The two generations disagree on the extent of the grid: the click that
    maps to cell (500,20) is a selection for the input controller and none
    for the first-generation canvas. *)
Example grid_extent_example :
  let st := {| scale := 1; offsetX := 0; offsetY := 0; selectedPixel := None |} in
  selectedPixel (InputController.handleMouseDown CONFIG originPage st false 2502 101)
    = Some (500, 20)%Z /\
  selectedPixel (PixelCanvas.handleMouseDown CONFIG st 2502 101) = None.
Proof. vm_compute. split; reflexivity. Qed.


Lemma zoom_newScale_pos (s f : Q) : 0 < Qmax (1 # 10) (Qmin 20 (s * f)).
Proof. minmax_cases; lra. Qed.


End ViewportClaims.

(** C1, as stated, fails: with the canvas element below the 60 pixel header
    (bounding rectangle top 60), scale 1 and offset (0,60), the formula of the
    claim maps the click at (100,160) to the valid cell (20,20), while the
    code selects (20,8): [screenToCanvas] first subtracts the origin of the
    canvas's bounding rectangle. *)
Lemma C1_rect_origin_counterexample :
  let st := {| scale := 1; offsetX := 0; offsetY := 60; selectedPixel := None |} in
  let gridX := Qfloor ((100 - offsetX st) / (inject_Z (PIXEL_SIZE CONFIG) * scale st)) in
  let gridY := Qfloor ((160 - offsetY st) / (inject_Z (PIXEL_SIZE CONFIG) * scale st)) in
  (gridX, gridY) = (20, 20)%Z /\
  selectedPixel (InputController.handleMouseDown CONFIG desktopPage st false 100 160)
    = Some (20, 8)%Z /\
  selectedPixel (InputController.handleMouseDown CONFIG desktopPage st false 100 160)
    <> Some (gridX, gridY) /\
  selectedPixel (InputController.handleTouchStart CONFIG desktopPage st 100 160)
    <> Some (gridX, gridY).
Proof. vm_compute. repeat split; discriminate. Qed.

(** [Math.floor] of a finite double is the integer part of its value. *)
Lemma Double_floor_value x g :
  Double.floor x = Some g ->
  exists v, Double.value x = Some v /\ inject_Z g <= v < inject_Z (g + 1).
Proof.
  unfold Double.floor. destruct (Double.value x) as [v|]; [|discriminate].
  intros [= <-]. exists v. split; [reflexivity|].
  split; [apply Qfloor_le|apply Qlt_floor].
Qed.

(** Rounding moves a click to the neighbouring cell.  After three zoom steps
    of 1.2 the scale is a double next to 1.728 and the quotient for the client
    abscissa 1080 is a double just below 125: the code selects column 124,
    where the rational model at scale 1.728 gives 125. *)
Lemma Double_rounding_moves_cell :
  let st := {| Double.scale := Double.scaleAfterThreeSteps;
               Double.offsetX := Double.ofZ 0; Double.offsetY := Double.ofZ 0 |} in
  let rect := {| Double.left := Double.ofZ 0; Double.top := Double.ofZ 0 |} in
  Double.screenToCanvas CONFIG rect st (Double.ofZ 1080) (Double.ofZ 0)
    = Some (124, 0)%Z /\
  InputController.screenToCanvas CONFIG originPage
    {| scale := 1728 # 1000; offsetX := 0; offsetY := 0; selectedPixel := None |}
    1080 0 = Some (125, 0)%Z.
Proof. vm_compute. repeat split; reflexivity. Qed.

(** C1, amended.  Numbers are doubles and every operation is rounded.  For
    every client point (sx, sy), every bounding rectangle of the canvas
    element and every viewport state, with grid extents that are doubles, the
    click and the tap compute
    gridX = floor((sx - rect.left - offsetX) / (PIXEL_SIZE * scale)) and
    gridY = floor((sy - rect.top - offsetY) / (PIXEL_SIZE * scale)) in
    double arithmetic and select that cell exactly when both are finite,
    0 <= gridX < CANVAS_WIDTH and 0 <= gridY < CANVAS_HEIGHT (1600 and 400 as
    configured); otherwise the selection is left as it was.  The floor is the
    integer part of the rounded quotient, which may be a neighbour of the
    floor of the exact one.  With cell size 5, scale 1 and offset (0,60), a
    click at (100,160) selects (20,20) when the canvas is at the window
    origin, and (20,8) when it starts 60 pixels below. *)
Theorem C1_selection_canvas_relative :
  (forall cfg rect st sel sx sy,
     Double.representable (CANVAS_WIDTH cfg) ->
     Double.representable (CANVAS_HEIGHT cfg) ->
     let cell := Double.mul (Double.ofZ (PIXEL_SIZE cfg)) (Double.scale st) in
     let qx := Double.div (Double.sub (Double.sub sx (Double.left rect))
                                      (Double.offsetX st)) cell in
     let qy := Double.div (Double.sub (Double.sub sy (Double.top rect))
                                      (Double.offsetY st)) cell in
     (forall gridX gridY,
        Double.floor qx = Some gridX -> Double.floor qy = Some gridY ->
        (0 <= gridX < CANVAS_WIDTH cfg)%Z /\ (0 <= gridY < CANVAS_HEIGHT cfg)%Z ->
        Double.screenToCanvas cfg rect st sx sy = Some (gridX, gridY) /\
        Double.select cfg rect st sel sx sy = Some (gridX, gridY)) /\
     (~ (exists gridX gridY,
           Double.floor qx = Some gridX /\ Double.floor qy = Some gridY /\
           (0 <= gridX < CANVAS_WIDTH cfg)%Z /\ (0 <= gridY < CANVAS_HEIGHT cfg)%Z) ->
        Double.screenToCanvas cfg rect st sx sy = None /\
        Double.select cfg rect st sel sx sy = sel)) /\
  (forall x g,
     Double.floor x = Some g ->
     exists v, Double.value x = Some v /\ inject_Z g <= v < inject_Z (g + 1)) /\
  CANVAS_WIDTH CONFIG = 1600%Z /\ CANVAS_HEIGHT CONFIG = 400%Z /\
  (forall sel,
     Double.select CONFIG {| Double.left := Double.ofZ 0; Double.top := Double.ofZ 0 |}
       Double.initialViewport sel (Double.ofZ 100) (Double.ofZ 160)
     = Some (20, 20)%Z) /\
  (forall sel,
     Double.select CONFIG {| Double.left := Double.ofZ 0; Double.top := Double.ofZ 60 |}
       Double.initialViewport sel (Double.ofZ 100) (Double.ofZ 160)
     = Some (20, 8)%Z).
Proof.
  split; [|split; [exact Double_floor_value|]].
  - intros cfg rect st sel sx sy _ _ cell qx qy.
    unfold Double.select, Double.screenToCanvas. cbv zeta.
    fold cell. fold qx. fold qy.
    split.
    + intros gridX gridY Hx Hy Hb. rewrite Hx, Hy.
      apply isValidCanvasPosition_spec in Hb. rewrite Hb, Hb. split; reflexivity.
    + intros Hn.
      destruct (Double.floor qx) as [x|]; [|split; reflexivity].
      destruct (Double.floor qy) as [y|]; [|split; reflexivity].
      destruct (InputController.isValidCanvasPosition cfg (x, y)) eqn:Hv;
        [|split; reflexivity].
      exfalso. apply Hn. exists x, y.
      apply isValidCanvasPosition_spec in Hv. tauto.
  - split; [reflexivity|]. split; [reflexivity|].
    split; intros sel; vm_compute; reflexivity.
Qed.

(** Below the header, (100,220) is over cell (20,20) and (100,100) is over
    the header, outside the grid: a selection made before stays. *)
Lemma C1_selection_canvas_relative_witness :
  let rect := {| Double.left := Double.ofZ 0; Double.top := Double.ofZ 60 |} in
  Double.screenToCanvas CONFIG rect Double.initialViewport (Double.ofZ 100) (Double.ofZ 220)
    = Some (20, 20)%Z /\
  Double.select CONFIG rect Double.initialViewport (Some (1, 1)%Z)
    (Double.ofZ 100) (Double.ofZ 100) = Some (1, 1)%Z.
Proof.
  intros rect.
  assert (RW : Double.representable (CANVAS_WIDTH CONFIG))
    by (unfold Double.representable; simpl; lia).
  assert (RH : Double.representable (CANVAS_HEIGHT CONFIG))
    by (unfold Double.representable; simpl; lia).
  split.
  - apply (proj1 (proj1 C1_selection_canvas_relative CONFIG rect Double.initialViewport
                    None (Double.ofZ 100) (Double.ofZ 220) RW RH) 20%Z 20%Z).
    + vm_compute. reflexivity.
    + vm_compute. reflexivity.
    + vm_compute. repeat split; discriminate.
  - apply (proj2 (proj1 C1_selection_canvas_relative CONFIG rect Double.initialViewport
                    (Some (1, 1)%Z) (Double.ofZ 100) (Double.ofZ 100) RW RH)).
    intros (gx & gy & Hx & Hy & _ & Hb).
    vm_compute in Hy. injection Hy as <-. vm_compute in Hb. destruct Hb as [Hb _].
    apply Hb. reflexivity.
Defined.



(** Where the point handed to [zoomAtPoint] is a client point, as in
    [handleWheel] and [handleTouchZoom], and the clamp is idle, the world
    coordinate under that client point shifts by the origin of the canvas
    rectangle times the change of 1 / scale: it stays only if the canvas
    element is at the window origin. *)
Lemma zoomAtPoint_client_point_shift cfg pg st c f :
  0 < scale st ->
  let newScale := Qmax (1 # 10) (Qmin 20 (scale st * f)) in
  ~ newScale == scale st ->
  let st' := InputController.zoomAtPoint cfg pg st c f in
  (offsetX st' == fst c - (fst c - offsetX st) / scale st * newScale ->
   worldX pg st' (fst c) - worldX pg st (fst c)
   == InputController.rect_left pg * (1 / scale st - 1 / newScale)) /\
  (offsetY st' == snd c - (snd c - offsetY st) / scale st * newScale ->
   worldY pg st' (snd c) - worldY pg st (snd c)
   == InputController.rect_top pg * (1 / scale st - 1 / newScale)).
Proof.
  intros Hs newScale Hne st'.
  assert (Hst' : st' = {| scale := newScale;
                          offsetX := offsetX st'; offsetY := offsetY st';
                          selectedPixel := selectedPixel st |}).
  { unfold st', InputController.zoomAtPoint. fold newScale.
    rewrite (Qeq_bool_false _ _ Hne). reflexivity. }
  assert (Hsc : scale st' = newScale) by (rewrite Hst'; reflexivity).
  assert (Hpos : ~ newScale == 0).
  { pose proof (zoom_newScale_pos (scale st) f) as H. fold newScale in H. lra. }
  assert (Hs0 : ~ scale st == 0) by lra.
  unfold worldX, worldY. rewrite Hsc.
  split; intros ->; field; split; assumption.
Qed.

(** The wheel below the header.  On the desktop page the canvas element
    starts 60 pixels below the window top.  A wheel step in (factor 1.1)
    with the cursor at (400,300), from scale 1 and offset (0,0), leaves the
    clamp idle, and the world ordinate under the cursor moves from 240 to
    270/1.1: the point that stays is the one 60 pixels below the cursor. *)
Lemma handleWheel_anchor_below_cursor :
  let st := {| scale := 1; offsetX := 0; offsetY := 0; selectedPixel := None |} in
  let st' := InputController.handleWheel CONFIG desktopPage st 400 300 (-100) in
  scale st' == 11 # 10 /\ offsetX st' == -40 /\ offsetY st' == -30 /\
  offsetY st' == 300 - (300 - offsetY st) / scale st * scale st' /\
  worldX desktopPage st' 400 == worldX desktopPage st 400 /\
  worldY desktopPage st 300 == 240 /\
  ~ worldY desktopPage st' 300 == worldY desktopPage st 300 /\
  worldY desktopPage st' 360 == worldY desktopPage st 360.
Proof. vm_compute. repeat split; discriminate. Qed.



(** ** The store: StateManager.js *)

Section StoreFacts.
Import StateManager.

Lemma getField_setField_eq key v fields :
  Js.getField key (Js.setField key v fields) = Some v.
Proof.
  induction fields as [|[k v'] rest IH]; simpl.
  - rewrite String.eqb_refl. reflexivity.
  - destruct (String.eqb key k) eqn:E; simpl; rewrite E; [reflexivity|exact IH].
Qed.

Lemma getField_setField_ne key key' v fields :
  key <> key' ->
  Js.getField key' (Js.setField key v fields) = Js.getField key' fields.
Proof.
  intros Hne. induction fields as [|[k v'] rest IH]; simpl.
  - destruct (String.eqb key' key) eqn:E; [|reflexivity].
    apply String.eqb_eq in E. congruence.
  - destruct (String.eqb key k) eqn:E; simpl.
    + apply String.eqb_eq in E. subst k.
      destruct (String.eqb key' key) eqn:E'; [|reflexivity].
      apply String.eqb_eq in E'. congruence.
    + destruct (String.eqb key' k); [reflexivity|exact IH].
Qed.

(** Reading back along the keys just written. *)
Lemma setNested_read keys : forall obj lastKey v obj',
  setNested obj keys lastKey v = Some obj' ->
  fold_left Js.prop (keys ++ [lastKey]) obj' = v.
Proof.
  induction keys as [|key keys IH]; intros obj lastKey v obj' H;
    destruct obj; simpl in H; try discriminate.
  - inversion H; subst. simpl. rewrite getField_setField_eq. reflexivity.
  - destruct (setNested _ keys lastKey v) as [child'|] eqn:E; [|discriminate].
    inversion H; subst. simpl. rewrite getField_setField_eq. simpl.
    eapply IH, E.
Qed.

Lemma split_dot_nonempty path : Js.split_dot path <> [].
Proof.
  destruct path as [|c rest]; simpl; [discriminate|].
  destruct (Ascii.eqb c "."); [discriminate|].
  destruct (Js.split_dot rest); discriminate.
Qed.

Lemma _setNestedValue_read obj path v obj' :
  _setNestedValue obj path v = Some obj' ->
  _getNestedValue obj' path = v.
Proof.
  unfold _setNestedValue, _getNestedValue. intros H.
  apply setNested_read in H.
  rewrite <- app_removelast_last in H; [exact H|apply split_dot_nonempty].
Qed.

(** Paths as the store splits them, and the parent paths it then walks. *)
Example split_dot_example :
  Js.split_dot "user.cooldownTime" = ["user"; "cooldownTime"] /\
  parentPaths "ui.contextMenu.visible" = ["ui.contextMenu"; "ui"] /\
  parentPaths "user" = [].
Proof. repeat split; reflexivity. Qed.

(** A loop whose body is wrapped in [try]/[catch] runs to its end. *)
Lemma forEach_tryCatch {A B : Type} (f : A -> list B * Outcome) (xs : list A) :
  forEach (fun x => tryCatch (f x)) xs = (flat_map (fun x => fst (f x)) xs, Returns).
Proof.
  induction xs as [|x xs IH]; simpl; [reflexivity|]. rewrite IH. reflexivity.
Qed.

Lemma callAll_returns st cbs value oldValue path :
  callAll st cbs value oldValue path
  = (flat_map (fun cb => fst (invoke st value oldValue path cb)) cbs, Returns).
Proof. apply forEach_tryCatch. Qed.

Lemma callAll_ids st cbs value oldValue path :
  map call_cb (fst (callAll st cbs value oldValue path)) = map cb_id cbs.
Proof.
  rewrite callAll_returns. simpl.
  induction cbs as [|cb cbs IH]; simpl; [reflexivity|]. rewrite IH. reflexivity.
Qed.

(** Whatever the callbacks do, [_notifySubscribers] returns. *)
Lemma _notifySubscribers_returns s path value oldValue :
  snd (_notifySubscribers s path value oldValue) = Returns.
Proof.
  unfold _notifySubscribers. rewrite callAll_returns.
  induction (parentPaths path) as [|p ps IH]; simpl; [reflexivity|].
  rewrite callAll_returns.
  destruct (forEach _ ps) as [logs o]. simpl in *. exact IH.
Qed.

(** And it has called each of them. *)
Lemma _notifySubscribers_ids s path value oldValue :
  map call_cb (fst (_notifySubscribers s path value oldValue)) = notified s path.
Proof.
  unfold _notifySubscribers, notified.
  pose proof (callAll_ids (state s) (subscribersAt s path) value oldValue path) as H0.
  rewrite callAll_returns in *. simpl in H0.
  assert (Hp : map call_cb
                 (fst (forEach (fun parentPath =>
                                  callAll (state s) (subscribersAt s parentPath)
                                          (get s parentPath) JNull parentPath)
                               (parentPaths path)))
               = flat_map (fun parentPath => map cb_id (subscribersAt s parentPath))
                          (parentPaths path)).
  { induction (parentPaths path) as [|p ps IH]; simpl; [reflexivity|].
    pose proof (callAll_ids (state s) (subscribersAt s p) (get s p) JNull p) as Hc.
    rewrite callAll_returns in *. simpl in Hc.
    destruct (forEach _ ps) as [logs o]. simpl in *.
    rewrite map_app, Hc, IH. reflexivity. }
  destruct (forEach _ (parentPaths path)) as [logs o]. simpl in *.
  rewrite map_app, H0, Hp. reflexivity.
Qed.

Lemma notified_subscribers s s' path :
  subscribers s' = subscribers s -> notified s' path = notified s path.
Proof. intros H. unfold notified, subscribersAt. rewrite H. reflexivity. Qed.

Lemma writeAll_frame updates : forall s s' changes,
  writeAll s updates = (Normal, s', changes) ->
  subscribers s' = subscribers s /\ middleware s' = middleware s /\
  map ch_path changes = map fst updates.
Proof.
  induction updates as [|[path value] rest IH]; intros s s' changes H; simpl in H.
  - inversion H; subst. auto.
  - destruct (_setNestedValue (state s) path value) as [st'|] eqn:E; [|discriminate].
    destruct (writeAll (with_state s st') rest) as [[c s1] chs] eqn:W.
    inversion H; subst.
    apply IH in W as (H1 & H2 & H3). simpl in *. rewrite H1, H2, H3. auto.
Qed.

Lemma writeAll_last updates : forall s s' changes path value,
  writeAll s (updates ++ [(path, value)]) = (Normal, s', changes) ->
  get s' path = value.
Proof.
  induction updates as [|[p v] rest IH]; intros s s' changes path value H; simpl in H.
  - destruct (_setNestedValue (state s) path value) as [st'|] eqn:E; [|discriminate].
    inversion H; subst. apply _setNestedValue_read in E. exact E.
  - destruct (_setNestedValue (state s) p v) as [st'|] eqn:E; [|discriminate].
    destruct (writeAll (with_state s st') (rest ++ [(path, value)]))
      as [[c s1] chs] eqn:W.
    inversion H; subst. eapply IH, W.
Qed.

(** A middleware that throws is not contained: the exception leaves [set]
    with the value written and no subscriber called. *)
Lemma set_middleware_throws s path value st' :
  _setNestedValue (state s) path value = Some st' ->
  runMiddleware (with_state s st') path value (get s path) = Throws ->
  set s path value = (Abrupt, with_state s st', []).
Proof. intros Hset Hmw. unfold set. rewrite Hset, Hmw. reflexivity. Qed.

(** A write through a primitive raises before anything is stored. *)
Lemma set_type_error s path value :
  _setNestedValue (state s) path value = None ->
  set s path value = (Abrupt, s, []).
Proof. intros Hset. unfold set. rewrite Hset. reflexivity. Qed.

Example set_through_primitive :
  set StateManager.new "canvas.scale.step" (JNum 1)
  = (Abrupt, StateManager.new, []).
Proof. reflexivity. Qed.

End StoreFacts.

(** C10.  When the write itself succeeds and no middleware throws, [set]
    completes normally whatever its subscribers do: the value is in the state
    and every subscriber of the path, then of each parent path, has been
    called, a thrown exception ending only the call that raised it.  The same
    holds for [batchUpdate]: all writes are in the state and, change by
    change, every subscriber has been called. *)
Theorem C10_subscriber_exceptions_contained :
  (forall s path value st',
     StateManager._setNestedValue (StateManager.state s) path value = Some st' ->
     StateManager.runMiddleware (StateManager.with_state s st') path value
       (StateManager.get s path) = StateManager.Returns ->
     exists calls,
       StateManager.set s path value
         = (StateManager.Normal, StateManager.with_state s st', calls) /\
       StateManager.get (StateManager.with_state s st') path = value /\
       map StateManager.call_cb calls = StateManager.notified s path) /\
  (forall s updates s' changes,
     StateManager.writeAll s updates = (StateManager.Normal, s', changes) ->
     StateManager.middlewareOnChanges s' changes = StateManager.Returns ->
     exists calls,
       StateManager.batchUpdate s updates = (StateManager.Normal, s', calls) /\
       (forall before path value,
           updates = before ++ [(path, value)] -> StateManager.get s' path = value) /\
       map StateManager.call_cb calls
         = flat_map (fun u => StateManager.notified s (fst u)) updates).
Proof.
  split.
  - intros s path value st' Hset Hmw.
    exists (fst (StateManager._notifySubscribers (StateManager.with_state s st')
                   path value (StateManager.get s path))).
    split; [|split].
    + unfold StateManager.set. rewrite Hset, Hmw.
      pose proof (_notifySubscribers_returns (StateManager.with_state s st')
                    path value (StateManager.get s path)) as Hr.
      destruct (StateManager._notifySubscribers _ _ _ _) as [calls o].
      simpl in *. rewrite Hr. reflexivity.
    + unfold StateManager.get. simpl. eapply _setNestedValue_read, Hset.
    + rewrite _notifySubscribers_ids. apply notified_subscribers. reflexivity.
  - intros s updates s' changes Hw Hmw.
    assert (Hloop : forall chs,
      StateManager.forEach
        (fun ch => StateManager._notifySubscribers s' (StateManager.ch_path ch)
                     (StateManager.ch_value ch) (StateManager.ch_oldValue ch)) chs
      = (flat_map (fun ch => fst (StateManager._notifySubscribers s'
                                    (StateManager.ch_path ch) (StateManager.ch_value ch)
                                    (StateManager.ch_oldValue ch))) chs,
         StateManager.Returns)).
    { induction chs as [|ch chs IH]; simpl; [reflexivity|].
      pose proof (_notifySubscribers_returns s' (StateManager.ch_path ch)
                    (StateManager.ch_value ch) (StateManager.ch_oldValue ch)) as Hr.
      destruct (StateManager._notifySubscribers _ _ _ _) as [log o].
      simpl in *. rewrite Hr, IH. reflexivity. }
    eexists. split; [|split].
    + unfold StateManager.batchUpdate. rewrite Hw, Hmw, Hloop. reflexivity.
    + intros before path value ->. eapply writeAll_last, Hw.
    + apply writeAll_frame in Hw as (Hs & _ & Hp).
      revert Hp. generalize updates. clear Hmw Hloop.
      induction changes as [|ch chs IH]; intros [|u us] Hp; simpl in Hp;
        try discriminate; simpl; [reflexivity|].
      inversion Hp as [[Hp1 Hp2]].
      rewrite map_app, _notifySubscribers_ids, (notified_subscribers _ _ _ Hs), Hp1.
      f_equal. apply IH, Hp2.
Qed.

(** With a subscriber that throws placed first: the write stays, and the two
    subscribers after it are still called, by [set] and by [batchUpdate]. *)
Lemma C10_subscriber_exceptions_contained_witness :
  (exists s' calls,
     StateManager.set guardedStore "user.cooldownTime" (JNum 5)
       = (StateManager.Normal, s', calls) /\
     StateManager.get s' "user.cooldownTime" = JNum 5 /\
     map StateManager.call_cb calls = [7; 8; 9]%nat /\
     map StateManager.call_outcome calls
       = [StateManager.Throws; StateManager.Returns; StateManager.Returns]) /\
  (exists s' calls,
     StateManager.batchUpdate guardedStore
         [("user.isCooldown", JBool true); ("user.cooldownTime", JNum 5)]
       = (StateManager.Normal, s', calls) /\
     StateManager.get s' "user.cooldownTime" = JNum 5 /\
     map StateManager.call_cb calls = [9; 7; 8; 9]%nat).
Proof.
  split.
  - destruct (StateManager._setNestedValue (StateManager.state guardedStore)
                "user.cooldownTime" (JNum 5))
      as [st'|] eqn:Hset; [|vm_compute in Hset; discriminate].
    assert (Hmw : StateManager.runMiddleware (StateManager.with_state guardedStore st')
                    "user.cooldownTime" (JNum 5)
                    (StateManager.get guardedStore "user.cooldownTime")
                  = StateManager.Returns)
      by reflexivity.
    destruct (proj1 C10_subscriber_exceptions_contained
                guardedStore "user.cooldownTime" (JNum 5) st' Hset Hmw)
      as (calls & Hrun & Hget & Hids).
    exists (StateManager.with_state guardedStore st'), calls.
    split; [exact Hrun|]. split; [exact Hget|]. split.
    + rewrite Hids. vm_compute. reflexivity.
    + unfold StateManager.set in Hrun. rewrite Hset, Hmw in Hrun.
      vm_compute in Hrun. inversion Hrun as [Hc]. reflexivity.
  - destruct (StateManager.writeAll guardedStore
                [("user.isCooldown", JBool true); ("user.cooldownTime", JNum 5)])
      as [[c s'] changes] eqn:Hw.
    assert (Hc : c = StateManager.Normal)
      by (vm_compute in Hw; inversion Hw; reflexivity).
    subst c.
    assert (Hmw : StateManager.middlewareOnChanges s' changes = StateManager.Returns)
      by (vm_compute in Hw; inversion Hw; reflexivity).
    destruct (proj2 C10_subscriber_exceptions_contained guardedStore _ s' changes Hw Hmw)
      as (calls & Hrun & Hget & Hids).
    exists s', calls.
    split; [exact Hrun|]. split; [|rewrite Hids; vm_compute; reflexivity].
    apply (Hget [("user.isCooldown", JBool true)]). reflexivity.
Defined.

(** ** The cooldown: app.js *)

Section Cooldown.
Import StateManager PixelBattleApp.

Lemma fold_prop_undefined keys : fold_left Js.prop keys JUndefined = JUndefined.
Proof. induction keys as [|k ks IH]; simpl; [reflexivity|exact IH]. Qed.

Lemma fold_prop_fresh keys :
  keys <> [] -> fold_left Js.prop keys (JObj []) = JUndefined.
Proof. destruct keys as [|k ks]; [congruence|]. intros _. simpl. apply fold_prop_undefined. Qed.

(** Writing one field leaves its siblings as they were. *)
Lemma setNested_sibling keys : forall obj lastKey lastKey' v obj',
  setNested obj keys lastKey v = Some obj' ->
  lastKey <> lastKey' ->
  fold_left Js.prop (keys ++ [lastKey']) obj' = fold_left Js.prop (keys ++ [lastKey']) obj.
Proof.
  induction keys as [|key keys IH]; intros obj lastKey lastKey' v obj' H Hne;
    destruct obj; simpl in H; try discriminate.
  - inversion H; subst. simpl. rewrite getField_setField_ne by exact Hne. reflexivity.
  - destruct (setNested _ keys lastKey v) as [child'|] eqn:E; [|discriminate].
    inversion H; subst. simpl. rewrite getField_setField_eq. simpl.
    rewrite (IH _ _ _ _ _ E Hne).
    destruct (Js.getField key fields); simpl; [reflexivity|].
    rewrite fold_prop_fresh, fold_prop_undefined; [reflexivity|].
    destruct keys; discriminate.
Qed.

Lemma cooldownTime_keeps_isCooldown obj v obj' :
  _setNestedValue obj "user.cooldownTime" v = Some obj' ->
  _getNestedValue obj' "user.isCooldown" = _getNestedValue obj "user.isCooldown".
Proof.
  intros H. unfold _setNestedValue in H. simpl in H.
  apply (setNested_sibling ["user"] obj "cooldownTime" "isCooldown" v obj' H).
  discriminate.
Qed.

(** The part of the claim that holds: a tick that reaches zero ends, in the
    same run, with the cooldown off and the interval cleared. *)
Lemma tick_ends_cooldown a a' :
  interval a = true ->
  Js.le0 (Js.sub1 (get (appState a) "user.cooldownTime")) = true ->
  tick a = (Normal, a') ->
  cooldownPair (state (appState a')) = (JBool false, JNum 0) /\ interval a' = false.
Proof.
  intros Hi Hz Ht. unfold tick in Ht. rewrite Hi, Hz in Ht.
  destruct (set (appState a) "user.cooldownTime" _) as [[c s1] cs1] eqn:Es.
  unfold seq_store in Ht at 1. destruct c; [|discriminate].
  unfold endCooldown, seq_store in Ht. simpl in Ht.
  destruct (batchUpdate s1 _) as [[c2 s2] cs2] eqn:Eb.
  inversion Ht; subst. simpl. split; [|reflexivity].
  unfold batchUpdate in Eb.
  destruct (writeAll s1 _) as [[cw sw] chs] eqn:Ew.
  destruct cw; [|inversion Eb].
  assert (sw = s2) as ->.
  { destruct (middlewareOnChanges sw chs); [|inversion Eb].
    destruct (forEach _ chs). inversion Eb; reflexivity. }
  clear Eb. simpl in Ew.
  destruct (_setNestedValue (state s1) "user.isCooldown" (JBool false)) as [st1|] eqn:E1;
    [|discriminate].
  simpl in Ew.
  destruct (_setNestedValue st1 "user.cooldownTime" (JNum 0)) as [st2|] eqn:E2;
    [|discriminate].
  inversion Ew; subst. simpl. unfold cooldownPair. f_equal.
  - rewrite (cooldownTime_keeps_isCooldown _ _ _ E2).
    eapply _setNestedValue_read, E1.
  - eapply _setNestedValue_read, E2.
Qed.

(** The defect in general: whenever the count stands at one with the cooldown
    on, the tick calls the first subscriber of [user.cooldownTime] with the
    store reading (true, 0). *)
Lemma tick_exposes_zero_while_cooling a a' cb cbs :
  interval a = true ->
  cooldownPair (state (appState a)) = (JBool true, JNum 1) ->
  subscribers (appState a) !! "user.cooldownTime" = Some (cb :: cbs) ->
  tick a = (Normal, a') ->
  exists call later,
    calls a' = calls a ++ call :: later /\
    call_cb call = cb_id cb /\
    cooldownPair (call_state call) = (JBool true, JNum 0).
Proof.
  intros Hi Hp Hs Ht. unfold cooldownPair in Hp. injection Hp as Hp1 Hp2.
  assert (Hc : Js.sub1 (get (appState a) "user.cooldownTime") = JNum 0)
    by (unfold get; rewrite Hp2; reflexivity).
  unfold tick in Ht. rewrite Hi, Hc in Ht. simpl Js.le0 in Ht.
  unfold set in Ht.
  destruct (_setNestedValue (state (appState a)) "user.cooldownTime" (JNum 0))
    as [st1|] eqn:E1; [|simpl in Ht; discriminate].
  destruct (runMiddleware _ _ _ _); [|simpl in Ht; discriminate].
  unfold _notifySubscribers in Ht.
  unfold subscribersAt at 1 in Ht. simpl subscribers in Ht. rewrite Hs in Ht.
  simpl default in Ht. rewrite callAll_returns in Ht.
  destruct (forEach _ (parentPaths "user.cooldownTime")) as [logs o] eqn:El.
  simpl in Ht. destruct o; [|simpl in Ht; discriminate].
  simpl in Ht.
  unfold endCooldown, seq_store in Ht. simpl in Ht.
  destruct (batchUpdate _ _) as [[c2 s2] cs2].
  injection Ht as _ <-. simpl.
  eexists. eexists. split.
  - rewrite <- app_assoc. simpl. reflexivity.
  - simpl. split; [reflexivity|]. unfold cooldownPair. f_equal.
    + rewrite (cooldownTime_keeps_isCooldown _ _ _ E1). exact Hp1.
    + eapply _setNestedValue_read, E1.
Qed.
End Cooldown.

(** C2.  The code at the failing input: the configured 60 second cooldown,
    59 ticks done, the last tick running.  The tick first writes
    [user.cooldownTime = 0] on its own, and [set] notifies the subscriber of
    that path at once: it is called with the store holding
    [isCooldown = true] and [cooldownTime = 0].  Only then does [endCooldown]
    write [isCooldown = false]; the tick ends with (false, 0). *)
Theorem C2_zero_cooldown_observed_while_cooling :
  let a59 := PixelBattleApp.ticks 59
               (snd (PixelBattleApp.startCooldown CONFIG PixelBattleApp.start)) in
  let a60 := snd (PixelBattleApp.tick a59) in
  PixelBattleApp.cooldownPair (StateManager.state (PixelBattleApp.appState a59))
    = (JBool true, JNum 1) /\
  fst (PixelBattleApp.tick a59) = StateManager.Normal /\
  map (fun c => (StateManager.call_cb c, StateManager.call_path c,
                 PixelBattleApp.cooldownPair (StateManager.call_state c)))
      (drop (length (PixelBattleApp.calls a59)) (PixelBattleApp.calls a60))
    = [(1%nat, "user.cooldownTime", (JBool true, JNum 0));
       (2%nat, "user.isCooldown", (JBool false, JNum 0));
       (1%nat, "user.cooldownTime", (JBool false, JNum 0))] /\
  PixelBattleApp.cooldownPair (StateManager.state (PixelBattleApp.appState a60))
    = (JBool false, JNum 0) /\
  PixelBattleApp.interval a60 = false.
Proof. vm_compute. repeat split; reflexivity. Qed.

(** ** Pixel updates: WebSocketManager.js against websocket.js *)

Section PixelUpdates.
Import WebSocketManager.

(** A [pixel_update] frame writes exactly one key, built from [message.x] and
    [message.y]. *)
Lemma handleMessage_pixel_update e m message :
  Js.prop message "type" = JStr "pixel_update" ->
  canvas_pixels (appState (handleMessage e m (Some message)))
  = <[pixelKey (Js.prop message "x") (Js.prop message "y") := Js.prop message "color"]>
      (canvas_pixels (appState m)).
Proof.
  intros Ht. unfold handleMessage, dispatch.
  destruct message; try discriminate. rewrite Ht. reflexivity.
Qed.

(** Whatever the [updates] list holds, the manager never looks at it. *)
Lemma handleMessage_batched_update e m updates :
  canvas_pixels (appState (handleMessage e m (Some (batchedUpdate updates))))
  = <["undefined,undefined" := JUndefined]> (canvas_pixels (appState m)).
Proof. rewrite handleMessage_pixel_update by reflexivity. reflexivity. Qed.

(** The first-generation receiver does what the wire protocol says: a batch
    has the effect of its entries received one by one, in list order. *)
Lemma LegacyWebSocket_batch_as_singles (l : list (Z * Z * string)) : forall pixels,
  LegacyWebSocket.onPixelUpdate pixels
    (batchedUpdate (map (fun t => update (fst (fst t)) (snd (fst t)) (snd t)) l))
  = (StateManager.Normal,
     fold_left (fun px t =>
                  snd (LegacyWebSocket.onPixelUpdate px
                         (singleUpdate (fst (fst t)) (snd (fst t)) (snd t))))
               l pixels).
Proof.
  unfold LegacyWebSocket.onPixelUpdate, batchedUpdate. simpl.
  induction l as [|[[x y] c] l IH]; intros pixels; simpl; [reflexivity|].
  rewrite IH. reflexivity.
Qed.

End PixelUpdates.

(** C8.  The code at the failing input, the batch
    [{type: "pixel_update", updates: [{1,2,"#FF0000"}, {3,4,"#00FF00"}]}]
    received on a fresh manager: the pixel map gets the single key
    ["undefined,undefined"] and neither listed cell, whereas the two changes
    received one by one set both cells, and so does the batch in the
    first-generation receiver of [websocket.js]. *)
Theorem C8_batched_update_not_applied :
  let e := calmEnv 0 0 in
  let batched :=
    WebSocketManager.handleMessage e WebSocketManager.new
      (Some (batchedUpdate twoUpdates)) in
  let singles :=
    WebSocketManager.handleMessage e
      (WebSocketManager.handleMessage e WebSocketManager.new
         (Some (singleUpdate 1 2 "#FF0000")))
      (Some (singleUpdate 3 4 "#00FF00")) in
  let pixels m := WebSocketManager.canvas_pixels (WebSocketManager.appState m) in
  pixels singles = <["3,4" := JStr "#00FF00"]> (<["1,2" := JStr "#FF0000"]> ∅) /\
  pixels batched = <["undefined,undefined" := JUndefined]> ∅ /\
  pixels batched !! "1,2" = None /\
  pixels batched !! "3,4" = None /\
  LegacyWebSocket.onPixelUpdate ∅ (batchedUpdate twoUpdates)
    = (StateManager.Normal, pixels singles).
Proof.
  intros e batched singles pixels.
  assert (Hs : pixels singles
               = <["3,4" := JStr "#00FF00"]> (<["1,2" := JStr "#FF0000"]> ∅)).
  { unfold pixels, singles. rewrite !handleMessage_pixel_update by reflexivity.
    reflexivity. }
  assert (Hb : pixels batched = <["undefined,undefined" := JUndefined]> ∅).
  { unfold pixels, batched. rewrite handleMessage_batched_update. reflexivity. }
  split; [exact Hs|]. split; [exact Hb|]. rewrite Hb, Hs.
  split; [|split].
  - rewrite lookup_insert_ne by discriminate. apply lookup_empty.
  - rewrite lookup_insert_ne by discriminate. apply lookup_empty.
  - reflexivity.
Qed.

(** ** The session: WebSocketManager.js *)

Section Session.
Import WebSocketManager.

Lemma baseDelay_le_cap cfg n : baseDelay cfg n <= maxReconnectInterval cfg.
Proof. unfold baseDelay. minmax_cases; lra. Qed.

Lemma baseDelay_nonneg cfg n :
  0 <= reconnectInterval cfg -> 0 <= maxReconnectInterval cfg -> 0 <= baseDelay cfg n.
Proof.
  intros Hi Hc. unfold baseDelay.
  assert (Hp : 0 <= 2 ^ (n - 1)) by (apply Qpower_0_le; lra).
  minmax_cases; nra.
Qed.

Lemma baseDelay_mono cfg k n :
  0 <= reconnectInterval cfg -> (k <= n)%Z -> baseDelay cfg k <= baseDelay cfg n.
Proof.
  intros Hi Hkn. unfold baseDelay.
  assert (Hp : 2 ^ (k - 1) <= 2 ^ (n - 1)) by (apply Qpower_le_compat_l; [lia|lra]).
  minmax_cases; nra.
Qed.

Lemma send_core e m message q : core (snd (send e m message q)) = core m.
Proof.
  unfold send, enqueue.
  destruct (isOpen m), (sendThrows e message), q; reflexivity.
Qed.





Lemma flush_open e : forall messages m,
  isOpen m = true ->
  fold_left (fun m' message => snd (send e m' message false)) messages m
  = with_wire (wire m ++ filter (fun x => negb (sendThrows e x)) messages) m.
Proof.
  induction messages as [|x xs IH]; intros m Ho; simpl.
  - rewrite app_nil_r. destruct m; reflexivity.
  - unfold send at 2. rewrite Ho. destruct (sendThrows e x) eqn:T; simpl.
    + rewrite IH by exact Ho. rewrite filter_cons_False by (rewrite T; simpl; auto).
      reflexivity.
    + rewrite IH by exact Ho. rewrite filter_cons_True by (rewrite T; simpl; auto).
      simpl. rewrite <- app_assoc. reflexivity.
Qed.

Lemma flushMessageQueue_open e m :
  isOpen m = true ->
  flushMessageQueue e m
  = with_wire (wire m ++ filter (fun x => negb (sendThrows e x)) (messageQueue m))
      (with_messageQueue [] m).
Proof.
  intros Ho. unfold flushMessageQueue.
  destruct (messageQueue m) as [|x xs] eqn:Q.
  - simpl. rewrite app_nil_r. destruct m; simpl in *; subst; reflexivity.
  - rewrite flush_open by exact Ho. reflexivity.
Qed.

Lemma flushMessageQueue_core e m : core (flushMessageQueue e m) = core m.
Proof.
  unfold flushMessageQueue. destruct (messageQueue m) as [|x xs]; [reflexivity|].
  generalize (x :: xs). intros l.
  change (core m) with (core (with_messageQueue [] m)).
  generalize (with_messageQueue [] m). induction l as [|y ys IH]; intros m0; simpl.
  - reflexivity.
  - rewrite IH. apply send_core.
Qed.

Lemma filter_all_true {A} (f : A -> bool) (l : list A) :
  (forall x, x ∈ l -> f x = true) -> filter f l = l.
Proof.
  induction l as [|x xs IH]; intros H; [reflexivity|].
  rewrite filter_cons_True.
  - f_equal. apply IH. intros y Hy. apply H. right. exact Hy.
  - rewrite H; [simpl; auto|left].
Qed.

Lemma sends_closed cfg (queued : list (Env * JsVal)) : forall m,
  isOpen m = false ->
  run cfg m (map (fun q => (fst q, Send (snd q) true)) queued)
  = with_messageQueue (messageQueue m ++ map snd queued) m.
Proof.
  unfold run. induction queued as [|[e x] qs IH]; intros m Ho; simpl.
  - rewrite app_nil_r. destruct m; reflexivity.
  - unfold send. rewrite Ho. simpl. rewrite IH by exact Ho. simpl.
    rewrite <- app_assoc. reflexivity.
Qed.










End Session.

Section SessionClaims.
Import WebSocketManager.

(** C4.  For every attempt number n from 1 to the configured maximum, with a
    non-negative base interval and cap and a random draw in [0,1), the
    timeout [scheduleReconnect] arms is min(base * 2^(n-1), cap) plus a jitter
    that lies between 0 and 10% of that base delay, so it is only ever added;
    the base delay never exceeds the cap and is non-decreasing in n. *)
Theorem C4_backoff_delay :
  forall cfg e m n,
    0 <= reconnectInterval cfg -> 0 <= maxReconnectInterval cfg ->
    (1 <= n <= maxReconnectAttempts cfg)%Z ->
    reconnectAttempts m = (n - 1)%Z ->
    0 <= random e < 1 ->
    let base := Qmin (reconnectInterval cfg * 2 ^ (n - 1)) (maxReconnectInterval cfg) in
    let jitter := base * (1 # 10) * random e in
    reconnectAttempts (scheduleReconnect cfg e m) = n /\
    reconnectTimers (scheduleReconnect cfg e m) = reconnectTimers m ++ [base + jitter] /\
    0 <= jitter <= (1 # 10) * base /\
    base <= base + jitter /\
    base <= maxReconnectInterval cfg /\
    (forall k, (1 <= k <= n)%Z -> baseDelay cfg k <= baseDelay cfg n).
Proof.
  intros cfg e m n Hi Hc [Hn1 Hn2] Hm [Hr0 Hr1] base jitter.
  assert (Hb : base = baseDelay cfg n) by reflexivity.
  assert (Hb0 : 0 <= base) by (rewrite Hb; apply baseDelay_nonneg; assumption).
  assert (Hj : 0 <= jitter <= (1 # 10) * base) by (unfold jitter; split; nra).
  unfold scheduleReconnect. rewrite Hm.
  destruct (maxReconnectAttempts cfg <=? n - 1)%Z eqn:E; [apply Z.leb_le in E; lia|].
  simpl. replace (n - 1 + 1)%Z with n by lia.
  repeat split; try reflexivity; try lra.
  - rewrite Hb. apply baseDelay_le_cap.
  - intros k [_ Hk]. apply baseDelay_mono; assumption.
Qed.

(** The sixth attempt under the shipped settings, with a random draw of 1/2:
    the base delay is capped at 30000 and the jitter is 1500. *)
Lemma C4_backoff_delay_witness :
  let m := with_reconnectAttempts 5 WebSocketManager.new in
  let e := calmEnv 0 (1 # 2) in
  (0 <= reconnectInterval config) /\ (0 <= maxReconnectInterval config) /\
  (1 <= 6 <= maxReconnectAttempts config)%Z /\
  reconnectAttempts m = (6 - 1)%Z /\
  (0 <= random e < 1) /\
  (exists d, reconnectTimers (scheduleReconnect config e m) = [d] /\ d == 31500) /\
  baseDelay config 6 == 30000 /\ baseDelay config 5 == 16000.
Proof.
  intros m e.
  assert (H1 : 0 <= reconnectInterval config) by (vm_compute; discriminate).
  assert (H2 : 0 <= maxReconnectInterval config) by (vm_compute; discriminate).
  assert (H3 : (1 <= 6 <= maxReconnectAttempts config)%Z) by (simpl; lia).
  assert (H4 : reconnectAttempts m = (6 - 1)%Z) by reflexivity.
  assert (H5 : 0 <= random e < 1) by (split; vm_compute; [discriminate|reflexivity]).
  destruct (C4_backoff_delay config e m 6%Z H1 H2 H3 H4 H5) as (_ & Ht & _).
  split; [exact H1|]. split; [exact H2|]. split; [exact H3|].
  split; [exact H4|]. split; [exact H5|].
  split; [|split; reflexivity].
  eexists. split; [exact Ht|]. reflexivity.
Defined.




(** C6.  While the socket is not open, every [send] with queueing on appends
    its message to the queue, in call order, and hands nothing to the
    transport.  When the socket opens, the queue is flushed oldest first with
    non-queueing sends: the transport receives, once each and in queue order,
    the messages on which [ws.send] does not throw, all of them when it never
    throws; a failed one is not put back, and the queue is empty afterwards. *)
Theorem C6_queue_fifo_flush :
  (forall cfg m (queued : list (Env * JsVal)),
     isOpen m = false ->
     let m1 := run cfg m (map (fun q => (fst q, Send (snd q) true)) queued) in
     messageQueue m1 = messageQueue m ++ map snd queued /\
     wire m1 = wire m /\ ws m1 = ws m) /\
  (forall cfg m e,
     ws m = Some CONNECTING ->
     let m2 := step cfg m (e, SocketOpen) in
     isOpen m2 = true /\
     messageQueue m2 = [] /\
     wire m2 = wire m ++ filter (fun x => negb (sendThrows e x)) (messageQueue m) /\
     ((forall x, x ∈ messageQueue m -> sendThrows e x = false) ->
        wire m2 = wire m ++ messageQueue m)).
Proof.
  split.
  - intros cfg m queued Ho m1. unfold m1. rewrite sends_closed by exact Ho.
    repeat split; reflexivity.
  - intros cfg m e Hws m2.
    assert (E : m2 = handleOpen e (with_ws (Some OPEN) m))
      by (unfold m2; simpl; rewrite Hws; reflexivity).
    rewrite E. unfold handleOpen.
    rewrite flushMessageQueue_open by reflexivity. simpl.
    repeat split; try reflexivity.
    intros Hok. f_equal. apply filter_all_true.
    intros x Hx. rewrite Hok by exact Hx. reflexivity.
Qed.



(** Two placements queued while connecting reach the wire in order once the
    socket opens; when [ws.send] throws on the first, only the second reaches
    the wire and the queue is empty all the same. *)
Lemma C6_queue_fifo_flush_witness :
  let m := with_ws (Some CONNECTING) WebSocketManager.new in
  let m1 := run config m (map (fun q => (fst q, Send (snd q) true)) placements) in
  let m2 := step config m1 (calmEnv 2 0, SocketOpen) in
  let m2' := step config m1 (flakyEnv, SocketOpen) in
  isOpen m = false /\ ws m1 = Some CONNECTING /\
  messageQueue m1 = [singleUpdate 1 2 "#FF0000"; singleUpdate 3 4 "#00FF00"] /\
  wire m1 = [] /\
  messageQueue m2 = [] /\
  wire m2 = [singleUpdate 1 2 "#FF0000"; singleUpdate 3 4 "#00FF00"] /\
  messageQueue m2' = [] /\
  wire m2' = [singleUpdate 3 4 "#00FF00"].
Proof.
  intros m m1 m2 m2'.
  assert (Ho : isOpen m = false) by reflexivity.
  destruct (proj1 C6_queue_fifo_flush config m placements Ho) as (Hq & Hw & Hws).
  fold m1 in Hq, Hw, Hws.
  assert (Hc : ws m1 = Some CONNECTING) by (rewrite Hws; reflexivity).
  destruct (proj2 C6_queue_fifo_flush config m1 (calmEnv 2 0) Hc)
    as (_ & Hq2 & _ & Hall).
  destruct (proj2 C6_queue_fifo_flush config m1 flakyEnv Hc)
    as (_ & Hq3 & Hw3 & _).
  fold m2 in Hq2, Hall. fold m2' in Hq3, Hw3.
  split; [exact Ho|]. split; [exact Hc|]. split; [rewrite Hq; reflexivity|].
  split; [rewrite Hw; reflexivity|]. split; [exact Hq2|].
  split; [rewrite Hall by reflexivity; rewrite Hw, Hq; reflexivity|].
  split; [exact Hq3|]. rewrite Hw3, Hw, Hq. reflexivity.
Defined.

End SessionClaims.

(** * Lemmas on the renderer, the runs and the placement *)

Section PixelKeys.
Import RenderEngine.

Lemma digit_pretty_N_char (d : N) :
  (d < 10)%N -> digit (pretty_N_char d) = Some (Z.of_N d).
Proof.
  intros H.
  assert (d = 0 \/ d = 1 \/ d = 2 \/ d = 3 \/ d = 4 \/ d = 5 \/ d = 6 \/ d = 7
          \/ d = 8 \/ d = 9)%N as Hd by lia.
  repeat (destruct Hd as [->|Hd]; [reflexivity|]). subst. reflexivity.
Qed.

Lemma digits_pretty_N_go (x : N) : forall s,
  exists k : Z, (0 <= k)%Z /\
    forall acc, digits acc (pretty_N_go x s) = digits (acc * 10 ^ k + Z.of_N x) s.
Proof.
  induction (N.lt_wf_0 x) as [x _ IH]. intros s.
  destruct (N.eq_dec x 0%N) as [->|Hx].
  - exists 0%Z. split; [lia|]. intros acc. rewrite pretty_N_go_0. f_equal. simpl. lia.
  - assert (0 < x)%N as Hpos by lia.
    rewrite pretty_N_go_step by exact Hpos.
    destruct (IH (x `div` 10)%N (N.div_lt x 10%N Hpos eq_refl)
                 (String (pretty_N_char (x `mod` 10)) s)) as (k & Hk & E).
    exists (k + 1)%Z. split; [lia|]. intros acc. rewrite E. simpl.
    rewrite digit_pretty_N_char by (apply N.mod_lt; lia).
    f_equal. rewrite Z.pow_add_r by lia.
    rewrite (N.div_mod x 10%N) at 3 by lia.
    rewrite N2Z.inj_add, N2Z.inj_mul. simpl Z.of_N. lia.
Qed.

Lemma digits_pretty_pos (p : positive) :
  digits 0 (pretty (N.pos p)) = Some (Z.pos p).
Proof.
  unfold pretty, pretty_N. destruct (decide (N.pos p = 0%N)); [discriminate|].
  destruct (digits_pretty_N_go (N.pos p) "") as (k & _ & E).
  rewrite E. simpl. reflexivity.
Qed.


Lemma one_part_empty : one_part "".
Proof. split; reflexivity. Qed.

Lemma one_part_cons c s :
  Ascii.eqb c "," = false -> one_part s -> one_part (String c s).
Proof.
  intros Hc [H1 H2]. split.
  - intros t. simpl. rewrite Hc. simpl in H1. rewrite H1. reflexivity.
  - simpl. rewrite Hc, H2. reflexivity.
Qed.

Lemma digit_not_comma c d : digit c = Some d -> Ascii.eqb c "," = false.
Proof.
  intros H. destruct (Ascii.eqb c ",") eqn:E; [|reflexivity].
  apply Ascii.eqb_eq in E. subst c. discriminate.
Qed.

Lemma digits_one_part s : forall acc v, digits acc s = Some v -> one_part s.
Proof.
  induction s as [|c s IH]; intros acc v H; [apply one_part_empty|].
  simpl in H. destruct (digit c) as [d|] eqn:D; [|discriminate].
  apply one_part_cons; [eapply digit_not_comma, D|eapply IH, H].
Qed.

Lemma Number_digits s v :
  digits 0 s = Some v -> v <> 0%Z -> Number s = Some v.
Proof.
  intros H Hv. destruct s as [|c r]; [simpl in H; congruence|].
  unfold Number. destruct (Ascii.eqb c "-") eqn:E; [|exact H].
  apply Ascii.eqb_eq in E. subst c. discriminate.
Qed.

Lemma Number_pretty (z : Z) : Number (pretty z) = Some z.
Proof.
  destruct z as [|p|p].
  - reflexivity.
  - apply Number_digits; [apply digits_pretty_pos|discriminate].
  - change (pretty (Z.neg p)) with (String "-" (pretty (N.pos p))).
    pose proof (digits_pretty_pos p) as H. unfold Number. simpl Ascii.eqb.
    destruct (pretty (N.pos p)) as [|c r]; [discriminate|].
    rewrite H. reflexivity.
Qed.

Lemma one_part_pretty (z : Z) : one_part (pretty z).
Proof.
  destruct z as [|p|p].
  - apply one_part_cons; [reflexivity|apply one_part_empty].
  - eapply digits_one_part, digits_pretty_pos.
  - change (pretty (Z.neg p)) with (String "-" (pretty (N.pos p))).
    apply one_part_cons; [reflexivity|].
    eapply digits_one_part, digits_pretty_pos.
Qed.

(** The key a cell is stored under decodes to the cell. *)
Lemma coords_pixelKey (x y : Z) :
  coords (WebSocketManager.pixelKey (JNum x) (JNum y)) = Some (x, y).
Proof.
  unfold coords, WebSocketManager.pixelKey. simpl Js.toString.
  rewrite (proj1 (one_part_pretty x)), (proj2 (one_part_pretty y)). simpl.
  rewrite !Number_pretty. reflexivity.
Qed.

Lemma pixelKey_inj (x y x' y' : Z) :
  WebSocketManager.pixelKey (JNum x) (JNum y)
  = WebSocketManager.pixelKey (JNum x') (JNum y') ->
  x = x' /\ y = y'.
Proof.
  intros H. pose proof (coords_pixelKey x y) as E. rewrite H, coords_pixelKey in E.
  injection E as -> ->. auto.
Qed.

End PixelKeys.

Section CellGeometry.
Import InputController RenderEngine.

Lemma Qltb_true (a b : Q) : Qltb a b = true <-> a < b.
Proof. unfold Qltb. destruct (Qlt_le_dec a b); split; intros; try done; lra. Qed.

Lemma Qltb_false (a b : Q) : Qltb a b = false <-> b <= a.
Proof. unfold Qltb. destruct (Qlt_le_dec a b); split; intros; try done; lra. Qed.

Lemma covers_spec r u v :
  covers r u v = true <->
  (r_x r <= u < r_x r + r_w r) /\ (r_y r <= v < r_y r + r_h r).
Proof.
  unfold covers. rewrite !andb_true_iff, !Qle_bool_iff, !Qltb_true. tauto.
Qed.

Lemma isPixelInViewport_spec cv x y size :
  0 <= size -> 0 <= width cv -> 0 <= height cv ->
  (isPixelInViewport cv x y size = true <->
   exists u v, (x <= u <= x + size) /\ (0 <= u <= width cv) /\
               (y <= v <= y + size) /\ (0 <= v <= height cv)).
Proof.
  intros Hs Hw Hh. unfold isPixelInViewport.
  rewrite negb_true_iff, !orb_false_iff, !Qltb_false, !Qgtb_false.
  split.
  - intros [[[H1 H2] H3] H4].
    exists (Qmax x 0), (Qmax y 0). minmax_cases; repeat split; lra.
  - intros (u & v & [? ?] & [? ?] & [? ?] & [? ?]). repeat split; lra.
Qed.

End CellGeometry.

Section OffsetRange.
Import InputController.

Ltac branch :=
  match goal with
  | |- context [Qgtb ?a ?b] =>
      let E := fresh "E" in
      destruct (Qgtb a b) eqn:E;
      [apply Qgtb_true in E | apply Qgtb_false in E]
  end.

Lemma clampOffsetX_inRange logical s final o :
  inRangeX logical s final (clampOffsetX logical s final o).
Proof.
  unfold inRangeX, clampOffsetX. branch; cbv zeta; minmax_cases; lra.
Qed.

Lemma clampOffsetY_inRange logical s final header o :
  0 <= header ->
  inRangeY logical s final header (clampOffsetY logical s final header o).
Proof.
  intros Hh. unfold inRangeY, clampOffsetY. branch; cbv zeta; minmax_cases; lra.
Qed.

Lemma clampOffsetX_fixed logical s final o :
  inRangeX logical s final o <-> clampOffsetX logical s final o == o.
Proof.
  unfold inRangeX, clampOffsetX. branch; cbv zeta; split; intros H;
    minmax_cases; lra.
Qed.

Lemma clampOffsetY_fixed logical s final header o :
  0 <= header ->
  (inRangeY logical s final header o <-> clampOffsetY logical s final header o == o).
Proof.
  intros Hh. unfold inRangeY, clampOffsetY. branch; cbv zeta; split; intros H;
    minmax_cases; lra.
Qed.

Lemma centerCanvas_inRange cfg pg st :
  0 <= headerHeight pg -> offsetsInRange cfg pg (centerCanvas cfg pg st).
Proof.
  intros Hh. unfold offsetsInRange, inRangeX, inRangeY, centerCanvas.
  cbn [scale offsetX offsetY]. split; branch; cbv zeta; minmax_cases; lra.
Qed.

Lemma zoomAtPoint_inRange cfg pg st p f :
  0 <= headerHeight pg -> offsetsInRange cfg pg st ->
  offsetsInRange cfg pg (zoomAtPoint cfg pg st p f).
Proof.
  intros Hh H. unfold zoomAtPoint. destruct (Qeq_bool _ _); [exact H|].
  split; cbn [scale offsetX offsetY].
  - apply clampOffsetX_inRange.
  - apply clampOffsetY_inRange, Hh.
Qed.

Lemma handlePixelSelection_inRange cfg pg st pos :
  offsetsInRange cfg pg st -> offsetsInRange cfg pg (handlePixelSelection cfg st pos).
Proof.
  intros H. unfold handlePixelSelection.
  destruct (isValidCanvasPosition cfg pos); exact H.
Qed.

Lemma handle_inRange cfg pg st i :
  0 <= headerHeight pg -> offsetsInRange cfg pg st ->
  offsetsInRange cfg pg (handle cfg pg st i).
Proof.
  intros Hh H. destruct i; simpl;
    try (apply zoomAtPoint_inRange; assumption);
    try (apply centerCanvas_inRange; assumption);
    try (split; cbn [scale offsetX offsetY];
         [apply clampOffsetX_inRange | apply clampOffsetY_inRange, Hh]).
  - unfold handleMouseDown. destruct (screenToCanvas _ _ _ _ _); [|exact H].
    destruct doubleClick.
    + apply centerCanvas_inRange, Hh.
    + apply handlePixelSelection_inRange, H.
  - unfold handleTouchStart. destruct (screenToCanvas _ _ _ _ _); [|exact H].
    apply handlePixelSelection_inRange, H.
Qed.

Lemma initialCanvas_inRange cfg pg :
  0 <= headerHeight pg ->
  offsetsInRange cfg pg (initialCanvas (headerHeight pg)).
Proof.
  intros Hh. unfold offsetsInRange, inRangeX, inRangeY. cbn [scale offsetX offsetY initialCanvas].
  split; branch; lra.
Qed.

Lemma handle_validSelection cfg pg st i :
  validSelection cfg st -> validSelection cfg (handle cfg pg st i).
Proof.
  intros H. unfold validSelection in *.
  assert (Hz : forall p f, match selectedPixel (zoomAtPoint cfg pg st p f) with
                           | Some pos => isValidCanvasPosition cfg pos = true
                           | None => True end).
  { intros p f. unfold zoomAtPoint. destruct (Qeq_bool _ _); exact H. }
  assert (Hs : forall s pos, match selectedPixel s with
                             | Some pos => isValidCanvasPosition cfg pos = true
                             | None => True end ->
                match selectedPixel (handlePixelSelection cfg s pos) with
                | Some pos => isValidCanvasPosition cfg pos = true
                | None => True end).
  { intros s pos Hsel. unfold handlePixelSelection.
    destruct (isValidCanvasPosition cfg pos) eqn:V; [exact V|exact Hsel]. }
  destruct i; simpl; try apply Hz; try exact H.
  - unfold handleMouseDown. destruct (screenToCanvas _ _ _ _ _); [|exact H].
    destruct doubleClick; [cbn [centerCanvas selectedPixel]|]; apply Hs, H.
  - unfold handleTouchStart. destruct (screenToCanvas _ _ _ _ _); [|exact H].
    apply Hs, H.
Qed.

End OffsetRange.

Section Background.
Import InputController RenderEngine.

Lemma covers_false r u v :
  covers r u v = false <->
  (u < r_x r \/ r_x r + r_w r <= u \/ v < r_y r \/ r_y r + r_h r <= v).
Proof.
  unfold covers. rewrite !andb_false_iff.
  assert (L : forall a b, Qle_bool a b = false <-> b < a).
  { intros a b. split; intros H.
    - destruct (Qlt_le_dec b a) as [|Hle]; [assumption|].
      apply Qle_bool_iff in Hle. congruence.
    - destruct (Qle_bool a b) eqn:E; [|reflexivity].
      apply Qle_bool_iff in E. lra. }
  rewrite !L, !Qltb_false. tauto.
Qed.

Lemma strips_idle (c : string) (u v : Q) (strips : list (string * Rect)) :
  (forall s, s ∈ strips -> covers (snd s) u v = true -> fst s = c) ->
  fold_left (fun acc op => if covers (snd op) u v then Some (fst op) else acc) strips
            (Some c)
  = Some c.
Proof.
  induction strips as [|s strips IH]; intros H; simpl; [reflexivity|].
  destruct (covers (snd s) u v) eqn:C.
  - rewrite (H s) by (left || exact C). apply IH.
    intros s' Hs'. apply H. right. exact Hs'.
  - apply IH. intros s' Hs'. apply H. right. exact Hs'.
Qed.

Lemma renderBackground_colorAt cfg cv st u v :
  0 <= u < width cv -> 0 <= v < height cv ->
  colorAt (renderBackground cfg cv st) u v
  = Some (if covers (whiteRect cfg st) u v then "#FFFFFF" else "#808080").
Proof.
  intros Hu Hv. unfold colorAt, renderBackground. cbv zeta.
  rewrite fold_left_app. simpl fold_left at 2.
  assert (B : covers {| r_x := 0; r_y := 0; r_w := width cv; r_h := height cv |} u v = true).
  { apply covers_spec. simpl. split; lra. }
  rewrite B. fold (whiteRect cfg st).
  destruct (covers (whiteRect cfg st) u v) eqn:Cw; apply strips_idle;
    intros s Hs; rewrite !elem_of_app in Hs;
    (destruct Hs as [Hs|[Hs|[Hs|Hs]]];
     match type of Hs with
     | _ ∈ (if ?b then _ else _) =>
         destruct b eqn:E; [apply list_elem_of_singleton in Hs; subst s
                           | apply elem_of_nil in Hs; contradiction]
     end); intros C; try reflexivity;
    exfalso; apply covers_spec in C; simpl in C;
    apply covers_spec in Cw; unfold whiteRect in Cw; simpl in Cw;
    try apply Qltb_true in E; try apply Qgtb_true in E; lra.
Qed.

Lemma pixelRect_in_whiteRect cfg st cell :
  (0 <= PIXEL_SIZE cfg)%Z -> 0 <= scale st ->
  isValidCanvasPosition cfg cell = true ->
  let r := pixelRect cfg st cell in
  let w := whiteRect cfg st in
  r_x w <= r_x r /\ r_x r + r_w r <= r_x w + r_w w /\
  r_y w <= r_y r /\ r_y r + r_h r <= r_y w + r_h w.
Proof.
  intros Hp Hs V. destruct cell as [x y].
  apply isValidCanvasPosition_spec in V as [[Hx0 Hx1] [Hy0 Hy1]].
  unfold pixelRect, pixelSize, whiteRect. cbn [r_x r_y r_w r_h fst snd].
  assert (Px : 0 <= inject_Z x) by (unfold Qle; simpl; lia).
  assert (Py : 0 <= inject_Z y) by (unfold Qle; simpl; lia).
  assert (Pp : 0 <= inject_Z (PIXEL_SIZE cfg)) by (unfold Qle; simpl; lia).
  assert (Qx : inject_Z x + 1 <= inject_Z (CANVAS_WIDTH cfg))
    by (unfold Qle, Qplus; simpl; lia).
  assert (Qy : inject_Z y + 1 <= inject_Z (CANVAS_HEIGHT cfg))
    by (unfold Qle, Qplus; simpl; lia).
  assert (Pc : 0 <= inject_Z (PIXEL_SIZE cfg) * scale st) by nra.
  remember (inject_Z (PIXEL_SIZE cfg) * scale st) as c eqn:Ec.
  assert (Ew : inject_Z (CANVAS_WIDTH cfg) * inject_Z (PIXEL_SIZE cfg) * scale st
               == inject_Z (CANVAS_WIDTH cfg) * c) by (rewrite Ec; ring).
  assert (Eh : inject_Z (CANVAS_HEIGHT cfg) * inject_Z (PIXEL_SIZE cfg) * scale st
               == inject_Z (CANVAS_HEIGHT cfg) * c) by (rewrite Ec; ring).
  rewrite Ew, Eh. repeat split; nra.
Qed.

End Background.

Section ViewportRuns.
Import InputController RenderEngine.

Lemma handle_run_inRange cfg pg inputs : forall st,
  0 <= headerHeight pg -> offsetsInRange cfg pg st ->
  offsetsInRange cfg pg (run cfg pg st inputs).
Proof.
  unfold run. induction inputs as [|i inputs IH]; intros st Hh H; simpl; [exact H|].
  apply IH; [exact Hh|]. apply handle_inRange; assumption.
Qed.

Lemma run_validSelection cfg pg inputs : forall st,
  validSelection cfg st -> validSelection cfg (run cfg pg st inputs).
Proof.
  unfold run. induction inputs as [|i inputs IH]; intros st H; simpl; [exact H|].
  apply IH, handle_validSelection, H.
Qed.

Lemma renderPixels_entries cfg cv st (cells : list (Z * Z * JsVal)) :
  renderPixels cfg cv st (entries cells)
  = Some (map (fun c => (snd c, pixelRect cfg st (fst c)))
              (List.filter (visible cfg cv st) cells),
          length (List.filter (visible cfg cv st) cells),
          length (List.filter (fun c => negb (visible cfg cv st c)) cells)).
Proof.
  induction cells as [|[[x y] color] cells IH]; [reflexivity|].
  change (entries ((x, y, color) :: cells))
    with ((WebSocketManager.pixelKey (JNum x) (JNum y), color) :: entries cells).
  cbn [renderPixels]. rewrite coords_pixelKey, IH.
  cbn [List.filter].
  assert (V : visible cfg cv st (x, y, color)
              = isPixelInViewport cv (r_x (pixelRect cfg st (x, y)))
                  (r_y (pixelRect cfg st (x, y))) (r_w (pixelRect cfg st (x, y))))
    by reflexivity.
  rewrite V. destruct (isPixelInViewport cv _ _ _); reflexivity.
Qed.

Lemma centerCanvas_fits_horizontally cfg pg st :
  logicalCanvasWidth cfg * scale st <= finalWidth pg ->
  offsetX (centerCanvas cfg pg st)
  == (finalWidth pg - logicalCanvasWidth cfg * scale st) / 2.
Proof.
  intros H. unfold centerCanvas. cbn [offsetX scale].
  apply Qgtb_false in H as E. rewrite E. cbv zeta.
  remember ((finalWidth pg - logicalCanvasWidth cfg * scale st) / 2) as c eqn:Ec.
  assert (Hc : c * 2 == finalWidth pg - logicalCanvasWidth cfg * scale st)
    by (rewrite Ec; field).
  clear Ec. minmax_cases; lra.
Qed.

Lemma centerCanvas_larger cfg pg st :
  finalWidth pg < logicalCanvasWidth cfg * scale st ->
  offsetX (centerCanvas cfg pg st) = 0.
Proof.
  intros H. unfold centerCanvas. cbn [offsetX scale].
  apply Qgtb_true in H. rewrite H. reflexivity.
Qed.

Lemma app_centerCanvas_visible cfg pg containerRect newRect s cx cy :
  PixelBattleAppCanvas.centerCanvas cfg pg containerRect newRect s = Some (cx, cy) ->
  0 <= cx /\ headerHeight pg <= cy.
Proof.
  unfold PixelBattleAppCanvas.centerCanvas. cbv zeta.
  destruct (_ && _); [discriminate|]. intros [= <- <-]. split.
  - destruct (Qltb _ 0) eqn:E; [lra|]. apply Qltb_false in E. exact E.
  - destruct (Qltb _ (headerHeight pg)) eqn:E; [lra|]. apply Qltb_false in E. exact E.
Qed.

Lemma app_centerCanvas_clamped cfg pg w h newRect s :
  containerRect pg = Some (w, h) -> 0 < w -> 0 < h -> ~ s == 0 ->
  0 <= headerHeight pg ->
  exists cx cy,
    PixelBattleAppCanvas.centerCanvas cfg pg (w, h) newRect s = Some (cx, cy) /\
    clampX cfg pg s cx == cx /\ clampY cfg pg s cy == cy.
Proof.
  intros Hc Hw Hh Hs Hhd.
  unfold PixelBattleAppCanvas.centerCanvas. cbv zeta. cbn [fst snd].
  assert (E1 : Qle_bool w 0 = false).
  { destruct (Qle_bool w 0) eqn:E; [|reflexivity]. apply Qle_bool_iff in E. lra. }
  assert (E2 : Qle_bool h 0 = false).
  { destruct (Qle_bool h 0) eqn:E; [|reflexivity]. apply Qle_bool_iff in E. lra. }
  rewrite E1, E2. simpl.
  rewrite (Qeq_bool_false _ _ Hs).
  apply Qgtb_true in Hw as Gw. apply Qgtb_true in Hh as Gh. rewrite Gw, Gh.
  eexists. eexists. split; [reflexivity|].
  unfold clampX, clampY, clampOffsetX, clampOffsetY, finalWidth, finalHeight.
  rewrite Hc, Gw, Gh.
  fold (logicalCanvasWidth cfg). fold (logicalCanvasHeight cfg).
  remember ((w - logicalCanvasWidth cfg * s) / 2) as c1 eqn:Ec1.
  remember ((h - logicalCanvasHeight cfg * s) / 2) as c2 eqn:Ec2.
  assert (Hc1 : c1 * 2 == w - logicalCanvasWidth cfg * s) by (rewrite Ec1; field).
  assert (Hc2 : c2 * 2 == h - logicalCanvasHeight cfg * s) by (rewrite Ec2; field).
  clear Ec1 Ec2.
  split.
  - destruct (Qgtb (logicalCanvasWidth cfg * s) w) eqn:E;
      [apply Qgtb_true in E | apply Qgtb_false in E]; cbv zeta;
      repeat match goal with
             | |- context [Qltb ?a ?b] =>
                 let F := fresh in
                 destruct (Qltb a b) eqn:F;
                 [apply Qltb_true in F | apply Qltb_false in F]
             end; minmax_cases; lra.
  - destruct (Qgtb (logicalCanvasHeight cfg * s) h) eqn:E;
      [apply Qgtb_true in E | apply Qgtb_false in E]; cbv zeta;
      repeat match goal with
             | |- context [Qltb ?a ?b] =>
                 let F := fresh in
                 destruct (Qltb a b) eqn:F;
                 [apply Qltb_true in F | apply Qltb_false in F]
             end; minmax_cases; lra.
Qed.

End ViewportRuns.

Section StoreFrames.
Import StateManager.

Lemma setNested_frame keys : forall obj lastKey v obj' q,
  setNested obj keys lastKey v = Some obj' ->
  diverge (keys ++ [lastKey]) q ->
  fold_left Js.prop q obj' = fold_left Js.prop q obj.
Proof.
  induction keys as [|key keys IH]; intros obj lastKey v obj' q H D;
    destruct obj; simpl in H; try discriminate.
  - inversion H; subst. destruct q as [|b q]; simpl in D; [contradiction|].
    destruct D as [D|[_ D]]; [|destruct q; contradiction].
    simpl. rewrite getField_setField_ne by exact D. reflexivity.
  - destruct (setNested _ keys lastKey v) as [child'|] eqn:E; [|discriminate].
    inversion H; subst. destruct q as [|b q]; simpl in D; [contradiction|].
    destruct D as [D|[<- D]].
    + simpl. rewrite getField_setField_ne by exact D. reflexivity.
    + simpl. rewrite getField_setField_eq. simpl.
      rewrite (IH _ _ _ _ _ E D).
      destruct (Js.getField key fields); simpl; [reflexivity|].
      rewrite fold_prop_fresh, fold_prop_undefined; [reflexivity|].
      destruct keys, q; simpl in D; try contradiction; discriminate.
Qed.

Lemma _setNestedValue_frame obj path v obj' path' :
  _setNestedValue obj path v = Some obj' ->
  diverge (Js.split_dot path) (Js.split_dot path') ->
  _getNestedValue obj' path' = _getNestedValue obj path'.
Proof.
  unfold _setNestedValue, _getNestedValue. intros H D.
  eapply setNested_frame; [exact H|].
  rewrite <- app_removelast_last by apply split_dot_nonempty. exact D.
Qed.

(** The state [set] leaves behind: the written tree whenever the write itself
    succeeded, whatever middleware and subscribers then do. *)
Lemma set_state s path value :
  state (snd (fst (set s path value)))
  = default (state s) (_setNestedValue (state s) path value).
Proof.
  unfold set. destruct (_setNestedValue (state s) path value) as [st'|]; [|reflexivity].
  destruct (runMiddleware _ _ _ _); [|reflexivity].
  destruct (_notifySubscribers _ _ _ _). reflexivity.
Qed.

Lemma setNested_fresh keys : forall lastKey v,
  exists obj', setNested (JObj []) keys lastKey v = Some obj'.
Proof.
  induction keys as [|key keys IH]; intros lastKey v; simpl; [eauto|].
  destruct (IH lastKey v) as [obj' ->]. eauto.
Qed.

Lemma setNested_missing fields key keys lastKey v :
  Js.getField key fields = None ->
  exists obj', setNested (JObj fields) (key :: keys) lastKey v = Some obj'.
Proof.
  intros H. simpl. rewrite H. simpl.
  destruct (setNested_fresh keys lastKey v) as [obj' ->]. eauto.
Qed.

Lemma has_cb_app id l1 l2 : has_cb id (l1 ++ l2) = has_cb id l1 || has_cb id l2.
Proof. unfold has_cb. apply existsb_app. Qed.

Lemma has_cb_In id l : has_cb id l = true <-> In id (map cb_id l).
Proof.
  unfold has_cb. rewrite existsb_exists, in_map_iff. split.
  - intros (cb & Hin & E). apply Nat.eqb_eq in E. eauto.
  - intros (cb & E & Hin). exists cb. split; [exact Hin|]. apply Nat.eqb_eq, E.
Qed.

Lemma subscribersAt_subscribe s path cb :
  subscribersAt (subscribe s path cb) path
  = if has_cb (cb_id cb) (subscribersAt s path) then subscribersAt s path
    else subscribersAt s path ++ [cb].
Proof. unfold subscribersAt, subscribe. simpl. rewrite lookup_insert_eq. reflexivity. Qed.

Lemma subscribersAt_subscribe_ne s path path' cb :
  path <> path' ->
  subscribersAt (subscribe s path cb) path' = subscribersAt s path'.
Proof.
  intros H. unfold subscribersAt, subscribe. simpl.
  rewrite lookup_insert_ne by exact H. reflexivity.
Qed.

Lemma subscribe_twice s path cb :
  subscribe (subscribe s path cb) path cb = subscribe s path cb.
Proof.
  unfold subscribe at 1. rewrite subscribersAt_subscribe.
  assert (H : has_cb (cb_id cb)
                (if has_cb (cb_id cb) (subscribersAt s path) then subscribersAt s path
                 else subscribersAt s path ++ [cb]) = true).
  { destruct (has_cb _ (subscribersAt s path)) eqn:E; [exact E|].
    rewrite has_cb_app. unfold has_cb at 2. simpl. rewrite Nat.eqb_refl.
    apply orb_true_r. }
  rewrite H. unfold subscribe. simpl. rewrite insert_insert_eq. reflexivity.
Qed.

Lemma subscribe_NoDup s path cb :
  NoDup (map cb_id (subscribersAt s path)) ->
  NoDup (map cb_id (subscribersAt (subscribe s path cb) path)).
Proof.
  intros H. rewrite subscribersAt_subscribe.
  destruct (has_cb _ _) eqn:E; [exact H|].
  rewrite map_app. simpl. apply NoDup_app. split; [exact H|]. split.
  - intros x Hx Hx'. apply list_elem_of_singleton in Hx'. subst x.
    apply list_elem_of_In, has_cb_In in Hx. congruence.
  - apply NoDup_singleton.
Qed.

Lemma filter_ne_fresh (id : nat) (l : list Callback) :
  has_cb id l = false -> filter (fun cb => cb_id cb ≠ id) l = l.
Proof.
  induction l as [|cb l IH]; intros H; [reflexivity|].
  unfold has_cb in H. simpl in H. apply orb_false_iff in H as [H1 H2].
  apply Nat.eqb_neq in H1.
  rewrite filter_cons_True by exact H1. f_equal. apply IH, H2.
Qed.

Lemma subscribersAt_unsubscribe s path cb :
  subscribersAt (unsubscribe s path cb) path
  = filter (fun c => cb_id c ≠ cb_id cb) (subscribersAt s path).
Proof.
  unfold subscribersAt, unsubscribe.
  destruct (subscribers s !! path) as [cbs|] eqn:E; simpl.
  - rewrite lookup_insert_eq. reflexivity.
  - rewrite E. reflexivity.
Qed.

Lemma subscribersAt_unsubscribe_ne s path path' cb :
  path <> path' ->
  subscribersAt (unsubscribe s path cb) path' = subscribersAt s path'.
Proof.
  intros H. unfold subscribersAt, unsubscribe.
  destruct (subscribers s !! path) as [cbs|] eqn:E; simpl; [|reflexivity].
  rewrite lookup_insert_ne by exact H. reflexivity.
Qed.

Lemma unsubscribe_subscribe s path cb :
  has_cb (cb_id cb) (subscribersAt s path) = false ->
  subscribersAt (unsubscribe (subscribe s path cb) path cb) path = subscribersAt s path.
Proof.
  intros H. rewrite subscribersAt_unsubscribe, subscribersAt_subscribe, H.
  rewrite filter_app, filter_ne_fresh by exact H.
  rewrite filter_cons_False by (intros E; apply E; reflexivity).
  rewrite filter_nil. apply app_nil_r.
Qed.

Lemma unsubscribe_gone s path cb :
  has_cb (cb_id cb) (subscribersAt (unsubscribe s path cb) path) = false.
Proof.
  rewrite subscribersAt_unsubscribe.
  induction (subscribersAt s path) as [|c l IH]; [reflexivity|].
  destruct (decide (cb_id c ≠ cb_id cb)) as [Hne|He].
  - rewrite filter_cons_True by exact Hne. unfold has_cb. simpl.
    apply Nat.eqb_neq in Hne. rewrite Hne. exact IH.
  - rewrite filter_cons_False by exact He. exact IH.
Qed.

Lemma callAll_calls st cbs value oldValue path :
  fst (callAll st cbs value oldValue path) = map (callOf st value oldValue path) cbs.
Proof.
  rewrite callAll_returns. simpl.
  induction cbs as [|cb cbs IH]; simpl; [reflexivity|]. rewrite IH. reflexivity.
Qed.

(** The calls of [_notifySubscribers], spelled out. *)
Lemma _notifySubscribers_calls s path value oldValue :
  fst (_notifySubscribers s path value oldValue)
  = map (callOf (state s) value oldValue path) (subscribersAt s path)
    ++ flat_map (fun parentPath =>
                   map (callOf (state s) (get s parentPath) JNull parentPath)
                       (subscribersAt s parentPath))
                (parentPaths path).
Proof.
  unfold _notifySubscribers.
  pose proof (callAll_calls (state s) (subscribersAt s path) value oldValue path) as H0.
  rewrite callAll_returns in *. simpl in H0.
  assert (Hp : fst (forEach (fun parentPath =>
                               callAll (state s) (subscribersAt s parentPath)
                                       (get s parentPath) JNull parentPath)
                            (parentPaths path))
               = flat_map (fun parentPath =>
                             map (callOf (state s) (get s parentPath) JNull parentPath)
                                 (subscribersAt s parentPath))
                          (parentPaths path)).
  { induction (parentPaths path) as [|p ps IH]; simpl; [reflexivity|].
    pose proof (callAll_calls (state s) (subscribersAt s p) (get s p) JNull p) as Hc.
    rewrite callAll_returns in *. simpl in Hc.
    destruct (forEach _ ps) as [logs o]. simpl in *. rewrite Hc, IH. reflexivity. }
  destruct (forEach _ (parentPaths path)) as [logs o]. simpl in *.
  rewrite H0, Hp. reflexivity.
Qed.

Lemma _notifySubscribers_state s path value oldValue :
  Forall (fun c => call_state c = state s) (fst (_notifySubscribers s path value oldValue)).
Proof.
  rewrite _notifySubscribers_calls. apply Forall_app. split.
  - apply Forall_forall. intros c Hc. apply list_elem_of_In, in_map_iff in Hc as (cb & <- & _).
    reflexivity.
  - apply Forall_forall. intros c Hc.
    apply list_elem_of_In, in_flat_map in Hc as (p & _ & Hc).
    apply in_map_iff in Hc as (cb & <- & _). reflexivity.
Qed.

Lemma batchUpdate_calls_state s updates c s' calls :
  batchUpdate s updates = (c, s', calls) ->
  Forall (fun call => call_state call = state s') calls.
Proof.
  unfold batchUpdate. destruct (writeAll s updates) as [[cw sw] changes].
  destruct cw; [|intros [= _ <- <-]; constructor].
  destruct (middlewareOnChanges sw changes); [|intros [= _ <- <-]; constructor].
  assert (H : Forall (fun call => call_state call = state sw)
                (fst (forEach (fun ch => _notifySubscribers sw (ch_path ch) (ch_value ch)
                                           (ch_oldValue ch)) changes))).
  { induction changes as [|ch chs IH]; simpl; [constructor|].
    pose proof (_notifySubscribers_state sw (ch_path ch) (ch_value ch) (ch_oldValue ch)) as Hs.
    pose proof (_notifySubscribers_returns sw (ch_path ch) (ch_value ch) (ch_oldValue ch)) as Hr.
    destruct (_notifySubscribers _ _ _ _) as [log o]. simpl in *. subst o.
    destruct (forEach _ chs) as [logs o]. simpl in *.
    apply Forall_app. split; assumption. }
  destruct (forEach _ changes) as [logs o]. simpl in H.
  intros [= _ <- <-]. exact H.
Qed.

Lemma writeAll_fails us : forall s s1 chs path value rest,
  writeAll s us = (Normal, s1, chs) ->
  _setNestedValue (state s1) path value = None ->
  writeAll s (us ++ (path, value) :: rest) = (Abrupt, s1, chs).
Proof.
  induction us as [|[p v] us IH]; intros s s1 chs path value rest H E; simpl in H.
  - inversion H; subst. simpl. rewrite E. reflexivity.
  - simpl. destruct (_setNestedValue (state s) p v) as [st'|]; [|discriminate].
    destruct (writeAll (with_state s st') us) as [[c s2] chs2] eqn:W.
    inversion H; subst.
    rewrite (IH _ _ _ _ _ rest W E). reflexivity.
Qed.

End StoreFrames.

Section SessionFacts.
Import WebSocketManager.

Lemma scheduleReconnect_transport cfg e m :
  transport (scheduleReconnect cfg e m) = transport m.
Proof.
  unfold scheduleReconnect. destruct (_ <=? _)%Z; reflexivity.
Qed.

Lemma transport_isOpen m m' : transport m' = transport m -> isOpen m' = isOpen m.
Proof. unfold transport, isOpen. intros [= _ _ ->]. reflexivity. Qed.

Lemma dispatch_transport e m message m' :
  dispatch e m message = Some m' -> transport m' = transport m.
Proof.
  unfold dispatch.
  destruct (Js.prop message "type"); try (intros [= <-]; reflexivity).
  repeat match goal with
         | |- context [if ?b then _ else _] => destruct b
         end; try (intros [= <-]; reflexivity).
  unfold handleInitMessage. destruct (Js.prop message "pixels"); try discriminate.
  destruct (initPixels items); [|discriminate]. intros [= <-]. reflexivity.
Qed.

Lemma handleMessage_transport e m data : transport (handleMessage e m data) = transport m.
Proof.
  unfold handleMessage. destruct data as [message|]; [|reflexivity].
  destruct message; try reflexivity;
    (destruct (dispatch e m _) as [m'|] eqn:E; [|reflexivity]);
    apply dispatch_transport in E; rewrite <- E; reflexivity.
Qed.

Lemma connect_transport cfg e m :
  wire (connect cfg e m) = wire m /\ messageQueue (connect cfg e m) = messageQueue m /\
  (isOpen (connect cfg e m) = true -> isOpen m = true).
Proof.
  unfold connect. destruct (isConnecting m || isOpen m) eqn:E; [auto|].
  apply orb_false_iff in E as [_ E].
  destruct (constructorThrows e).
  - match goal with
    | |- context [scheduleReconnect cfg e ?m0] =>
        pose proof (scheduleReconnect_transport cfg e m0) as H
    end.
    pose proof (transport_isOpen _ _ H) as Ho.
    unfold transport in H. injection H as H1 H2 _.
    split; [exact H1|]. split; [exact H2|].
    intros Hopen. exact (eq_trans (eq_sym Ho) Hopen).
  - simpl. split; [reflexivity|]. split; [reflexivity|]. discriminate.
Qed.

Lemma step_conserves cfg m ev :
  settled m -> calm ev ->
  settled (step cfg m ev) /\
  wire (step cfg m ev) ++ messageQueue (step cfg m ev)
  = wire m ++ messageQueue m ++ handed m ev.
Proof.
  intros Hs [Hcalm Hq]. destruct ev as [e [| |message q| |code| |data|i|]];
    simpl in *; unfold handed; simpl.
  - destruct (connect_transport cfg e m) as (H1 & H2 & H3).
    split; [|rewrite H1, H2, app_nil_r; reflexivity].
    intros Ho. rewrite H2. apply Hs, H3, Ho.
  - split; [discriminate|]. rewrite app_nil_r. reflexivity.
  - subst q. unfold send. rewrite Hcalm. destruct (isOpen m) eqn:Ho; simpl.
    + split; [intros _; exact (Hs Ho)|].
      rewrite (Hs Ho), !app_nil_r. reflexivity.
    + split; [unfold settled, isOpen in *; simpl; rewrite Ho; discriminate|].
      reflexivity.
  - destruct (ws m) as [[| | |]|] eqn:Hw;
      try (split; [exact Hs|rewrite app_nil_r; reflexivity]).
    unfold handleOpen. rewrite flushMessageQueue_open by reflexivity. simpl.
    split; [intros _; reflexivity|].
    rewrite !app_nil_r. f_equal. apply filter_all_true.
    intros x _. rewrite Hcalm. reflexivity.
  - destruct (ws m) as [r|] eqn:Hw; [|split; [exact Hs|rewrite app_nil_r; reflexivity]].
    unfold handleClose. destruct (code =? 1000)%Z.
    + simpl. split; [discriminate|rewrite app_nil_r; reflexivity].
    + match goal with
      | |- context [scheduleReconnect cfg e ?m0] =>
          pose proof (scheduleReconnect_transport cfg e m0) as H
      end.
      unfold transport in H. simpl in H. injection H as H1 H2 H3.
      simpl. rewrite H1, H2, app_nil_r. split; [|reflexivity].
      unfold settled, isOpen. simpl. rewrite H3. discriminate.
  - split; [exact Hs|rewrite app_nil_r; reflexivity].
  - destruct (isOpen m) eqn:Ho; [|split; [exact Hs|rewrite app_nil_r; reflexivity]].
    pose proof (handleMessage_transport e m data) as H.
    unfold transport in H. injection H as H1 H2 H3.
    rewrite H1, H2, app_nil_r. split; [|reflexivity].
    intros _. rewrite H2. apply Hs, Ho.
  - destruct (reconnectTimers m !! i);
      [|split; [exact Hs|rewrite app_nil_r; reflexivity]].
    unfold reconnectTimerFires. simpl.
    destruct (connection_isConnected (appState m)).
    + split; [exact Hs|rewrite app_nil_r; reflexivity].
    + match goal with
      | |- context [connect cfg e ?m0] =>
          destruct (connect_transport cfg e m0) as (H1 & H2 & H3)
      end.
      rewrite H1, H2, app_nil_r. simpl. split; [|reflexivity].
      intros Ho. rewrite H2. simpl. apply Hs. apply H3 in Ho. exact Ho.
  - destruct (heartbeatTimer m); simpl;
      [|split; [exact Hs|rewrite app_nil_r; reflexivity]].
    unfold heartbeat. destruct (isOpen m) eqn:Ho;
      [|split; [exact Hs|rewrite app_nil_r; reflexivity]].
    unfold send. rewrite Ho, Hcalm. simpl.
    split; [intros _; exact (Hs Ho)|]. rewrite (Hs Ho), !app_nil_r. reflexivity.
Qed.

Lemma run_conserves cfg evs : forall m,
  settled m -> Forall calm evs ->
  settled (run cfg m evs) /\
  wire (run cfg m evs) ++ messageQueue (run cfg m evs)
  = wire m ++ messageQueue m ++ handedAll cfg m evs.
Proof.
  unfold run. induction evs as [|ev evs IH]; intros m Hs Hc; simpl.
  - rewrite app_nil_r. auto.
  - apply Forall_cons in Hc as [Hc1 Hc2].
    destruct (step_conserves cfg m ev Hs Hc1) as [Hs' E].
    destruct (IH _ Hs' Hc2) as [Hs'' E'].
    split; [exact Hs''|]. rewrite E', (app_assoc (wire _)), E, <- !app_assoc. reflexivity.
Qed.

Lemma baseDelay_first cfg :
  baseDelay cfg 1 == Qmin (reconnectInterval cfg) (maxReconnectInterval cfg).
Proof.
  unfold baseDelay. simpl Z.sub. simpl Qpower.
  assert (E : reconnectInterval cfg * 1 == reconnectInterval cfg) by ring.
  minmax_cases; lra.
Qed.

Lemma flushMessageQueue_timers e m :
  reconnectTimers (flushMessageQueue e m) = reconnectTimers m.
Proof.
  pose proof (flushMessageQueue_core e m) as H. unfold core in H.
  injection H as _ _ H _. exact H.
Qed.

Lemma close_after_open cfg e e' m code :
  (0 < maxReconnectAttempts cfg)%Z -> code <> 1000%Z ->
  let m' := handleClose cfg e' (handleOpen e m) code in
  reconnectAttempts m' = 1%Z /\
  connection_reconnectAttempts (appState m') = 1%Z /\
  reconnectTimers m'
  = reconnectTimers m ++ [baseDelay cfg 1 + baseDelay cfg 1 * (1 # 10) * random e'].
Proof.
  intros Hmax Hcode m'. unfold m', handleClose.
  apply Z.eqb_neq in Hcode. rewrite Hcode.
  unfold handleOpen.
  set (m1 := flushMessageQueue e _).
  assert (Ha : reconnectAttempts m1 = 0%Z).
  { pose proof (flushMessageQueue_core e
       (with_appState
          (set_lastPing (Some (now e))
             (set_reconnectAttempts 0
                (set_isConnected true
                   (appState (clearTimers (with_reconnectAttempts 0 (with_isConnecting false m)))))))
          (clearTimers (with_reconnectAttempts 0 (with_isConnecting false m))))) as H.
    unfold core in H. injection H as H _ _ _. exact H. }
  assert (Ht : reconnectTimers m1 = reconnectTimers m).
  { unfold m1. rewrite flushMessageQueue_timers. reflexivity. }
  unfold scheduleReconnect. simpl. rewrite Ha.
  destruct (maxReconnectAttempts cfg <=? 0)%Z eqn:E; [apply Z.leb_le in E; lia|].
  simpl. rewrite Ht. repeat split; reflexivity.
Qed.

Lemma disconnect_keeps_timers m : reconnectTimers (disconnect m) = reconnectTimers m.
Proof. reflexivity. Qed.

Lemma retry_after_disconnect cfg e m i d :
  reconnectTimers m !! i = Some d -> constructorThrows e = false ->
  let m' := step cfg (disconnect m) (e, ReconnectTimer i) in
  ws m' = Some CONNECTING /\ isConnecting m' = true /\ connectionTimer m' = true /\
  reconnectTimers m' = delete i (reconnectTimers m).
Proof.
  intros Hi Hc m'. unfold m'. simpl. rewrite Hi.
  unfold reconnectTimerFires, connect. simpl. rewrite Hc. simpl.
  repeat split; reflexivity.
Qed.

Lemma stale_retry_while_connected cfg e m i :
  connection_isConnected (appState m) = true ->
  transport (step cfg m (e, ReconnectTimer i)) = transport m /\
  reconnectAttempts (step cfg m (e, ReconnectTimer i)) = reconnectAttempts m.
Proof.
  intros Hc. simpl. destruct (reconnectTimers m !! i); [|auto].
  unfold reconnectTimerFires. simpl. rewrite Hc. auto.
Qed.

End SessionFacts.

Section PixelMessages.
Import WebSocketManager.

Lemma initPixels_step (acc : option (gmap string JsVal)) items :
  foldl (fun acc pixel =>
           match acc, pixel with
           | None, _ | _, JNull | _, JUndefined => None
           | Some newPixels, _ =>
               Some (<[pixelKey (Js.prop pixel "x") (Js.prop pixel "y")
                       := Js.prop pixel "color"]> newPixels)
           end) acc items
  = match acc with
    | None => None
    | Some px =>
        foldl (fun acc pixel =>
           match acc, pixel with
           | None, _ | _, JNull | _, JUndefined => None
           | Some newPixels, _ =>
               Some (<[pixelKey (Js.prop pixel "x") (Js.prop pixel "y")
                       := Js.prop pixel "color"]> newPixels)
           end) (Some px) items
    end.
Proof.
  destruct acc; [reflexivity|].
  induction items as [|i items IH]; [reflexivity|]. simpl. exact IH.
Qed.

Lemma initPixels_cells (cells : list (Z * Z * string)) :
  initPixels (map (fun c => update (fst (fst c)) (snd (fst c)) (snd c)) cells)
  = Some (foldl paintCell ∅ cells).
Proof.
  unfold initPixels. generalize (∅ : gmap string JsVal).
  induction cells as [|[[x y] color] cells IH]; intros acc; [reflexivity|].
  simpl. rewrite IH. reflexivity.
Qed.

Lemma initPixels_null items :
  JNull ∈ items \/ JUndefined ∈ items -> initPixels items = None.
Proof.
  unfold initPixels. generalize (Some (∅ : gmap string JsVal)).
  induction items as [|i items IH]; intros acc H.
  - destruct H as [H|H]; apply elem_of_nil in H; contradiction.
  - simpl. rewrite !elem_of_cons in H.
    destruct H as [[<-|H]|[<-|H]].
    + destruct acc; rewrite initPixels_step; reflexivity.
    + apply IH. left. exact H.
    + destruct acc; rewrite initPixels_step; reflexivity.
    + apply IH. right. exact H.
Qed.

Lemma paintCell_lookup (cells : list (Z * Z * string)) : forall acc x y,
  foldl paintCell acc cells !! pixelKey (JNum x) (JNum y)
  = match lastColor cells x y with
    | Some color => Some color
    | None => acc !! pixelKey (JNum x) (JNum y)
    end.
Proof.
  induction cells as [|[[x0 y0] color] cells IH]; intros acc x y; [reflexivity|].
  simpl. rewrite IH. destruct (lastColor cells x y); [reflexivity|].
  unfold paintCell. cbn [fst snd].
  destruct ((x0 =? x)%Z && (y0 =? y)%Z) eqn:E.
  - apply andb_true_iff in E as [Ex Ey]. apply Z.eqb_eq in Ex, Ey. subst.
    apply lookup_insert_eq.
  - rewrite lookup_insert_ne; [reflexivity|].
    intros K. apply pixelKey_inj in K as [-> ->].
    rewrite !Z.eqb_refl in E. discriminate.
Qed.

Lemma dispatch_init e m cells n :
  dispatch e m (initFrame cells n)
  = Some (with_appState
            (set_onlineUsers (JNum n) (set_pixels (foldl paintCell ∅ cells) (appState m))) m).
Proof.
  unfold dispatch.
  change (Js.prop (initFrame cells n) "type") with (JStr "init").
  cbv beta iota. rewrite String.eqb_refl. cbv beta iota.
  unfold handleInitMessage.
  change (Js.prop (initFrame cells n) "pixels")
    with (JArr (map (fun c => update (fst (fst c)) (snd (fst c)) (snd c)) cells)).
  cbv beta iota. rewrite initPixels_cells. reflexivity.
Qed.

Lemma handleMessage_dispatch e m message m' :
  message <> JNull -> dispatch e m message = Some m' ->
  handleMessage e m (Some message)
  = emit ("message:" +:+ Js.toString (Js.prop message "type")) (emit "message" m').
Proof.
  intros Hn Hd. unfold handleMessage.
  destruct message; try congruence; rewrite Hd; reflexivity.
Qed.

Lemma handleMessage_init e m cells n :
  let m' := handleMessage e m (Some (initFrame cells n)) in
  canvas_pixels (appState m') = foldl paintCell ∅ cells /\
  connection_onlineUsers (appState m') = JNum n /\
  transport m' = transport m.
Proof.
  intros m'. unfold m'.
  assert (Hn : initFrame cells n <> JNull) by discriminate.
  rewrite (handleMessage_dispatch e m _ _ Hn (dispatch_init e m cells n)).
  repeat split; reflexivity.
Qed.

Lemma handleMessage_init_broken e m items online :
  JNull ∈ items \/ JUndefined ∈ items ->
  handleMessage e m (Some (JObj [("type", JStr "init"); ("pixels", JArr items);
                                 ("online_users", online)])) = m.
Proof.
  intros H. unfold handleMessage, dispatch.
  change (Js.prop (JObj [("type", JStr "init"); ("pixels", JArr items);
                         ("online_users", online)]) "type") with (JStr "init").
  cbv beta iota. rewrite String.eqb_refl. cbv beta iota.
  unfold handleInitMessage.
  change (Js.prop (JObj [("type", JStr "init"); ("pixels", JArr items);
                         ("online_users", online)]) "pixels") with (JArr items).
  cbv beta iota. rewrite (initPixels_null _ H). reflexivity.
Qed.

Lemma handleMessage_single e m x y color x' y' :
  canvas_pixels (appState (handleMessage e m (Some (singleUpdate x y color))))
    !! pixelKey (JNum x') (JNum y')
  = if (x =? x')%Z && (y =? y')%Z then Some (JStr color)
    else canvas_pixels (appState m) !! pixelKey (JNum x') (JNum y').
Proof.
  rewrite handleMessage_pixel_update by reflexivity.
  change (Js.prop (singleUpdate x y color) "x") with (JNum x).
  change (Js.prop (singleUpdate x y color) "y") with (JNum y).
  change (Js.prop (singleUpdate x y color) "color") with (JStr color).
  destruct ((x =? x')%Z && (y =? y')%Z) eqn:E.
  - apply andb_true_iff in E as [Ex Ey]. apply Z.eqb_eq in Ex, Ey. subst.
    apply lookup_insert_eq.
  - rewrite lookup_insert_ne; [reflexivity|].
    intros K. apply pixelKey_inj in K as [-> ->].
    rewrite !Z.eqb_refl in E. discriminate.
Qed.

End PixelMessages.

Section CooldownFacts.
Import StateManager PixelBattleApp.

Lemma runMiddleware_none s path value oldValue :
  middleware s = [] -> runMiddleware s path value oldValue = Returns.
Proof. intros H. unfold runMiddleware. rewrite H. reflexivity. Qed.

Lemma middlewareOnChanges_none s changes :
  middleware s = [] -> middlewareOnChanges s changes = Returns.
Proof.
  intros H. unfold middlewareOnChanges.
  induction changes as [|ch chs IH]; [reflexivity|]. simpl.
  rewrite runMiddleware_none by exact H.
  destruct (forEach _ chs) as [logs o]. simpl in *. exact IH.
Qed.

Lemma set_normal s path value st' :
  _setNestedValue (state s) path value = Some st' -> middleware s = [] ->
  exists calls, set s path value = (Normal, with_state s st', calls).
Proof.
  intros Hset Hmw. unfold set. rewrite Hset.
  rewrite runMiddleware_none by exact Hmw.
  pose proof (_notifySubscribers_returns (with_state s st') path value (get s path)) as Hr.
  destruct (_notifySubscribers _ _ _ _) as [calls o]. simpl in Hr. subst o.
  eauto.
Qed.

Lemma batchUpdate_normal s updates s' changes :
  writeAll s updates = (Normal, s', changes) -> middleware s = [] ->
  exists calls, batchUpdate s updates = (Normal, s', calls).
Proof.
  intros Hw Hmw. unfold batchUpdate. rewrite Hw.
  apply writeAll_frame in Hw as (_ & Hm & _).
  rewrite middlewareOnChanges_none by congruence.
  assert (Hr : snd (forEach (fun ch => _notifySubscribers s' (ch_path ch) (ch_value ch)
                                         (ch_oldValue ch)) changes) = Returns).
  { induction changes as [|ch chs IH]; [reflexivity|]. simpl.
    pose proof (_notifySubscribers_returns s' (ch_path ch) (ch_value ch) (ch_oldValue ch)) as Hn.
    destruct (_notifySubscribers _ _ _ _) as [log o]. simpl in Hn. subst o.
    destruct (forEach _ chs) as [logs o]. simpl in *. exact IH. }
  destruct (forEach _ changes) as [calls o]. simpl in Hr. subst o. eauto.
Qed.

Lemma user_write fields ufields key v :
  Js.getField "user" fields = Some (JObj ufields) ->
  setNested (JObj fields) ["user"] key v
  = Some (JObj (Js.setField "user" (JObj (Js.setField key v ufields)) fields)).
Proof. intros H. simpl. rewrite H. reflexivity. Qed.

Lemma userStore_with_state s fields ufields :
  middleware s = [] ->
  userStore (with_state s (JObj (Js.setField "user" (JObj ufields) fields))).
Proof.
  intros Hm. split; [|exact Hm]. eexists. eexists. split; [reflexivity|].
  apply getField_setField_eq.
Qed.

(** A write of the cooldown pair in one batch, on such a store. *)
Lemma cooldown_batch s isCooldown cooldownTime :
  userStore s ->
  exists s' calls,
    batchUpdate s [("user.isCooldown", isCooldown); ("user.cooldownTime", cooldownTime)]
    = (Normal, s', calls) /\
    userStore s' /\ cooldownPair (state s') = (isCooldown, cooldownTime).
Proof.
  intros [(fields & ufields & Hst & Hu) Hm].
  destruct (writeAll s [("user.isCooldown", isCooldown); ("user.cooldownTime", cooldownTime)])
    as [[c s'] changes] eqn:Hw.
  pose proof Hw as Hw0. simpl in Hw.
  unfold _setNestedValue in Hw. simpl Js.split_dot in Hw. simpl removelast in Hw.
  simpl List.last in Hw. rewrite Hst in Hw. rewrite (user_write _ _ _ _ Hu) in Hw.
  simpl state in Hw. rewrite (user_write _ _ _ _ (getField_setField_eq _ _ _)) in Hw.
  injection Hw as <- <- <-.
  destruct (batchUpdate_normal _ _ _ _ Hw0 Hm) as [calls Hb].
  eexists. eexists. split; [exact Hb|]. split.
  - apply userStore_with_state. exact Hm.
  - unfold cooldownPair, _getNestedValue. simpl.
    rewrite !getField_setField_eq. simpl. rewrite getField_setField_eq.
    rewrite getField_setField_ne by discriminate. rewrite getField_setField_eq.
    reflexivity.
Qed.

(** One write of [user.cooldownTime] on such a store. *)
Lemma cooldownTime_set s v :
  userStore s ->
  exists s' calls,
    set s "user.cooldownTime" v = (Normal, s', calls) /\
    userStore s' /\
    cooldownPair (state s') = (get s "user.isCooldown", v).
Proof.
  intros [(fields & ufields & Hst & Hu) Hm].
  assert (Hset : _setNestedValue (state s) "user.cooldownTime" v
                 = Some (JObj (Js.setField "user"
                                 (JObj (Js.setField "cooldownTime" v ufields)) fields))).
  { unfold _setNestedValue. simpl Js.split_dot. simpl removelast. simpl List.last.
    rewrite Hst. apply user_write, Hu. }
  destruct (set_normal _ _ _ _ Hset Hm) as [calls Hs].
  eexists. eexists. split; [exact Hs|]. split.
  - apply userStore_with_state. exact Hm.
  - unfold cooldownPair. simpl state. f_equal.
    + apply (cooldownTime_keeps_isCooldown _ _ _ Hset).
    + apply (_setNestedValue_read _ _ _ _ Hset).
Qed.

Lemma startCooldown_cooling cfg a :
  userStore (appState a) ->
  fst (startCooldown cfg a) = Normal /\
  cooling (snd (startCooldown cfg a)) (COOLDOWN_TIME cfg).
Proof.
  intros H. unfold startCooldown.
  destruct (cooldown_batch (appState a) (JBool true) (JNum (COOLDOWN_TIME cfg)) H)
    as (s' & calls & Hb & Hu & Hp).
  rewrite Hb. simpl. split; [reflexivity|]. split; [exact Hu|]. split; [reflexivity|exact Hp].
Qed.

Lemma tick_cooling a t :
  cooling a t ->
  fst (tick a) = Normal /\
  if (t - 1 <=? 0)%Z then idle (snd (tick a)) else cooling (snd (tick a)) (t - 1).
Proof.
  intros (Hu & Hi & Hp). unfold cooldownPair in Hp. injection Hp as Hp1 Hp2.
  unfold tick. rewrite Hi. unfold get. rewrite Hp2. simpl Js.sub1. simpl Js.le0.
  destruct (cooldownTime_set (appState a) (JNum (t - 1)) Hu)
    as (s1 & calls1 & Hs & Hu1 & Hq).
  rewrite Hs. simpl seq_store.
  destruct (t - 1 <=? 0)%Z.
  - unfold endCooldown. simpl appState.
    destruct (cooldown_batch s1 (JBool false) (JNum 0) Hu1)
      as (s2 & calls2 & Hb & Hu2 & Hq2).
    rewrite Hb. simpl. split; [reflexivity|]. split; [exact Hu2|]. split; [reflexivity|exact Hq2].
  - simpl. split; [reflexivity|]. split; [exact Hu1|]. split; [reflexivity|].
    simpl. rewrite Hq. unfold get. rewrite Hp1. reflexivity.
Qed.

Lemma tick_idle a : idle a -> tick a = (Normal, a).
Proof. intros (_ & Hi & _). unfold tick. rewrite Hi. reflexivity. Qed.

Lemma ticks_idle n : forall a, idle a -> ticks n a = a.
Proof.
  induction n as [|n IH]; intros a H; [reflexivity|].
  simpl. rewrite (tick_idle a H). simpl. apply IH, H.
Qed.

Lemma ticks_cooling n : forall a t,
  cooling a t -> (Z.of_nat n < t)%Z ->
  cooling (ticks n a) (t - Z.of_nat n).
Proof.
  induction n as [|n IH]; intros a t H Hn.
  - simpl ticks. replace (t - Z.of_nat 0)%Z with t by lia. exact H.
  - simpl ticks. destruct (tick_cooling a t H) as [_ Ht].
    destruct (t - 1 <=? 0)%Z eqn:E; [apply Z.leb_le in E; lia|].
    replace (t - Z.of_nat (S n))%Z with (t - 1 - Z.of_nat n)%Z by lia.
    apply IH; [exact Ht|lia].
Qed.

Lemma ticks_end n : forall a t,
  cooling a t -> (t <= Z.of_nat n)%Z -> (1 <= n)%nat -> idle (ticks n a).
Proof.
  induction n as [|n IH]; intros a t H Hn H1; [lia|].
  simpl ticks. destruct (tick_cooling a t H) as [_ Ht].
  destruct (t - 1 <=? 0)%Z eqn:E.
  - rewrite ticks_idle by exact Ht. exact Ht.
  - apply Z.leb_gt in E. apply (IH _ (t - 1)%Z Ht); lia.
Qed.

End CooldownFacts.

Section LegacyPointer.
Import PixelCanvasEvents.

Lemma PixelCanvas_handleMouseDown_scale cfg st x y :
  scale (PixelCanvas.handleMouseDown cfg st x y) = scale st.
Proof.
  unfold PixelCanvas.handleMouseDown. destruct (PixelCanvas.isValidPosition _ _ _); reflexivity.
Qed.

Lemma legacy_handle_scale cfg s ev :
  MIN_SCALE cfg <= scale (fst s) <= MAX_SCALE cfg ->
  MIN_SCALE cfg <= scale (fst (handle cfg s ev)) <= MAX_SCALE cfg.
Proof.
  intros H. destruct s as [st p]. simpl in H.
  destruct ev; simpl; try exact H.
  - destruct (button =? 2)%Z; simpl; [exact H|].
    rewrite PixelCanvas_handleMouseDown_scale. exact H.
  - destruct (isDragging p); exact H.
  - apply PixelCanvas_handleWheel_scale_bounds, H.
  - rewrite PixelCanvas_handleMouseDown_scale. exact H.
  - destruct (truthy (lastX p) && truthy (lastY p)); exact H.
  - destruct (lastTouchDistance p) as [d|]; [|exact H].
    destruct (Qeq_bool d 0); [exact H|].
    destruct (Qgeb _ _ && Qle_bool _ _); [|exact H].
    apply PixelCanvas_zoomTo_scale_bounds, H.
  - destruct touches; exact H.
Qed.

Lemma legacy_run_scale cfg evs : forall s,
  MIN_SCALE cfg <= scale (fst s) <= MAX_SCALE cfg ->
  MIN_SCALE cfg <= scale (fst (run cfg s evs)) <= MAX_SCALE cfg.
Proof.
  unfold run. induction evs as [|ev evs IH]; intros s H; simpl; [exact H|].
  apply IH, legacy_handle_scale, H.
Qed.



End LegacyPointer.

Section LegacyCooldown.
Import LegacyControls.

Lemma legacy_step_consistent cfg c ev :
  (1 <= COOLDOWN_TIME cfg)%Z ->
  consistent cfg c -> consistent cfg (step cfg c ev).
Proof.
  intros HT [Hi Hc]. destruct ev; simpl; try (split; assumption).
  - unfold confirm. destruct (isCooldown c) eqn:E.
    + unfold consistent. rewrite E. auto.
    + destruct (selected c) as [[x y]|].
      * split; simpl; [rewrite Hi; reflexivity|lia].
      * unfold consistent. rewrite E. auto.
  - unfold tick. destruct (intervals c) as [|others] eqn:En.
    + unfold consistent. rewrite En. auto.
    + destruct (isCooldown c) eqn:E; [|discriminate].
      injection Hi as ->.
      destruct (cooldown c - 1 <=? 0)%Z eqn:L; simpl.
      * apply Z.leb_le in L. split; [reflexivity|simpl; lia].
      * apply Z.leb_gt in L. split; simpl; [reflexivity|lia].
Qed.

Lemma legacy_step_paid cfg c ev ticks :
  (1 <= COOLDOWN_TIME cfg)%Z ->
  consistent cfg c -> paid cfg c ticks ->
  paid cfg (step cfg c ev) (ticks + (if isTick ev then 1 else 0)).
Proof.
  intros HT [Hi Hc] Hp. unfold paid in *.
  destruct ev; simpl; try (rewrite Z.add_0_r; exact Hp).
  - rewrite Z.add_0_r. unfold confirm. destruct (isCooldown c) eqn:E.
    + rewrite E. exact Hp.
    + destruct (selected c) as [[x y]|]; [|rewrite E; exact Hp].
      cbv iota in Hp, Hc. cbn [placed cooldown isCooldown]. rewrite length_app, Nat2Z.inj_add.
      change (Z.of_nat (length [(x, y, selectedColor c)])) with 1%Z. lia.
  - unfold tick. destruct (intervals c) as [|others] eqn:En.
    + destruct (isCooldown c); lia.
    + destruct (isCooldown c) eqn:E; [|discriminate].
      cbv iota in Hp, Hc.
      destruct (cooldown c - 1 <=? 0)%Z eqn:L; simpl.
      * apply Z.leb_le in L. lia.
      * lia.
Qed.

Lemma legacy_run_paid cfg evs : forall c ticks,
  (1 <= COOLDOWN_TIME cfg)%Z ->
  consistent cfg c -> paid cfg c ticks ->
  consistent cfg (run cfg c evs) /\
  paid cfg (run cfg c evs) (ticks + Z.of_nat (length (List.filter isTick evs))).
Proof.
  unfold run. induction evs as [|ev evs IH]; intros c ticks HT Hc Hp.
  - simpl. rewrite Z.add_0_r. auto.
  - cbn [fold_left]. 
    destruct (IH (step cfg c ev) _ HT (legacy_step_consistent cfg c ev HT Hc)
                 (legacy_step_paid cfg c ev ticks HT Hc Hp)) as [H1 H2].
    split; [exact H1|]. cbn [List.filter].
    destruct (isTick ev); simpl length in *.
    + replace (ticks + Z.of_nat (S (length (List.filter isTick evs))))%Z
        with (ticks + 1 + Z.of_nat (length (List.filter isTick evs)))%Z by lia.
      exact H2.
    + rewrite Z.add_0_r in H2. exact H2.
Qed.

Lemma legacy_run_sent cfg evs : forall c,
  (length (sent c) <= length (placed c))%nat ->
  (length (sent (run cfg c evs)) <= length (placed (run cfg c evs)))%nat.
Proof.
  unfold run. induction evs as [|ev evs IH]; intros c H0; [exact H0|].
  simpl. apply IH. destruct ev; simpl; try exact H0.
  - unfold confirm. destruct (isCooldown c); [exact H0|].
    destruct (selected c) as [[x y]|]; [|exact H0].
    simpl. unfold sendPixelUpdate.
    destruct (socketOpen c); rewrite ?length_app; simpl; lia.
  - unfold tick. destruct (intervals c); [exact H0|].
    destruct (_ <=? 0)%Z; exact H0.
Qed.

End LegacyCooldown.

Section FrameSampler.
Import PerformanceMonitor.

(** The last [n] elements of a list. *)
Lemma pushSample_window (samples : list Q) (x : Q) :
  (length samples <= maxSamples)%nat ->
  pushSample samples x
  = drop (length (samples ++ [x]) - maxSamples) (samples ++ [x]) /\
  (length (pushSample samples x) <= maxSamples)%nat.
Proof.
  intros H. unfold pushSample. cbv zeta. rewrite length_app. simpl length.
  destruct (maxSamples <? length samples + 1)%nat eqn:E.
  - apply Nat.ltb_lt in E.
    assert (L : length samples = maxSamples) by lia.
    replace (length samples + 1 - maxSamples)%nat with 1%nat by lia.
    destruct samples as [|s samples]; [discriminate L|].
    simpl. split; [reflexivity|]. rewrite length_app. simpl in *. lia.
  - apply Nat.ltb_ge in E.
    replace (length samples + 1 - maxSamples)%nat with 0%nat by lia.
    split; [reflexivity|]. rewrite length_app. simpl. lia.
Qed.

Lemma trackFrame_samples m t :
  frameTimeSamples (trackFrame m t)
  = if isRunning m then pushSample (frameTimeSamples m) (t - lastFrameTime m)
    else frameTimeSamples m.
Proof.
  unfold trackFrame. destruct (isRunning m); [|reflexivity].
  cbv zeta. destruct (Qle_bool _ _); reflexivity.
Qed.

Lemma drop_drop_window (l : list Q) (x : Q) (n : nat) :
  drop (length (drop (length l - n) l ++ [x]) - n) (drop (length l - n) l ++ [x])
  = drop (length (l ++ [x]) - n) (l ++ [x]).
Proof.
  rewrite !length_app, length_drop. simpl length.
  destruct (le_lt_dec (length l) n) as [H|H].
  - replace (length l - n)%nat with 0%nat by lia. rewrite drop_0.
    replace (length l - 0)%nat with (length l) by lia. reflexivity.
  - replace (length l - (length l - n) + 1 - n)%nat with 1%nat by lia.
    replace (length l + 1 - n)%nat with (length l - n + 1)%nat by lia.
    rewrite <- (drop_app_le l [x] (length l - n)) by lia.
    apply drop_drop.
Qed.

Lemma run_window timestamps : forall m older,
  frameTimeSamples m = drop (length older - maxSamples) older ->
  frameTimeSamples (run m timestamps)
  = drop (length (older ++ frameTimes m timestamps) - maxSamples)
         (older ++ frameTimes m timestamps).
Proof.
  unfold run. induction timestamps as [|t ts IH]; intros m older H.
  - simpl. rewrite app_nil_r. exact H.
  - cbn [fold_left frameTimes].
    destruct (isRunning m) eqn:R.
    + rewrite (IH (trackFrame m t) (older ++ [t - lastFrameTime m])).
      * rewrite <- app_assoc. reflexivity.
      * rewrite trackFrame_samples, R.
        assert (L : (length (frameTimeSamples m) <= maxSamples)%nat).
        { rewrite H, length_drop. lia. }
        rewrite (proj1 (pushSample_window _ _ L)), H. apply drop_drop_window.
    + rewrite (IH (trackFrame m t) older).
      * reflexivity.
      * rewrite trackFrame_samples, R. exact H.
Qed.

End FrameSampler.

Section PlacementFacts.
Import StateManager Placement.

Lemma isObject_inv v : isObject v -> exists fields, v = JObj fields.
Proof. destruct v; simpl; intros H; try contradiction. eauto. Qed.

Lemma prop_object fields k :
  isObject (Js.prop (JObj fields) k) ->
  exists sub, Js.getField k fields = Some (JObj sub).
Proof.
  simpl. destruct (Js.getField k fields) as [v|]; simpl; [|contradiction].
  intros H. apply isObject_inv in H as [sub ->]. eauto.
Qed.

Lemma prop_setField fields k k' v :
  Js.prop (JObj (Js.setField k v fields)) k'
  = if String.eqb k k' then v else Js.prop (JObj fields) k'.
Proof.
  simpl. destruct (String.eqb k k') eqn:E.
  - apply String.eqb_eq in E. subst. rewrite getField_setField_eq. reflexivity.
  - apply String.eqb_neq in E. rewrite getField_setField_ne by exact E. reflexivity.
Qed.

(** A write one level below [canvas], [user] or [ui]. *)
Lemma placed_write s path k leaf v :
  placementStore s -> Js.split_dot path = [k; leaf] ->
  k = "canvas" \/ k = "user" \/ k = "ui" ->
  exists st',
    _setNestedValue (state s) path v = Some st' /\
    placementStore (with_state s st') /\
    _getNestedValue st' path = v /\
    (forall path', diverge (Js.split_dot path) (Js.split_dot path') ->
       _getNestedValue st' path' = _getNestedValue (state s) path').
Proof.
  intros (Hm & Ho & Hc & Hu & Hi) Hp Hk.
  apply isObject_inv in Ho as [fields Hs]. rewrite Hs in *.
  assert (Hsub : exists sub, Js.getField k fields = Some (JObj sub)).
  { destruct Hk as [-> | [-> | ->]]; apply prop_object; assumption. }
  destruct Hsub as [sub Hsub].
  assert (Hset : _setNestedValue (JObj fields) path v
                 = Some (JObj (Js.setField k (JObj (Js.setField leaf v sub)) fields))).
  { unfold _setNestedValue. rewrite Hp. simpl. rewrite Hsub. reflexivity. }
  eexists. split; [exact Hset|]. split; [|split].
  - split; [exact Hm|]. split; [exact I|]. simpl state.
    rewrite !prop_setField.
    destruct Hk as [-> | [-> | ->]]; simpl String.eqb; cbv iota; repeat split;
      simpl; trivial.
  - eapply _setNestedValue_read, Hset.
  - intros path' D. eapply _setNestedValue_frame; [exact Hset|exact D].
Qed.

Lemma placed_set s path k leaf v :
  placementStore s -> Js.split_dot path = [k; leaf] ->
  k = "canvas" \/ k = "user" \/ k = "ui" ->
  exists s' calls,
    set s path v = (Normal, s', calls) /\
    placementStore s' /\
    get s' path = v /\
    (forall path', diverge (Js.split_dot path) (Js.split_dot path') ->
       get s' path' = get s path').
Proof.
  intros Hs Hp Hk.
  destruct (placed_write s path k leaf v Hs Hp Hk) as (st' & Hset & Hs' & Hr & Hf).
  destruct (set_normal s path v st' Hset (proj1 Hs)) as [calls Hc].
  exists (with_state s st'), calls. auto.
Qed.

Lemma placed_cooldown s v1 v2 :
  placementStore s ->
  exists s' calls,
    batchUpdate s [("user.isCooldown", v1); ("user.cooldownTime", v2)]
    = (Normal, s', calls) /\
    placementStore s' /\
    PixelBattleApp.cooldownPair (state s') = (v1, v2) /\
    (forall path',
       diverge (Js.split_dot "user.isCooldown") (Js.split_dot path') ->
       diverge (Js.split_dot "user.cooldownTime") (Js.split_dot path') ->
       get s' path' = get s path').
Proof.
  intros Hs.
  destruct (placed_write s "user.isCooldown" "user" "isCooldown" v1 Hs eq_refl)
    as (st1 & Hset1 & Hs1 & Hr1 & Hf1); [auto|].
  destruct (placed_write (with_state s st1) "user.cooldownTime" "user" "cooldownTime" v2
              Hs1 eq_refl) as (st2 & Hset2 & Hs2 & Hr2 & Hf2); [auto|].
  simpl state in Hset2, Hf2.
  assert (Hw : writeAll s [("user.isCooldown", v1); ("user.cooldownTime", v2)]
               = (Normal, with_state (with_state s st1) st2,
                  [{| ch_path := "user.isCooldown"; ch_value := v1;
                      ch_oldValue := get s "user.isCooldown" |};
                   {| ch_path := "user.cooldownTime"; ch_value := v2;
                      ch_oldValue := get (with_state s st1) "user.cooldownTime" |}])).
  { simpl. rewrite Hset1. simpl. rewrite Hset2. reflexivity. }
  destruct (batchUpdate_normal _ _ _ _ Hw (proj1 Hs)) as [calls Hb].
  eexists. eexists. split; [exact Hb|]. split; [exact Hs2|]. split.
  - unfold PixelBattleApp.cooldownPair. simpl state. f_equal; [|exact Hr2].
    rewrite Hf2; [exact Hr1|]. simpl. right. split; [reflexivity|]. left. discriminate.
  - intros path' D1 D2. unfold get. simpl state. rewrite (Hf2 _ D2). apply Hf1, D1.
Qed.

Lemma run_store_normal a s' calls :
  run_store a (Normal, s', calls)
  = (Normal, with_core a {| PixelBattleApp.appState := s';
                            PixelBattleApp.interval := PixelBattleApp.interval (core a);
                            PixelBattleApp.calls := PixelBattleApp.calls (core a) ++ calls |}).
Proof. reflexivity. Qed.

(** One notification on such a store. *)
Lemma show_appends e a message type duration ns :
  placementStore (store a) ->
  get (store a) "ui.notifications" = JArr ns ->
  exists a',
    show e a message type duration = (Normal, a') /\
    placementStore (store a') /\
    get (store a') "ui.notifications"
    = JArr (ns ++ [notification (freshId e) message type duration]) /\
    (forall path', diverge (Js.split_dot "ui.notifications") (Js.split_dot path') ->
       get (store a') path' = get (store a) path') /\
    manager a' = manager a /\ isConnected a' = isConnected a /\
    PixelBattleApp.interval (core a') = PixelBattleApp.interval (core a).
Proof.
  intros Hs Hn. unfold show. rewrite Hn. simpl current.
  destruct (placed_set (store a) "ui.notifications" "ui" "notifications"
              (JArr (ns ++ [notification (freshId e) message type duration])) Hs eq_refl)
    as (s' & calls & Hset & Hs' & Hr & Hf); [auto|].
  rewrite Hset, run_store_normal.
  eexists. split; [reflexivity|].
  split; [exact Hs'|]. split; [exact Hr|]. split; [exact Hf|].
  split; [reflexivity|]. split; reflexivity.
Qed.

End PlacementFacts.

(** * Further properties of the code *)

(** ** The viewport *)

Section ViewportExtras.
Import InputController RenderEngine.

(** X1.  Whatever the user does, [canvas.scale] stays within the limits that
    [zoomAtPoint] hard-codes: from a scale between 0.1 and 20, every sequence
    of wheel, pinch, keyboard, drag, click and tap inputs leaves it between
    0.1 and 20.  In particular the scale is never zero, so the cell size
    [PIXEL_SIZE * scale] that [screenToCanvas] divides by is non-zero for a
    non-zero [PIXEL_SIZE]. *)
Theorem X1_scale_within_hard_limits cfg pg st inputs :
  1 # 10 <= scale st <= 20 ->
  1 # 10 <= scale (run cfg pg st inputs) <= 20 /\
  0 < scale (run cfg pg st inputs).
Proof.
  intros H. pose proof (run_scale_hard_bounds cfg pg inputs st H) as H'.
  split; [exact H'|lra].
Qed.

Lemma X1_scale_within_hard_limits_witness :
  1 # 10 <= scale (initialCanvas 60) <= 20 /\
  0 < scale (run CONFIG desktopPage (initialCanvas 60)
               (repeat KeyMinus 30 ++ [Wheel 100 100 (-3); KeyDigit0])).
Proof.
  assert (H : 1 # 10 <= scale (initialCanvas 60) <= 20)
    by (split; vm_compute; discriminate).
  split; [exact H|].
  apply (X1_scale_within_hard_limits CONFIG desktopPage (initialCanvas 60) _ H).
Defined.

(** X2.  The canvas cannot be panned or zoomed out of reach.  With a
    non-negative header height, the initial offsets (0, headerHeight) lie in
    the interval of the offset clamp, and every input keeps them there.  On an
    axis where the scaled canvas is larger than the visible extent the
    interval is [final - logical * scale, 0] (so the canvas covers the whole
    visible width); otherwise it is symmetric, of half-width the slack
    [final - logical * scale] (around the header line on the vertical
    axis). *)
Theorem X2_offsets_stay_in_range cfg pg :
  0 <= headerHeight pg ->
  offsetsInRange cfg pg (initialCanvas (headerHeight pg)) /\
  (forall st inputs,
     offsetsInRange cfg pg st -> offsetsInRange cfg pg (run cfg pg st inputs)) /\
  (forall st,
     offsetsInRange cfg pg st ->
     finalWidth pg < logicalCanvasWidth cfg * scale st ->
     offsetX st <= 0 /\ finalWidth pg <= offsetX st + logicalCanvasWidth cfg * scale st).
Proof.
  intros Hh. split; [|split].
  - apply initialCanvas_inRange, Hh.
  - intros st inputs H. apply handle_run_inRange; assumption.
  - intros st [HX _] Hl. unfold inRangeX in HX.
    apply Qgtb_true in Hl as E. rewrite E in HX. lra.
Qed.

Lemma X2_offsets_stay_in_range_witness :
  0 <= headerHeight desktopPage /\
  offsetsInRange CONFIG desktopPage
    (run CONFIG desktopPage (initialCanvas (headerHeight desktopPage))
       [KeyArrowLeft; Wheel 400 300 (-1); KeyArrowDown]) /\
  offsetX (run CONFIG desktopPage (initialCanvas (headerHeight desktopPage))
             [KeyArrowLeft; Wheel 400 300 (-1); KeyArrowDown]) <= 0.
Proof.
  assert (Hh : 0 <= headerHeight desktopPage) by (vm_compute; discriminate).
  destruct (X2_offsets_stay_in_range CONFIG desktopPage Hh) as (H0 & Hrun & Hcover).
  split; [exact Hh|].
  pose proof (Hrun _ [KeyArrowLeft; Wheel 400 300 (-1); KeyArrowDown] H0) as H1.
  split; [exact H1|].
  apply (Hcover _ H1). vm_compute. reflexivity.
Defined.

(** X3.  A pan is applied exactly when its target is within the clamp
    interval.  [moveCanvas] keeps the scale and the selection, leaves the
    offsets in range, and on each axis the new offset equals the old one plus
    the delta if and only if that sum lies in the interval of the axis. *)
Theorem X3_pan_exact_within_range cfg pg st dx dy :
  0 <= headerHeight pg ->
  let st' := moveCanvas cfg pg st dx dy in
  scale st' = scale st /\ selectedPixel st' = selectedPixel st /\
  offsetsInRange cfg pg st' /\
  (inRangeX (logicalCanvasWidth cfg) (scale st) (finalWidth pg) (offsetX st + dx) <->
   offsetX st' == offsetX st + dx) /\
  (inRangeY (logicalCanvasHeight cfg) (scale st) (finalHeight pg) (headerHeight pg)
            (offsetY st + dy) <->
   offsetY st' == offsetY st + dy).
Proof.
  intros Hh st'. split; [reflexivity|]. split; [reflexivity|]. split; [|split].
  - split; cbn [st' moveCanvas scale offsetX offsetY].
    + apply clampOffsetX_inRange.
    + apply clampOffsetY_inRange, Hh.
  - apply clampOffsetX_fixed.
  - apply clampOffsetY_fixed, Hh.
Qed.

Lemma X3_pan_exact_within_range_witness :
  0 <= headerHeight desktopPage /\
  offsetX (moveCanvas CONFIG desktopPage (initialCanvas 60) (-50) 0) == -50 /\
  ~ offsetX (moveCanvas CONFIG desktopPage (initialCanvas 60) 50 0) == 50.
Proof.
  assert (Hh : 0 <= headerHeight desktopPage) by (vm_compute; discriminate).
  split; [exact Hh|]. split.
  - apply (proj1 (proj2 (proj2 (proj2
             (X3_pan_exact_within_range CONFIG desktopPage (initialCanvas 60) (-50) 0 Hh))))).
    vm_compute. split; discriminate.
  - intros E.
    apply (proj1 (proj2 (proj2 (proj2
             (X3_pan_exact_within_range CONFIG desktopPage (initialCanvas 60) 50 0 Hh))))) in E.
    vm_compute in E. destruct E as [_ E]. apply E. reflexivity.
Defined.

(** X4.  The selected pixel is always a cell of the grid: if
    [canvas.selectedPixel] is null or within 0 <= x < CANVAS_WIDTH and
    0 <= y < CANVAS_HEIGHT, it is so after every sequence of inputs. *)
Theorem X4_selection_always_on_grid cfg pg st inputs :
  (forall x y, selectedPixel st = Some (x, y) ->
     (0 <= x < CANVAS_WIDTH cfg)%Z /\ (0 <= y < CANVAS_HEIGHT cfg)%Z) ->
  forall x y, selectedPixel (run cfg pg st inputs) = Some (x, y) ->
    (0 <= x < CANVAS_WIDTH cfg)%Z /\ (0 <= y < CANVAS_HEIGHT cfg)%Z.
Proof.
  intros H x y Hs.
  assert (V : validSelection cfg st).
  { unfold validSelection. destruct (selectedPixel st) as [[a b]|]; [|exact I].
    apply isValidCanvasPosition_spec, H. reflexivity. }
  pose proof (run_validSelection cfg pg inputs st V) as V'.
  unfold validSelection in V'. rewrite Hs in V'.
  apply isValidCanvasPosition_spec, V'.
Qed.

Lemma X4_selection_always_on_grid_witness :
  (forall x y, selectedPixel (initialCanvas 60) = Some (x, y) ->
     (0 <= x < CANVAS_WIDTH CONFIG)%Z /\ (0 <= y < CANVAS_HEIGHT CONFIG)%Z) /\
  selectedPixel (run CONFIG desktopPage (initialCanvas 60)
                   [Click false 100 220; Click false 100 100; KeyEqual])
    = Some (20, 20)%Z /\
  (0 <= 20 < CANVAS_WIDTH CONFIG)%Z /\ (0 <= 20 < CANVAS_HEIGHT CONFIG)%Z.
Proof.
  assert (H : forall x y, selectedPixel (initialCanvas 60) = Some (x, y) ->
                (0 <= x < CANVAS_WIDTH CONFIG)%Z /\ (0 <= y < CANVAS_HEIGHT CONFIG)%Z)
    by (intros x y E; discriminate E).
  assert (Hs : selectedPixel (run CONFIG desktopPage (initialCanvas 60)
                                [Click false 100 220; Click false 100 100; KeyEqual])
               = Some (20, 20)%Z) by (vm_compute; reflexivity).
  split; [exact H|]. split; [exact Hs|].
  exact (X4_selection_always_on_grid CONFIG desktopPage (initialCanvas 60) _ H 20%Z 20%Z Hs).
Defined.


(** With a context that scales by at least 1, what the element shows lies
    within the rectangle the culling test compares with. *)
Lemma shown_isPixelInViewport cv ratio x y size :
  1 <= ratio -> 0 <= size -> shown cv ratio x y size ->
  isPixelInViewport cv x y size = true.
Proof.
  intros Hr Hs (u & v & Hu & Hur & Hv & Hvr).
  assert (U : 0 <= u) by nra.
  assert (V : 0 <= v) by nra.
  apply isPixelInViewport_spec; [exact Hs|nra|nra|].
  exists u, v. repeat split; try tauto; nra.
Qed.

Lemma updateCanvasSize_ratio rw rh dpr :
  1 <= dpr -> snd (updateCanvasSize rw rh dpr) = dpr.
Proof.
  intros H. unfold updateCanvasSize.
  destruct (Qeq_bool dpr 0) eqn:E; [|reflexivity].
  apply Qeq_bool_iff in E. lra.
Qed.

(** X6.  Culling and the device pixel ratio.  [isPixelInViewport] holds
    exactly when the closed square of the cell meets the rectangle from 0 to
    [canvas.width] and to [canvas.height], taken in drawing coordinates.  The
    element shows the drawing coordinates whose image under the context's
    scale lies on the bitmap.  So with a scale of at least 1, as
    [updateCanvasSize] leaves it for a [devicePixelRatio] of at least 1, a
    cell that meets what is shown is never culled; for a ratio below 1 it can
    be: with a rectangle 1600 wide and a ratio of 1/2 the cell drawn at
    abscissa 1000 is shown and culled.  For a map holding the listed cells
    under the keys [handlePixelUpdate] builds, [renderPixels] fills, in
    iteration order, the rectangle of every cell that passes the test, in its
    colour, and counts the others as culled. *)
Theorem X6_culling_keeps_visible_cells cfg cv st :
  (forall x y size,
     0 <= size -> 0 <= width cv -> 0 <= height cv ->
     (isPixelInViewport cv x y size = true <->
      exists u v, (x <= u <= x + size) /\ (0 <= u <= width cv) /\
                  (y <= v <= y + size) /\ (0 <= v <= height cv))) /\
  (forall ratio x y size,
     1 <= ratio -> 0 <= size -> shown cv ratio x y size ->
     isPixelInViewport cv x y size = true) /\
  (forall rect_width rect_height devicePixelRatio x y size,
     0 <= rect_width -> rect_width * devicePixelRatio < 2147483648 ->
     0 <= rect_height -> rect_height * devicePixelRatio < 2147483648 ->
     1 <= devicePixelRatio -> 0 <= size ->
     let resized := updateCanvasSize rect_width rect_height devicePixelRatio in
     shown (fst resized) (snd resized) x y size ->
     isPixelInViewport (fst resized) x y size = true) /\
  (let resized := updateCanvasSize 1600 900 (1 # 2) in
   shown (fst resized) (snd resized) 1000 0 5 /\
   isPixelInViewport (fst resized) 1000 0 5 = false) /\
  (forall cells : list (Z * Z * JsVal),
     renderPixels cfg cv st (entries cells)
     = Some (map (fun c => (snd c, pixelRect cfg st (fst c)))
                 (List.filter (visible cfg cv st) cells),
             length (List.filter (visible cfg cv st) cells),
             length (List.filter (fun c => negb (visible cfg cv st c)) cells))).
Proof.
  split; [intros x y size; apply isPixelInViewport_spec|].
  split; [intros ratio x y size; apply shown_isPixelInViewport|].
  split.
  { intros rw rh dpr x y size _ _ _ _ Hd Hs resized Hshown.
    apply (shown_isPixelInViewport (fst resized) (snd resized)); [|exact Hs|exact Hshown].
    unfold resized. rewrite updateCanvasSize_ratio by exact Hd. exact Hd. }
  split; [|apply renderPixels_entries].
  split; [|reflexivity].
  exists 1000, 0. vm_compute. repeat split; discriminate.
Qed.

Lemma X6_culling_keeps_visible_cells_witness :
  let resized := updateCanvasSize 1620 1020 (3 # 2) in
  1 <= 3 # 2 /\ 0 <= 5 /\
  fst resized = {| width := 2430; height := 1530 |} /\
  shown (fst resized) (snd resized) 1618 1019 5 /\
  isPixelInViewport (fst resized) 1618 1019 5 = true.
Proof.
  intros resized.
  assert (H1 : 1 <= 3 # 2) by discriminate.
  assert (H2 : 0 <= 5) by discriminate.
  assert (W1 : 0 <= 1620) by discriminate.
  assert (W2 : 1620 * (3 # 2) < 2147483648) by reflexivity.
  assert (W3 : 0 <= 1020) by discriminate.
  assert (W4 : 1020 * (3 # 2) < 2147483648) by reflexivity.
  assert (H3 : shown (fst resized) (snd resized) 1618 1019 5).
  { exists 1620, 1020. vm_compute. repeat split; discriminate. }
  split; [exact H1|]. split; [exact H2|]. split; [reflexivity|]. split; [exact H3|].
  exact (proj1 (proj2 (proj2 (X6_culling_keeps_visible_cells CONFIG (fst resized)
                                (initialCanvas 60))))
           1620 1020 (3 # 2) 1618 1019 5 W1 W2 W3 W4 H1 H2 H3).
Defined.

(** X7.  What the background shows.  After [renderBackground], a point of
    the canvas surface is white if it lies in the rectangle of the logical
    canvas (at the offset, [CANVAS_WIDTH * PIXEL_SIZE * scale] wide and
    [CANVAS_HEIGHT * PIXEL_SIZE * scale] high) and gray otherwise; the four
    gray strips never paint over the canvas.  With a non-negative cell size,
    the rectangle of every cell of the grid lies inside the white rectangle. *)
Theorem X7_background cfg cv st :
  ("#FFFFFF", whiteRect cfg st) ∈ renderBackground cfg cv st /\
  (forall u v,
     0 <= u < width cv -> 0 <= v < height cv ->
     colorAt (renderBackground cfg cv st) u v
     = Some (if covers (whiteRect cfg st) u v then "#FFFFFF" else "#808080")) /\
  (forall cell,
     (0 <= PIXEL_SIZE cfg)%Z -> 0 <= scale st ->
     isValidCanvasPosition cfg cell = true ->
     let r := pixelRect cfg st cell in
     let w := whiteRect cfg st in
     r_x w <= r_x r /\ r_x r + r_w r <= r_x w + r_w w /\
     r_y w <= r_y r /\ r_y r + r_h r <= r_y w + r_h w).
Proof.
  split; [|split].
  - unfold renderBackground. cbv zeta. right. left.
  - intros u v. apply renderBackground_colorAt.
  - intros cell. apply pixelRect_in_whiteRect.
Qed.

Lemma X7_background_witness :
  let cv := {| width := 800; height := 600 |} in
  let st := {| scale := 1 # 10; offsetX := 100; offsetY := 60; selectedPixel := None |} in
  (0 <= 400 < width cv) /\ (0 <= 100 < height cv) /\
  colorAt (renderBackground CONFIG cv st) 400 100 = Some "#FFFFFF" /\
  (0 <= 400 < width cv) /\ (0 <= 30 < height cv) /\
  colorAt (renderBackground CONFIG cv st) 400 30 = Some "#808080" /\
  (0 <= PIXEL_SIZE CONFIG)%Z /\ 0 <= scale st /\
  r_x (whiteRect CONFIG st) <= r_x (pixelRect CONFIG st (1599, 399)%Z).
Proof.
  intros cv st.
  destruct (X7_background CONFIG cv st) as (_ & Hc & Hr).
  assert (Hu : 0 <= 400 < width cv) by (split; [discriminate|reflexivity]).
  assert (Hv : 0 <= 100 < height cv) by (split; [discriminate|reflexivity]).
  assert (Hv' : 0 <= 30 < height cv) by (split; [discriminate|reflexivity]).
  assert (Hp : (0 <= PIXEL_SIZE CONFIG)%Z) by (simpl; lia).
  assert (Hs : 0 <= scale st) by discriminate.
  split; [exact Hu|]. split; [exact Hv|].
  split; [rewrite (Hc 400 100 Hu Hv); reflexivity|].
  split; [exact Hu|]. split; [exact Hv'|].
  split; [rewrite (Hc 400 30 Hu Hv'); reflexivity|].
  split; [exact Hp|]. split; [exact Hs|].
  apply (Hr (1599, 399)%Z Hp Hs). reflexivity.
Defined.

(** X8.  The key of a cell in the pixel map is a faithful code.  The string
    [handlePixelUpdate] and [handleInitMessage] build for integer coordinates
    (x, y) is read back by [renderPixels] ([split(',')] then [Number]) as the
    same (x, y); hence two cells share a key only if they are the same
    cell. *)
Theorem X8_pixel_key_codec :
  (forall x y : Z,
     coords (WebSocketManager.pixelKey (JNum x) (JNum y)) = Some (x, y)) /\
  (forall x y x' y' : Z,
     WebSocketManager.pixelKey (JNum x) (JNum y)
     = WebSocketManager.pixelKey (JNum x') (JNum y') ->
     x = x' /\ y = y').
Proof. split; [apply coords_pixelKey|apply pixelKey_inj]. Qed.

Lemma X8_pixel_key_codec_witness :
  coords "-12,340" = Some (-12, 340)%Z /\
  WebSocketManager.pixelKey (JNum 7) (JNum 0) = "7,0" /\
  (7 = 7 /\ 0 = 0)%Z.
Proof.
  split; [exact (proj1 X8_pixel_key_codec (-12)%Z 340%Z)|].
  split; [reflexivity|].
  exact (proj2 X8_pixel_key_codec 7%Z 0%Z 7%Z 0%Z eq_refl).
Defined.

(** X9.  What [centerCanvas] of the input controller does.  It keeps the
    scale and the selection.  Horizontally, a canvas that fits the visible
    width gets equal margins on both sides, and one that does not is aligned
    to the left edge (offset 0), not centred.  The offsets it writes are
    fixed points of the offset clamp, so a later pan of zero or a zoom that
    changes nothing leaves them alone; with a non-negative header height they
    lie in the clamp interval. *)
Theorem X9_centerCanvas cfg pg st :
  let st' := centerCanvas cfg pg st in
  scale st' = scale st /\ selectedPixel st' = selectedPixel st /\
  (logicalCanvasWidth cfg * scale st <= finalWidth pg ->
   offsetX st' == (finalWidth pg - logicalCanvasWidth cfg * scale st) / 2 /\
   finalWidth pg - (offsetX st' + logicalCanvasWidth cfg * scale st) == offsetX st') /\
  (finalWidth pg < logicalCanvasWidth cfg * scale st -> offsetX st' = 0) /\
  clampX cfg pg (scale st') (offsetX st') = offsetX st' /\
  clampY cfg pg (scale st') (offsetY st') = offsetY st' /\
  (0 <= headerHeight pg -> offsetsInRange cfg pg st').
Proof.
  intros st'. split; [reflexivity|]. split; [reflexivity|].
  split; [|split; [|split; [|split]]].
  - intros H. pose proof (centerCanvas_fits_horizontally cfg pg st H) as E.
    split; [exact E|]. fold st' in E. rewrite E. field.
  - apply centerCanvas_larger.
  - unfold st', centerCanvas, clampX, clampOffsetX. cbn [scale offsetX].
    destruct (Qgtb _ _) eqn:E; [apply Qgtb_true in E | apply Qgtb_false in E];
      cbv zeta; minmax_cases; try reflexivity; lra.
  - unfold st', centerCanvas, clampY, clampOffsetY. cbn [scale offsetY].
    destruct (Qgtb _ _) eqn:E; [apply Qgtb_true in E | apply Qgtb_false in E];
      cbv zeta; minmax_cases; try reflexivity; lra.
  - apply centerCanvas_inRange.
Qed.

Lemma X9_centerCanvas_witness :
  let small := {| scale := 1 # 10; offsetX := 7; offsetY := 7; selectedPixel := None |} in
  let large := {| scale := 1; offsetX := 7; offsetY := 7; selectedPixel := None |} in
  logicalCanvasWidth CONFIG * scale small <= finalWidth desktopPage /\
  offsetX (centerCanvas CONFIG desktopPage small) == 410 /\
  finalWidth desktopPage < logicalCanvasWidth CONFIG * scale large /\
  offsetX (centerCanvas CONFIG desktopPage large) = 0 /\
  0 <= headerHeight desktopPage /\
  offsetsInRange CONFIG desktopPage (centerCanvas CONFIG desktopPage large).
Proof.
  intros small large.
  assert (H1 : logicalCanvasWidth CONFIG * scale small <= finalWidth desktopPage)
    by (vm_compute; discriminate).
  assert (H2 : finalWidth desktopPage < logicalCanvasWidth CONFIG * scale large)
    by (vm_compute; reflexivity).
  assert (H3 : 0 <= headerHeight desktopPage) by (vm_compute; discriminate).
  destruct (X9_centerCanvas CONFIG desktopPage small) as (_ & _ & Hs & _).
  destruct (X9_centerCanvas CONFIG desktopPage large) as (_ & _ & _ & Hl & _ & _ & Hr).
  split; [exact H1|]. split; [rewrite (proj1 (Hs H1)); reflexivity|].
  split; [exact H2|]. split; [exact (Hl H2)|]. split; [exact H3|exact (Hr H3)].
Defined.

(** X10.  What [centerCanvas] of the application does.  It returns without
    writing exactly when the container rectangle has a non-positive side and
    still has one after the forced resize.  Whatever it writes keeps the
    top-left corner of the canvas inside the view: offsetX >= 0 and
    offsetY >= headerHeight.  With a container of positive size, a non-zero
    scale and a non-negative header height, the offsets it writes are
    accepted unchanged by the offset clamp of the input controller. *)
Theorem X10_app_centerCanvas cfg pg :
  (forall containerRect newRect s,
     PixelBattleAppCanvas.centerCanvas cfg pg containerRect newRect s = None <->
     (fst containerRect <= 0 \/ snd containerRect <= 0) /\
     ~ (0 < fst newRect /\ 0 < snd newRect)) /\
  (forall containerRect newRect s cx cy,
     PixelBattleAppCanvas.centerCanvas cfg pg containerRect newRect s = Some (cx, cy) ->
     0 <= cx /\ headerHeight pg <= cy) /\
  (forall w h newRect s,
     containerRect pg = Some (w, h) -> 0 < w -> 0 < h -> ~ s == 0 ->
     0 <= headerHeight pg ->
     exists cx cy,
       PixelBattleAppCanvas.centerCanvas cfg pg (w, h) newRect s = Some (cx, cy) /\
       clampX cfg pg s cx == cx /\ clampY cfg pg s cy == cy).
Proof.
  split; [|split].
  - intros [w h] [nw nh] s. unfold PixelBattleAppCanvas.centerCanvas. cbv zeta.
    cbn [fst snd].
    destruct ((Qle_bool w 0 || Qle_bool h 0) && negb (Qgtb nw 0 && Qgtb nh 0)) eqn:E.
    + split; [intros _|reflexivity].
      apply andb_true_iff in E as [E1 E2]. apply orb_true_iff in E1.
      rewrite !Qle_bool_iff in E1. split; [exact E1|].
      apply negb_true_iff, andb_false_iff in E2. rewrite !Qgtb_false in E2.
      intros [? ?]. destruct E2; lra.
    + split; [discriminate|]. intros [H1 H2]. exfalso.
      apply andb_false_iff in E as [E|E].
      * apply orb_false_iff in E as [Ea Eb].
        destruct H1 as [H1|H1]; apply Qle_bool_iff in H1; congruence.
      * apply negb_false_iff, andb_true_iff in E as [Ea Eb].
        apply Qgtb_true in Ea, Eb. apply H2. split; assumption.
  - intros containerRect newRect s cx cy. apply app_centerCanvas_visible.
  - intros w h newRect s. apply app_centerCanvas_clamped.
Qed.

Lemma X10_app_centerCanvas_witness :
  (fst (0, 1020) <= 0 \/ snd (0, 1020) <= 0) /\ ~ (0 < fst (0, 0) /\ 0 < snd (0, 0)) /\
  PixelBattleAppCanvas.centerCanvas CONFIG desktopPage (0, 1020) (0, 0) 1 = None /\
  PixelBattleAppCanvas.centerCanvas CONFIG desktopPage (1620, 1020) (0, 0) (1 # 10)
    = Some (8200 # 20, 8200 # 20) /\
  0 <= 8200 # 20 /\ headerHeight desktopPage <= 8200 # 20 /\
  containerRect desktopPage = Some (1620, 1020) /\ 0 < 1620 /\ 0 < 1020 /\
  ~ (1 # 10) == 0 /\ 0 <= headerHeight desktopPage /\
  (exists cx cy,
     PixelBattleAppCanvas.centerCanvas CONFIG desktopPage (1620, 1020) (0, 0) (1 # 10)
       = Some (cx, cy) /\
     clampX CONFIG desktopPage (1 # 10) cx == cx /\
     clampY CONFIG desktopPage (1 # 10) cy == cy).
Proof.
  destruct (X10_app_centerCanvas CONFIG desktopPage) as (Hn & Hv & Hc).
  assert (A1 : fst (0, 1020) <= 0 \/ snd (0, 1020) <= 0) by (left; discriminate).
  assert (A2 : ~ (0 < fst (0, 0) /\ 0 < snd (0, 0))) by (intros [H _]; discriminate H).
  assert (A3 : PixelBattleAppCanvas.centerCanvas CONFIG desktopPage (1620, 1020) (0, 0) (1 # 10)
               = Some (8200 # 20, 8200 # 20)) by (vm_compute; reflexivity).
  assert (A4 : containerRect desktopPage = Some (1620, 1020)) by reflexivity.
  assert (A5 : 0 < 1620) by reflexivity.
  assert (A6 : 0 < 1020) by reflexivity.
  assert (A7 : ~ (1 # 10) == 0) by discriminate.
  assert (A8 : 0 <= headerHeight desktopPage) by (vm_compute; discriminate).
  split; [exact A1|]. split; [exact A2|].
  split; [apply (proj2 (Hn (0, 1020) (0, 0) 1)); split; assumption|].
  split; [exact A3|].
  destruct (Hv _ _ _ _ _ A3) as [B1 B2].
  split; [exact B1|]. split; [exact B2|].
  split; [exact A4|]. split; [exact A5|]. split; [exact A6|].
  split; [exact A7|]. split; [exact A8|].
  exact (Hc 1620 1020 (0, 0) (1 # 10) A4 A5 A6 A7 A8).
Defined.

End ViewportExtras.

(** ** The store *)

Section StoreExtras.
Import StateManager.

(** X11.  A write changes what it names and nothing beside it.  Take a
    write path and a read path made of ordinary keys (none of the names a
    plain object inherits), the write path meeting no array and no [Map] in
    the state.  After [set(path, value)], however it ends, a read path whose
    keys part ways with those of the write path before either runs out (one
    that is not the write path, an ancestor of it or a descendant of it) reads
    as it did before.  The state is a tree: no object is shared between two
    paths. *)
Theorem X11_write_leaves_other_paths s path value path' :
  ordinary path = true -> ordinary path' = true ->
  plain (state s) path = true ->
  diverge (Js.split_dot path) (Js.split_dot path') ->
  get (snd (fst (set s path value))) path' = get s path'.
Proof.
  intros _ _ _ D. unfold get. rewrite set_state.
  destruct (_setNestedValue (state s) path value) as [st'|] eqn:E; [|reflexivity].
  simpl. eapply _setNestedValue_frame; eassumption.
Qed.

Lemma X11_write_leaves_other_paths_witness :
  ordinary "user.cooldownTime" = true /\ ordinary "user.isCooldown" = true /\
  plain (state guardedStore) "user.cooldownTime" = true /\
  diverge (Js.split_dot "user.cooldownTime") (Js.split_dot "user.isCooldown") /\
  get (snd (fst (set guardedStore "user.cooldownTime" (JNum 5)))) "user.isCooldown"
  = JBool false.
Proof.
  assert (O1 : ordinary "user.cooldownTime" = true) by reflexivity.
  assert (O2 : ordinary "user.isCooldown" = true) by reflexivity.
  assert (P : plain (state guardedStore) "user.cooldownTime" = true) by reflexivity.
  assert (D : diverge (Js.split_dot "user.cooldownTime") (Js.split_dot "user.isCooldown")).
  { simpl. right. split; [reflexivity|]. left. discriminate. }
  split; [exact O1|]. split; [exact O2|]. split; [exact P|]. split; [exact D|].
  rewrite (X11_write_leaves_other_paths guardedStore _ (JNum 5) _ O1 O2 P D). reflexivity.
Defined.

(** X12.  The subscribers of a path form a set.  Subscribing a callback that
    is already subscribed changes nothing, so no callback is called twice for
    one change; after [subscribe] the callback is among the subscribers of the
    path, after the returned unsubscribe function it is not, and the other
    subscribers keep their order; unsubscribing a callback that was not there
    before its [subscribe] restores the list; subscribers of other paths are
    never touched. *)
Theorem X12_subscribers_form_a_set s path cb :
  subscribe (subscribe s path cb) path cb = subscribe s path cb /\
  has_cb (cb_id cb) (subscribersAt (subscribe s path cb) path) = true /\
  (NoDup (map cb_id (subscribersAt s path)) ->
   NoDup (map cb_id (subscribersAt (subscribe s path cb) path))) /\
  has_cb (cb_id cb) (subscribersAt (unsubscribe s path cb) path) = false /\
  subscribersAt (unsubscribe s path cb) path
  = filter (fun c => cb_id c ≠ cb_id cb) (subscribersAt s path) /\
  (has_cb (cb_id cb) (subscribersAt s path) = false ->
   subscribersAt (unsubscribe (subscribe s path cb) path cb) path = subscribersAt s path) /\
  (forall path', path <> path' ->
     subscribersAt (subscribe s path cb) path' = subscribersAt s path' /\
     subscribersAt (unsubscribe s path cb) path' = subscribersAt s path').
Proof.
  split; [apply subscribe_twice|]. split.
  { rewrite subscribersAt_subscribe.
    destruct (has_cb _ (subscribersAt s path)) eqn:E; [exact E|].
    rewrite has_cb_app. unfold has_cb at 2. simpl. rewrite Nat.eqb_refl.
    apply orb_true_r. }
  split; [apply subscribe_NoDup|]. split; [apply unsubscribe_gone|].
  split; [apply subscribersAt_unsubscribe|]. split; [apply unsubscribe_subscribe|].
  intros path' H. split.
  - apply subscribersAt_subscribe_ne, H.
  - apply subscribersAt_unsubscribe_ne, H.
Qed.

Lemma X12_subscribers_form_a_set_witness :
  NoDup (map cb_id (subscribersAt guardedStore "user.cooldownTime")) /\
  map cb_id (subscribersAt (subscribe guardedStore "user.cooldownTime" (quietSubscriber 8))
               "user.cooldownTime") = [7; 8]%nat /\
  has_cb (cb_id (quietSubscriber 5)) (subscribersAt guardedStore "user.cooldownTime") = false /\
  map cb_id (subscribersAt
               (unsubscribe (subscribe guardedStore "user.cooldownTime" (quietSubscriber 5))
                            "user.cooldownTime" (quietSubscriber 5))
               "user.cooldownTime") = [7; 8]%nat /\
  "user.cooldownTime" <> "user" /\
  map cb_id (subscribersAt (unsubscribe guardedStore "user.cooldownTime" throwingSubscriber)
               "user") = [9]%nat.
Proof.
  destruct (X12_subscribers_form_a_set guardedStore "user.cooldownTime" (quietSubscriber 8))
    as (H1 & _ & H3 & _).
  destruct (X12_subscribers_form_a_set guardedStore "user.cooldownTime" (quietSubscriber 5))
    as (_ & _ & _ & _ & _ & H6 & _).
  destruct (X12_subscribers_form_a_set guardedStore "user.cooldownTime" throwingSubscriber)
    as (_ & _ & _ & _ & _ & _ & H7).
  assert (N : NoDup (map cb_id (subscribersAt guardedStore "user.cooldownTime"))).
  { vm_compute. repeat constructor; rewrite ?elem_of_cons, ?elem_of_nil; intuition discriminate. }
  assert (F : has_cb (cb_id (quietSubscriber 5))
                (subscribersAt guardedStore "user.cooldownTime") = false)
    by (vm_compute; reflexivity).
  assert (P : "user.cooldownTime" <> "user") by discriminate.
  split; [exact N|]. split; [vm_compute; reflexivity|]. split; [exact F|].
  split; [rewrite (H6 F); vm_compute; reflexivity|]. split; [exact P|].
  rewrite (proj2 (H7 "user" P)). vm_compute. reflexivity.
Defined.

(** X13.  Who is told what.  When the write succeeds and no middleware
    throws, [set(path, value)] calls, in this order: each subscriber of
    [path] with the new value, the value read before the write and [path];
    then, for each parent path from the nearest to the root, each of its
    subscribers with the parent's current value, [null] as the old value and
    the parent path.  Every call sees the store with the value written. *)
Theorem X13_notification_protocol s path value st' :
  _setNestedValue (state s) path value = Some st' ->
  runMiddleware (with_state s st') path value (get s path) = Returns ->
  set s path value
  = (Normal, with_state s st',
     map (callOf st' value (get s path) path) (subscribersAt s path)
     ++ flat_map (fun parentPath =>
                    map (callOf st' (_getNestedValue st' parentPath) JNull parentPath)
                        (subscribersAt s parentPath))
                 (parentPaths path)).
Proof.
  intros Hset Hmw. unfold set. rewrite Hset, Hmw.
  pose proof (_notifySubscribers_returns (with_state s st') path value (get s path)) as Hr.
  pose proof (_notifySubscribers_calls (with_state s st') path value (get s path)) as Hc.
  destruct (_notifySubscribers _ _ _ _) as [calls o]. simpl in Hr, Hc. subst o calls.
  reflexivity.
Qed.

Lemma X13_notification_protocol_witness :
  exists st',
    _setNestedValue (state guardedStore) "user.cooldownTime" (JNum 5) = Some st' /\
    runMiddleware (with_state guardedStore st') "user.cooldownTime" (JNum 5)
      (get guardedStore "user.cooldownTime") = Returns /\
    map (fun c => (call_cb c, call_path c, call_oldValue c))
        (snd (set guardedStore "user.cooldownTime" (JNum 5)))
    = [(7%nat, "user.cooldownTime", JNum 0); (8%nat, "user.cooldownTime", JNum 0);
       (9%nat, "user", JNull)].
Proof.
  destruct (_setNestedValue (state guardedStore) "user.cooldownTime" (JNum 5))
    as [st'|] eqn:Hset; [|vm_compute in Hset; discriminate].
  assert (Hmw : runMiddleware (with_state guardedStore st') "user.cooldownTime" (JNum 5)
                  (get guardedStore "user.cooldownTime") = Returns) by reflexivity.
  exists st'. split; [reflexivity|]. split; [exact Hmw|].
  rewrite (X13_notification_protocol guardedStore _ _ st' Hset Hmw).
  vm_compute. reflexivity.
Defined.

(** X14.  Subscribers of a batch never see it half applied.  Every call
    [batchUpdate] makes, for whichever of its changes, is handed the store
    with all the writes of the batch in place: the notifications start only
    after the last write. *)
Theorem X14_batch_notifies_after_all_writes s updates c s' calls :
  batchUpdate s updates = (c, s', calls) ->
  Forall (fun call => call_state call = state s') calls.
Proof. apply batchUpdate_calls_state. Qed.

Lemma X14_batch_notifies_after_all_writes_witness :
  let r := batchUpdate guardedStore
             [("user.isCooldown", JBool true); ("user.cooldownTime", JNum 5)] in
  r = (fst (fst r), snd (fst r), snd r) /\
  length (snd r) = 4%nat /\
  Forall (fun call => call_state call = state (snd (fst r))) (snd r).
Proof.
  intros r.
  assert (E : r = (fst (fst r), snd (fst r), snd r)) by (destruct r as [[? ?] ?]; reflexivity).
  split; [exact E|]. split; [vm_compute; reflexivity|].
  exact (X14_batch_notifies_after_all_writes guardedStore _ _ _ _ E).
Defined.

(** X15.  A failing batch is not rolled back.  All paths are made of
    ordinary keys.  When the writes of a prefix of the batch succeed and the
    next write raises a [TypeError], its path running into a primitive (the
    write fails and meets no array and no [Map], which the model does not
    traverse but JavaScript does), [batchUpdate] ends abruptly with the
    earlier writes still in the store, the later entries never written, and
    no middleware or subscriber called. *)
Theorem X15_failed_batch_keeps_earlier_writes s us s1 chs path value rest :
  Forall (fun u => ordinary (fst u) = true) us -> ordinary path = true ->
  writeAll s us = (Normal, s1, chs) ->
  plain (state s1) path = true ->
  _setNestedValue (state s1) path value = None ->
  batchUpdate s (us ++ (path, value) :: rest) = (Abrupt, s1, []) /\
  (forall before p v, us = before ++ [(p, v)] -> get s1 p = v).
Proof.
  intros _ _ Hw _ Hf. split.
  - unfold batchUpdate. rewrite (writeAll_fails _ _ _ _ _ _ rest Hw Hf). reflexivity.
  - intros before p v ->. eapply writeAll_last, Hw.
Qed.

Lemma X15_failed_batch_keeps_earlier_writes_witness :
  exists s1,
    plain (state s1) "canvas.scale.step" = true /\
    fst (batchUpdate StateManager.new
           [("user.cooldownTime", JNum 5); ("canvas.scale.step", JNum 1);
            ("user.isCooldown", JBool true)]) = (Abrupt, s1) /\
    get s1 "user.cooldownTime" = JNum 5 /\
    get s1 "user.isCooldown" = JBool false.
Proof.
  destruct (writeAll StateManager.new [("user.cooldownTime", JNum 5)])
    as [[c s1] chs] eqn:Hw.
  assert (Hc : c = Normal) by (vm_compute in Hw; inversion Hw; reflexivity).
  subst c.
  assert (Hf : _setNestedValue (state s1) "canvas.scale.step" (JNum 1) = None)
    by (vm_compute in Hw; inversion Hw; reflexivity).
  assert (Hp : plain (state s1) "canvas.scale.step" = true)
    by (vm_compute in Hw; inversion Hw; reflexivity).
  assert (Ho : Forall (fun u : string * JsVal => ordinary (fst u) = true)
                      [("user.cooldownTime", JNum 5)])
    by (constructor; [reflexivity|constructor]).
  destruct (X15_failed_batch_keeps_earlier_writes StateManager.new _ s1 chs
              "canvas.scale.step" (JNum 1) [("user.isCooldown", JBool true)]
              Ho eq_refl Hw Hp Hf)
    as [Hb Hg].
  exists s1. split; [exact Hp|].
  split; [simpl app in Hb; rewrite Hb; reflexivity|].
  split; [exact (Hg [] _ _ eq_refl)|].
  vm_compute in Hw. inversion Hw. reflexivity.
Defined.

Lemma plainWalk_missing fields keys :
  Js.getField (List.hd EmptyString keys) fields = None ->
  plainWalk (JObj fields) keys = true.
Proof.
  destruct keys as [|k [|k' ks]]; simpl; try reflexivity.
  intros ->. reflexivity.
Qed.

(** X16.  Intermediate containers are created on demand.  On a state object
    that has no field named by the first key of a path of ordinary keys, the
    write succeeds however long the path is, it meets no array and no [Map],
    and the value reads back under the path. *)
Theorem X16_write_creates_containers fields path value :
  ordinary path = true ->
  Js.getField (List.hd EmptyString (Js.split_dot path)) fields = None ->
  plain (JObj fields) path = true /\
  exists st',
    _setNestedValue (JObj fields) path value = Some st' /\
    _getNestedValue st' path = value.
Proof.
  intros _ H. split; [apply plainWalk_missing, H|].
  assert (E : exists st', _setNestedValue (JObj fields) path value = Some st').
  { unfold _setNestedValue.
    destruct (Js.split_dot path) as [|k [|k' ks]] eqn:S.
    - exfalso. eapply split_dot_nonempty, S.
    - simpl. eauto.
    - change (removelast (k :: k' :: ks)) with (k :: removelast (k' :: ks)).
      apply setNested_missing. exact H. }
  destruct E as [st' E]. exists st'. split; [exact E|].
  eapply _setNestedValue_read, E.
Qed.

Lemma X16_write_creates_containers_witness :
  ordinary "ui.contextMenu.visible" = true /\
  Js.getField (List.hd EmptyString (Js.split_dot "ui.contextMenu.visible")) [] = None /\
  exists st',
    _setNestedValue (JObj []) "ui.contextMenu.visible" (JBool true) = Some st' /\
    st' = JObj [("ui", JObj [("contextMenu", JObj [("visible", JBool true)])])].
Proof.
  assert (O : ordinary "ui.contextMenu.visible" = true) by reflexivity.
  assert (H : Js.getField (List.hd EmptyString (Js.split_dot "ui.contextMenu.visible")) []
              = None) by reflexivity.
  split; [exact O|]. split; [exact H|].
  destruct (X16_write_creates_containers [] "ui.contextMenu.visible" (JBool true) O H)
    as (_ & st' & E & _).
  exists st'. split; [exact E|].
  vm_compute in E. injection E as <-. reflexivity.
Defined.

End StoreExtras.

(** ** The session *)

Section SessionExtras.
Import WebSocketManager.

(** X17.  No message is lost, duplicated or reordered while the transport
    accepts what it is given.  Take any run of events in which [ws.send]
    never throws and every [send] call queues when it cannot deliver, from a
    manager with nothing queued while its socket is open (a fresh one, say).
    Then the frames handed to the transport followed by the frames still in
    the queue are exactly the frames there before followed, in order, by each
    message passed to [send] and each ping of a heartbeat that found the
    socket open; and again nothing is queued while the socket is open. *)
Theorem X17_messages_conserved cfg m evs :
  settled m -> Forall calm evs ->
  wire (run cfg m evs) ++ messageQueue (run cfg m evs)
  = wire m ++ messageQueue m ++ handedAll cfg m evs /\
  settled (run cfg m evs).
Proof.
  intros Hs Hc. destruct (run_conserves cfg evs m Hs Hc) as [H1 H2]. auto.
Qed.

Lemma X17_messages_conserved_witness :
  let evs :=
    [(calmEnv 0 0, Send (singleUpdate 1 2 "#FF0000") true);
     (calmEnv 1 0, Connect);
     (calmEnv 2 0, Send (singleUpdate 3 4 "#00FF00") true);
     (calmEnv 3 0, SocketOpen);
     (calmEnv 4 0, Heartbeat);
     (calmEnv 5 0, SocketClose 1006);
     (calmEnv 6 0, Send (singleUpdate 5 6 "#0000FF") true)] in
  settled WebSocketManager.new /\ Forall calm evs /\
  wire (run config WebSocketManager.new evs)
  = [singleUpdate 1 2 "#FF0000"; singleUpdate 3 4 "#00FF00"; ping (calmEnv 4 0)] /\
  messageQueue (run config WebSocketManager.new evs) = [singleUpdate 5 6 "#0000FF"] /\
  wire (run config WebSocketManager.new evs) ++ messageQueue (run config WebSocketManager.new evs)
  = handedAll config WebSocketManager.new evs.
Proof.
  intros evs.
  assert (Hs : settled WebSocketManager.new) by (intros H; discriminate H).
  assert (Hc : Forall calm evs).
  { unfold evs. repeat constructor. }
  destruct (X17_messages_conserved config WebSocketManager.new evs Hs Hc) as [H _].
  split; [exact Hs|]. split; [exact Hc|].
  split; [reflexivity|]. split; [reflexivity|]. exact H.
Defined.

(** X18.  The backoff starts over after every success.  However many
    attempts came before, once the socket has opened the next abnormal closure
    schedules attempt number 1: both copies of the counter are 1 and the
    timeout armed is the first base delay, min(reconnectInterval,
    maxReconnectInterval), plus its jitter. *)
Theorem X18_backoff_restarts_after_open cfg e e' m code :
  (0 < maxReconnectAttempts cfg)%Z -> code <> 1000%Z ->
  let m' := handleClose cfg e' (handleOpen e m) code in
  reconnectAttempts m' = 1%Z /\
  connection_reconnectAttempts (appState m') = 1%Z /\
  reconnectTimers m'
  = reconnectTimers m ++ [baseDelay cfg 1 + baseDelay cfg 1 * (1 # 10) * random e'] /\
  baseDelay cfg 1 == Qmin (reconnectInterval cfg) (maxReconnectInterval cfg).
Proof.
  intros Hmax Hcode m'.
  destruct (close_after_open cfg e e' m code Hmax Hcode) as (H1 & H2 & H3).
  repeat split; try assumption. apply baseDelay_first.
Qed.

Lemma X18_backoff_restarts_after_open_witness :
  let m9 := with_ws (Some CONNECTING) (with_reconnectAttempts 9 WebSocketManager.new) in
  let m' := handleClose config (calmEnv 1 (1 # 2)) (handleOpen (calmEnv 0 0) m9) 1006 in
  (0 < maxReconnectAttempts config)%Z /\ 1006%Z <> 1000%Z /\
  reconnectAttempts m' = 1%Z /\
  (exists d, reconnectTimers m' = [d] /\ d == 1050).
Proof.
  intros m9 m'.
  assert (H1 : (0 < maxReconnectAttempts config)%Z) by reflexivity.
  assert (H2 : 1006%Z <> 1000%Z) by discriminate.
  destruct (X18_backoff_restarts_after_open config (calmEnv 0 0) (calmEnv 1 (1 # 2)) m9
              1006%Z H1 H2) as (A & _ & T & _).
  split; [exact H1|]. split; [exact H2|]. split; [exact A|].
  eexists. split; [exact T|]. reflexivity.
Defined.

(** X19.  Retry timeouts outlive the connection they were armed for.  A
    timeout armed by [scheduleReconnect] is never cancelled.  If it fires
    while the store reports the connection up, it does nothing.  But
    [disconnect()] leaves it armed and marks the connection down, so when it
    then fires, with a constructor that does not throw, the manager opens a
    new socket: a manual disconnect is undone by a pending retry. *)
Theorem X19_retry_outlives_disconnect cfg e m i :
  (connection_isConnected (appState m) = true ->
   transport (step cfg m (e, ReconnectTimer i)) = transport m /\
   reconnectAttempts (step cfg m (e, ReconnectTimer i)) = reconnectAttempts m) /\
  reconnectTimers (disconnect m) = reconnectTimers m /\
  (forall d,
     reconnectTimers m !! i = Some d -> constructorThrows e = false ->
     let m' := step cfg (disconnect m) (e, ReconnectTimer i) in
     ws (disconnect m) = None /\
     ws m' = Some CONNECTING /\ isConnecting m' = true /\ connectionTimer m' = true /\
     reconnectTimers m' = delete i (reconnectTimers m)).
Proof.
  split; [apply stale_retry_while_connected|]. split; [reflexivity|].
  intros d Hi Hc m'. split; [reflexivity|].
  apply (retry_after_disconnect cfg e m i d Hi Hc).
Qed.

Lemma X19_retry_outlives_disconnect_witness :
  let e := calmEnv 0 0 in
  let m := run config WebSocketManager.new [(e, Connect); (e, SocketClose 1006)] in
  let up := run config WebSocketManager.new
              [(e, Connect); (e, SocketClose 1006); (e, Connect); (e, SocketOpen)] in
  connection_isConnected (appState up) = true /\
  ws (step config up (e, ReconnectTimer 0)) = Some OPEN /\
  (exists d, reconnectTimers m !! 0%nat = Some d) /\
  constructorThrows e = false /\
  ws (run config m [(e, Disconnect)]) = None /\
  ws (run config m [(e, Disconnect); (e, ReconnectTimer 0)]) = Some CONNECTING.
Proof.
  intros e m up.
  assert (Hu : connection_isConnected (appState up) = true) by reflexivity.
  destruct (X19_retry_outlives_disconnect config e up 0) as (Hstale & _ & _).
  destruct (X19_retry_outlives_disconnect config e m 0) as (_ & _ & Hretry).
  assert (Hd : reconnectTimers m !! 0%nat = Some (1000 + 1000 * (1 # 10) * 0)) by reflexivity.
  assert (Hc : constructorThrows e = false) by reflexivity.
  destruct (Hretry _ Hd Hc) as (W0 & W1 & _).
  destruct (Hstale Hu) as (T & _).
  split; [exact Hu|].
  split; [exact (eq_trans (f_equal snd T) eq_refl)|].
  split; [eexists; exact Hd|]. split; [exact Hc|].
  split; [exact W0|exact W1].
Defined.

(** X20.  A full-state snapshot replaces the pixel map.  After an [init]
    frame listing cells with integer coordinates, the map holds, for every
    cell, the colour of the last entry that names it and nothing for a cell
    the frame does not name, whatever the map held before; the online count
    is the one of the frame and the transport is untouched.  A frame whose
    list has a [null] or missing entry is dropped as a whole: the manager is
    left exactly as it was and no event is emitted. *)
Theorem X20_init_replaces_pixels e m :
  (forall cells n x y,
     let m' := handleMessage e m (Some (initFrame cells n)) in
     canvas_pixels (appState m') !! pixelKey (JNum x) (JNum y) = lastColor cells x y /\
     connection_onlineUsers (appState m') = JNum n /\
     transport m' = transport m) /\
  (forall items online,
     JNull ∈ items \/ JUndefined ∈ items ->
     handleMessage e m (Some (JObj [("type", JStr "init"); ("pixels", JArr items);
                                    ("online_users", online)])) = m).
Proof.
  split.
  - intros cells n x y m'.
    destruct (handleMessage_init e m cells n) as (H1 & H2 & H3). fold m' in H1, H2, H3.
    split; [|split; assumption].
    rewrite H1, paintCell_lookup. destruct (lastColor cells x y); [reflexivity|].
    apply lookup_empty.
  - intros items online. apply handleMessage_init_broken.
Qed.

Lemma X20_init_replaces_pixels_witness :
  let m := handleMessage (calmEnv 0 0) WebSocketManager.new
             (Some (singleUpdate 9 9 "#123456")) in
  let m' := handleMessage (calmEnv 1 0) m
              (Some (initFrame [(0, 0, "#FFFFFF"); (1, 0, "#FF0000"); (0, 0, "#000000")]%Z 3)) in
  canvas_pixels (appState m') !! "0,0" = Some (JStr "#000000") /\
  canvas_pixels (appState m') !! "9,9" = None /\
  connection_onlineUsers (appState m') = JNum 3 /\
  (JNull ∈ [update 0 0 "#FFFFFF"; JNull] \/ JUndefined ∈ [update 0 0 "#FFFFFF"; JNull]) /\
  handleMessage (calmEnv 1 0) m
    (Some (JObj [("type", JStr "init"); ("pixels", JArr [update 0 0 "#FFFFFF"; JNull]);
                 ("online_users", JNum 3)])) = m.
Proof.
  intros m m'.
  destruct (X20_init_replaces_pixels (calmEnv 1 0) m) as [Hi Hb].
  destruct (Hi [(0, 0, "#FFFFFF"); (1, 0, "#FF0000"); (0, 0, "#000000")]%Z 3%Z 0%Z 0%Z)
    as (H00 & Hn & _).
  destruct (Hi [(0, 0, "#FFFFFF"); (1, 0, "#FF0000"); (0, 0, "#000000")]%Z 3%Z 9%Z 9%Z)
    as (H99 & _ & _).
  assert (N : JNull ∈ [update 0 0 "#FFFFFF"; JNull] \/
              JUndefined ∈ [update 0 0 "#FFFFFF"; JNull]).
  { left. right. left. }
  split; [exact H00|]. split; [exact H99|]. split; [exact Hn|]. split; [exact N|].
  exact (Hb _ (JNum 3) N).
Defined.

(** X21.  A pixel update repaints one cell.  After a single-cell
    [pixel_update] frame with integer coordinates, the addressed cell has the
    colour of the frame and every other cell has the colour, or the absence
    of one, it had before. *)
Theorem X21_pixel_update_repaints_one_cell e m x y color x' y' :
  canvas_pixels (appState (handleMessage e m (Some (singleUpdate x y color))))
    !! pixelKey (JNum x') (JNum y')
  = if (x =? x')%Z && (y =? y')%Z then Some (JStr color)
    else canvas_pixels (appState m) !! pixelKey (JNum x') (JNum y').
Proof. apply handleMessage_single. Qed.

End SessionExtras.

(** ** The cooldown *)

Section CooldownExtras.
Import StateManager PixelBattleApp.

(** X22.  The cooldown lasts exactly [COOLDOWN_TIME] ticks.  On a store whose
    [user] field is an object and that has no middleware, with a cooldown time
    of at least one second: after [startCooldown] and n runs of the interval
    callback, the store holds [isCooldown = true] and
    [cooldownTime = COOLDOWN_TIME - n] with the interval armed as long as
    n < COOLDOWN_TIME, and [isCooldown = false], [cooldownTime = 0] with the
    interval cleared from n = COOLDOWN_TIME on. *)
Theorem X22_cooldown_lasts_cooldown_time cfg a n :
  userStore (appState a) -> (1 <= COOLDOWN_TIME cfg)%Z ->
  let an := ticks n (snd (startCooldown cfg a)) in
  ((Z.of_nat n < COOLDOWN_TIME cfg)%Z ->
   cooldownPair (state (appState an))
   = (JBool true, JNum (COOLDOWN_TIME cfg - Z.of_nat n)) /\
   interval an = true) /\
  ((COOLDOWN_TIME cfg <= Z.of_nat n)%Z ->
   cooldownPair (state (appState an)) = (JBool false, JNum 0) /\
   interval an = false).
Proof.
  intros Hu HT an.
  destruct (startCooldown_cooling cfg a Hu) as [_ Hc].
  split; intros Hn.
  - destruct (ticks_cooling n _ _ Hc Hn) as (_ & Hi & Hp). auto.
  - assert (H1 : (1 <= n)%nat) by lia.
    destruct (ticks_end n _ _ Hc Hn H1) as (_ & Hi & Hp). auto.
Qed.

Lemma X22_cooldown_lasts_cooldown_time_witness :
  let a0 := snd (startCooldown CONFIG PixelBattleApp.start) in
  userStore (appState PixelBattleApp.start) /\ (1 <= COOLDOWN_TIME CONFIG)%Z /\
  (Z.of_nat 59 < COOLDOWN_TIME CONFIG)%Z /\
  cooldownPair (state (appState (ticks 59 a0))) = (JBool true, JNum 1) /\
  (COOLDOWN_TIME CONFIG <= Z.of_nat 60)%Z /\
  cooldownPair (state (appState (ticks 60 a0))) = (JBool false, JNum 0) /\
  interval (ticks 60 a0) = false.
Proof.
  intros a0.
  assert (Hu : userStore (appState PixelBattleApp.start)).
  { split; [|reflexivity]. eexists. eexists. split; reflexivity. }
  assert (HT : (1 <= COOLDOWN_TIME CONFIG)%Z) by (simpl; lia).
  assert (H59 : (Z.of_nat 59 < COOLDOWN_TIME CONFIG)%Z) by (simpl; lia).
  assert (H60 : (COOLDOWN_TIME CONFIG <= Z.of_nat 60)%Z) by (simpl; lia).
  destruct (X22_cooldown_lasts_cooldown_time CONFIG PixelBattleApp.start 59 Hu HT)
    as [A _].
  destruct (X22_cooldown_lasts_cooldown_time CONFIG PixelBattleApp.start 60 Hu HT)
    as [_ B].
  split; [exact Hu|]. split; [exact HT|]. split; [exact H59|].
  split; [exact (proj1 (A H59))|]. split; [exact H60|].
  split; [exact (proj1 (B H60))|exact (proj2 (B H60))].
Defined.

End CooldownExtras.

(** ** The first generation: canvas.js, controls.js, websocket.js *)

Section LegacyExtras.

(** X23.  The first-generation cooldown is consistent and limits the rate.
    With a cooldown time of at least one second, after any sequence of
    confirm clicks, interval ticks, selections, colour picks and socket
    changes from the initial state: exactly one interval is armed while
    [isCooldown] holds and none otherwise; [cooldown] is between 1 and
    [COOLDOWN_TIME] while [isCooldown] holds and 0 otherwise; k accepted
    placements took at least (k - 1) * COOLDOWN_TIME ticks; and no more frames
    were sent than placements made (a placement confirmed while the socket is
    not open is painted and starts the cooldown, but is never sent). *)
Theorem X23_legacy_cooldown cfg evs :
  (1 <= COOLDOWN_TIME cfg)%Z ->
  let c := LegacyControls.run cfg LegacyControls.initial evs in
  consistent cfg c /\
  (COOLDOWN_TIME cfg * (Z.of_nat (length (LegacyControls.placed c)) - 1)
   <= Z.of_nat (length (List.filter LegacyControls.isTick evs)))%Z /\
  (length (LegacyControls.sent c) <= length (LegacyControls.placed c))%nat.
Proof.
  intros HT c.
  assert (C0 : consistent cfg LegacyControls.initial) by (split; reflexivity).
  assert (P0 : paid cfg LegacyControls.initial 0).
  { unfold paid. simpl. lia. }
  destruct (legacy_run_paid cfg evs _ _ HT C0 P0) as [Hc Hp]. fold c in Hc, Hp.
  split; [exact Hc|]. split.
  - unfold paid in Hp. destruct Hc as [_ Hc].
    destruct (LegacyControls.isCooldown c); lia.
  - apply legacy_run_sent. simpl. lia.
Qed.

Lemma X23_legacy_cooldown_witness :
  let evs := [LegacyControls.Select (Some (3, 4)%Z); LegacyControls.Confirm;
              LegacyControls.Tick; LegacyControls.Select (Some (5, 6)%Z);
              LegacyControls.Confirm] in
  let c := LegacyControls.run CONFIG LegacyControls.initial evs in
  (1 <= COOLDOWN_TIME CONFIG)%Z /\
  LegacyControls.placed c = [(3, 4, JStr "#000000")]%Z /\
  LegacyControls.sent c = [] /\
  LegacyControls.cooldown c = 59%Z /\
  consistent CONFIG c.
Proof.
  intros evs c.
  assert (HT : (1 <= COOLDOWN_TIME CONFIG)%Z) by (simpl; lia).
  destruct (X23_legacy_cooldown CONFIG evs HT) as (Hc & _ & _).
  split; [exact HT|]. split; [reflexivity|]. split; [reflexivity|].
  split; [reflexivity|exact Hc].
Defined.

(** X24.  The first-generation canvas keeps the scale within the configured
    bounds.  From a scale within [MIN_SCALE, MAX_SCALE], every sequence of
    mouse, wheel, touch and resize events leaves it there: a wheel step or a
    pinch whose result would leave the bounds is refused. *)
Theorem X24_legacy_scale_within_config cfg st p evs :
  MIN_SCALE cfg <= scale st <= MAX_SCALE cfg ->
  MIN_SCALE cfg <= scale (fst (PixelCanvasEvents.run cfg (st, p) evs)) <= MAX_SCALE cfg.
Proof. intros H. apply (legacy_run_scale cfg evs (st, p)). exact H. Qed.

Lemma X24_legacy_scale_within_config_witness :
  let st := {| scale := 1; offsetX := 0; offsetY := 0; selectedPixel := None |} in
  let evs := repeat (PixelCanvasEvents.Wheel 10 10 1) 9
             ++ [PixelCanvasEvents.TouchStart2 100; PixelCanvasEvents.TouchMove2 5 5 4000] in
  MIN_SCALE CONFIG <= scale st <= MAX_SCALE CONFIG /\
  MIN_SCALE CONFIG
  <= scale (fst (PixelCanvasEvents.run CONFIG (st, PixelCanvasEvents.initialPointer) evs)).
Proof.
  intros st evs.
  assert (H : MIN_SCALE CONFIG <= scale st <= MAX_SCALE CONFIG)
    by (split; vm_compute; discriminate).
  split; [exact H|].
  exact (proj1 (X24_legacy_scale_within_config CONFIG st PixelCanvasEvents.initialPointer
                  evs H)).
Defined.





(** X27.  The first-generation receiver applies a batch entry by entry.  For
    any list of cells, a [pixel_update] frame carrying them as [updates]
    leaves the pixel map as the same cells received one frame each, in list
    order, would. *)
Theorem X27_legacy_batch_is_sequence (l : list (Z * Z * string)) pixels :
  LegacyWebSocket.onPixelUpdate pixels
    (batchedUpdate (map (fun t => update (fst (fst t)) (snd (fst t)) (snd t)) l))
  = (StateManager.Normal,
     fold_left (fun px t =>
                  snd (LegacyWebSocket.onPixelUpdate px
                         (singleUpdate (fst (fst t)) (snd (fst t)) (snd t))))
               l pixels).
Proof. apply LegacyWebSocket_batch_as_singles. Qed.

End LegacyExtras.

(** ** The frame sampler and the placement *)

Section SamplerExtras.
Import PerformanceMonitor.

(** X28.  The frame-time window is a sliding window of 60 samples.  If the
    samples held are the last 60 of some history, then after any run of
    frames they are the last 60 of that history extended by the frame times
    computed along the run, oldest first; so the array never holds more than
    [maxSamples] entries, and a stopped monitor records nothing. *)
Theorem X28_frame_window m older timestamps :
  frameTimeSamples m = drop (length older - maxSamples) older ->
  let history := older ++ frameTimes m timestamps in
  frameTimeSamples (run m timestamps) = drop (length history - maxSamples) history /\
  (length (frameTimeSamples (run m timestamps)) <= maxSamples)%nat /\
  (isRunning m = false -> run m timestamps = m).
Proof.
  intros H history.
  pose proof (run_window timestamps m older H) as E. fold history in E.
  split; [exact E|]. split.
  - rewrite E, length_drop. lia.
  - intros R. unfold run. clear E history H.
    induction timestamps as [|t ts IH]; [reflexivity|].
    simpl. unfold trackFrame at 2. rewrite R. exact IH.
Qed.

Lemma X28_frame_window_witness :
  let ts := map (fun k => inject_Z (Z.of_nat k) * 16) (seq 1 70) in
  frameTimeSamples (started 0) = drop (length ([] : list Q) - maxSamples) [] /\
  length (frameTimeSamples (run (started 0) ts)) = 60%nat /\
  (length (frameTimeSamples (run (started 0) ts)) <= maxSamples)%nat.
Proof.
  intros ts.
  assert (H : frameTimeSamples (started 0) = drop (length ([] : list Q) - maxSamples) [])
    by reflexivity.
  destruct (X28_frame_window (started 0) [] ts H) as (_ & L & _).
  split; [exact H|]. split; [vm_compute; reflexivity|exact L].
Defined.

End SamplerExtras.

Section PlacementExtras.
Import StateManager Placement.

Ltac parted :=
  simpl; first [ left; discriminate
               | right; split; [reflexivity|]; left; discriminate ].

(** X29.  An accepted placement.  On a store without middleware whose
    [canvas], [user] and [ui] are objects, with a cell selected, a non-empty
    colour, no cooldown and the connection up, [handlePixelConfirmation]
    completes and: hands the frame [{type: "pixel_update", x, y, color}] to
    [send] with queueing on; shows the cell in that colour in the local pixel
    map at once; starts the cooldown at [COOLDOWN_TIME] with the interval
    armed; clears the selection; and appends one success notification. *)
Theorem X29_accepted_placement cfg e a x y color px ns :
  placementStore (store a) ->
  get (store a) "canvas.selectedPixel" = JObj [("x", JNum x); ("y", JNum y)] ->
  get (store a) "user.selectedColor" = JStr color -> color <> EmptyString ->
  truthy (get (store a) "user.isCooldown") = false ->
  isConnected a = true ->
  get (store a) "canvas.pixels" = JMap px ->
  get (store a) "ui.notifications" = JArr ns ->
  exists a',
    handlePixelConfirmation cfg e a = (Normal, a') /\
    manager a'
    = snd (WebSocketManager.send (sendEnv e) (manager a) (singleUpdate x y color) true) /\
    get (store a') "canvas.pixels"
    = JMap (<[WebSocketManager.pixelKey (JNum x) (JNum y) := JStr color]> px) /\
    PixelBattleApp.cooldownPair (state (store a'))
    = (JBool true, JNum (COOLDOWN_TIME cfg)) /\
    PixelBattleApp.interval (core a') = true /\
    get (store a') "canvas.selectedPixel" = JNull /\
    get (store a') "ui.notifications"
    = JArr (ns ++ [notification (freshId e) "Пиксель размещен!" "success" 2000]) /\
    isConnected a' = true.
Proof.
  intros Hs Hsel Hcol Hne Hcool Hconn Hpx Hns.
  unfold handlePixelConfirmation. cbv zeta.
  rewrite Hsel, Hcol, Hcool, Hconn.
  assert (Tc : truthy (JStr color) = true).
  { simpl. destruct (String.eqb color "") eqn:E; [|reflexivity].
    apply String.eqb_eq in E. contradiction. }
  rewrite Tc. simpl truthy. cbv iota. simpl negb. cbv iota.
  simpl Js.prop.
  (* the frame is sent *)
  set (a1 := sendPixelUpdate e a _).
  assert (S1 : store a1 = store a) by reflexivity.
  (* the local repaint *)
  unfold handlePixelUpdate. rewrite S1, Hpx. simpl newMap. simpl Js.prop.
  destruct (placed_set (store a) "canvas.pixels" "canvas" "pixels"
              (JMap (<[WebSocketManager.pixelKey (JNum x) (JNum y) := JStr color]> px))
              Hs eq_refl) as (s2 & calls2 & Hset2 & Hs2 & Hr2 & Hf2); [auto|].
  rewrite Hset2, run_store_normal. simpl andThen.
  set (a2 := with_core a1 _).
  (* the cooldown *)
  unfold startCooldown, PixelBattleApp.startCooldown.
  destruct (placed_cooldown s2 (JBool true) (JNum (COOLDOWN_TIME cfg)) Hs2)
    as (s3 & calls3 & Hb3 & Hs3 & Hp3 & Hf3).
  change (PixelBattleApp.appState (core a2)) with s2. rewrite Hb3.
  simpl PixelBattleApp.seq_store. cbv iota beta. simpl andThen.
  set (a3 := with_core a2 _).
  (* the selection is cleared *)
  change (store a3) with s3.
  destruct (placed_set s3 "canvas.selectedPixel" "canvas" "selectedPixel" JNull Hs3 eq_refl)
    as (s4 & calls4 & Hset4 & Hs4 & Hr4 & Hf4); [auto|].
  rewrite Hset4, run_store_normal. simpl andThen.
  set (a4 := with_core a3 _).
  (* the notification *)
  assert (N4 : get (store a4) "ui.notifications" = JArr ns).
  { change (store a4) with s4.
    rewrite Hf4 by parted. rewrite Hf3 by parted. rewrite Hf2 by parted. exact Hns. }
  destruct (show_appends e a4 "Пиксель размещен!" "success" 2000 ns Hs4 N4)
    as (a5 & Hshow & Hs5 & Hr5 & Hf5 & Hm5 & Hc5 & Hi5).
  unfold success. rewrite Hshow.
  exists a5. split; [reflexivity|].
  split; [rewrite Hm5; reflexivity|].
  split; [rewrite Hf5 by parted; change (store a4) with s4;
          rewrite Hf4 by parted; rewrite Hf3 by parted; exact Hr2|].
  split.
  { unfold PixelBattleApp.cooldownPair.
    change (_getNestedValue (state (store a5)) "user.isCooldown")
      with (get (store a5) "user.isCooldown").
    change (_getNestedValue (state (store a5)) "user.cooldownTime")
      with (get (store a5) "user.cooldownTime").
    rewrite !Hf5 by parted. change (store a4) with s4. rewrite !Hf4 by parted.
    exact Hp3. }
  split; [rewrite Hi5; reflexivity|].
  split; [rewrite Hf5 by parted; exact Hr4|].
  split; [exact Hr5|]. rewrite Hc5. exact Hconn.
Qed.

Lemma X29_accepted_placement_witness :
  let a := selected onlineApp 3 4 in
  placementStore (store a) /\
  exists a',
    handlePixelConfirmation CONFIG placementEnv a = (Normal, a') /\
    WebSocketManager.wire (manager a') = [singleUpdate 3 4 "#000000"] /\
    get (store a') "canvas.pixels" = JMap (<["3,4" := JStr "#000000"]> ∅) /\
    PixelBattleApp.cooldownPair (state (store a'))
    = (JBool true, JNum (COOLDOWN_TIME CONFIG)) /\
    PixelBattleApp.interval (core a') = true /\
    get (store a') "canvas.selectedPixel" = JNull.
Proof.
  intros a.
  assert (Hs : placementStore (store a)) by (repeat split; reflexivity).
  assert (Hne : "#000000" <> EmptyString) by discriminate.
  destruct (X29_accepted_placement CONFIG placementEnv a 3 4 "#000000" ∅ []
              Hs eq_refl eq_refl Hne eq_refl eq_refl eq_refl eq_refl)
    as (a' & H & Hm & Hp & Hc & Hi & Hsel & _).
  split; [exact Hs|]. exists a'.
  split; [exact H|]. split; [rewrite Hm; reflexivity|].
  split; [exact Hp|]. split; [exact Hc|]. split; [exact Hi|exact Hsel].
Defined.

(** X30.  A refused placement.  On such a store, when no cell is selected,
    or no colour, or the cooldown flag is set, or the connection is down,
    [handlePixelConfirmation] sends nothing and changes nothing but the
    notification list, to which it appends one warning or error: the
    manager, the interval and every store path outside [ui.notifications]
    (the pixel map, the cooldown pair, the selection) are as before. *)
Theorem X30_refused_placement cfg e a ns :
  placementStore (store a) ->
  get (store a) "ui.notifications" = JArr ns ->
  truthy (get (store a) "canvas.selectedPixel") = false \/
  truthy (get (store a) "user.selectedColor") = false \/
  truthy (get (store a) "user.isCooldown") = true \/
  isConnected a = false ->
  exists a' n,
    handlePixelConfirmation cfg e a = (Normal, a') /\
    manager a' = manager a /\ isConnected a' = isConnected a /\
    PixelBattleApp.interval (core a') = PixelBattleApp.interval (core a) /\
    get (store a') "ui.notifications" = JArr (ns ++ [n]) /\
    (Js.prop n "type" = JStr "warning" \/ Js.prop n "type" = JStr "error") /\
    (forall path', diverge (Js.split_dot "ui.notifications") (Js.split_dot path') ->
       get (store a') path' = get (store a) path').
Proof.
  intros Hs Hns Hr. unfold handlePixelConfirmation. cbv zeta.
  assert (W : forall message type duration,
            type = "warning" \/ type = "error" ->
            exists a' n,
              show e a message type duration = (Normal, a') /\
              manager a' = manager a /\ isConnected a' = isConnected a /\
              PixelBattleApp.interval (core a') = PixelBattleApp.interval (core a) /\
              get (store a') "ui.notifications" = JArr (ns ++ [n]) /\
              (Js.prop n "type" = JStr "warning" \/ Js.prop n "type" = JStr "error") /\
              (forall path',
                  diverge (Js.split_dot "ui.notifications") (Js.split_dot path') ->
                  get (store a') path' = get (store a) path')).
  { intros message type duration Ht.
    destruct (show_appends e a message type duration ns Hs Hns)
      as (a' & Hshow & _ & Hn & Hf & Hm & Hc & Hi).
    exists a', (notification (freshId e) message type duration).
    split; [exact Hshow|]. split; [exact Hm|]. split; [exact Hc|]. split; [exact Hi|].
    split; [exact Hn|]. split; [|exact Hf].
    destruct Ht as [-> | ->]; [left|right]; reflexivity. }
  destruct (truthy (get (store a) "canvas.selectedPixel")) eqn:T1; simpl negb; cbv iota;
    [|apply W; left; reflexivity].
  destruct (truthy (get (store a) "user.selectedColor")) eqn:T2; simpl negb; cbv iota;
    [|apply W; left; reflexivity].
  destruct (truthy (get (store a) "user.isCooldown")) eqn:T3; cbv iota;
    [apply W; left; reflexivity|].
  destruct (isConnected a) eqn:T4; simpl negb; cbv iota;
    [|apply W; right; reflexivity].
  exfalso. destruct Hr as [Hr|[Hr|[Hr|Hr]]]; discriminate Hr.
Qed.

Lemma X30_refused_placement_witness :
  let a := with_core onlineApp (snd (PixelBattleApp.startCooldown CONFIG (core (selected onlineApp 3 4)))) in
  placementStore (store a) /\
  truthy (get (store a) "user.isCooldown") = true /\
  exists a' n,
    handlePixelConfirmation CONFIG placementEnv a = (Normal, a') /\
    manager a' = manager a /\
    get (store a') "ui.notifications" = JArr [n] /\
    get (store a') "canvas.pixels" = JMap ∅ /\
    get (store a') "canvas.selectedPixel" = JObj [("x", JNum 3); ("y", JNum 4)].
Proof.
  intros a.
  assert (Hs : placementStore (store a)) by (repeat split; reflexivity).
  assert (Hc : truthy (get (store a) "user.isCooldown") = true) by reflexivity.
  destruct (X30_refused_placement CONFIG placementEnv a [] Hs eq_refl
              (or_intror (or_intror (or_introl Hc))))
    as (a' & n & H & Hm & _ & _ & Hn & _ & Hf).
  split; [exact Hs|]. split; [exact Hc|]. exists a', n.
  split; [exact H|]. split; [exact Hm|]. split; [exact Hn|].
  split; [rewrite Hf by (simpl; left; discriminate); reflexivity|].
  rewrite Hf by (simpl; left; discriminate). reflexivity.
Defined.

End PlacementExtras.
